(** * DeoDer: a shallow embedding of [run.py]

    [run.py] scans a web page for embedded video links and downloads every
    link through yt-dlp on a thread pool, with per-task retries, tqdm
    progress bars and a log of permanently failed URLs.

    The embedding follows the source function by function.  Python
    statements become computations in a state-and-exception monad over a
    [world] record (file system, the global [progress_bars], and the trace
    of prints and external calls).  The libraries the script calls
    (urllib, requests, BeautifulSoup, yt-dlp) are section variables: every
    theorem holds for any behaviour of them. *)

From Stdlib Require Import ZArith QArith Ascii String List Lia Bool.
From stdpp Require Import base gmap sets list strings.

Local Open Scope string_scope.
Local Open Scope list_scope.

(** ** Python values, exceptions and results *)

(** The values found in a yt-dlp progress dictionary.  A number is kept
    as the rational it stands for: an [int] exactly, a [float] as the
    value of the double.  The arithmetic of the hook rounds as Python
    does, see [float_round]. *)
Inductive pyval : Type :=
| VNone
| VStr (s : string)
| VNum (q : Q).

(** The exceptions the modelled code can see.  All of them are subclasses
    of Python's [Exception], so an [except Exception] clause catches each. *)
Inductive exn : Type :=
| NameError (name : string)
| KeyError (key : string)
| TypeError
| ZeroDivisionError
| ValueError (msg : string)
| FileExistsError (path : string)
| FileNotFoundError (path : string)
| IsADirectoryError (path : string)
| NotADirectoryError (path : string)
| RequestException (msg : string)
| ParserError (msg : string)
| DownloadError (msg : string).
Inductive result (A : Type) : Type :=
| Ok (a : A)
| Raise (e : exn).
Arguments Ok {A} a.
Arguments Raise {A} e.

(** ** Configuration (lines 12-17) *)

Definition MAX_RETRIES : Z := 10.
Definition OUTPUT_DIR : string := "downloads".
Definition MAX_WORKERS : nat := 5.
Definition TIMEOUT : Z := 10.
Definition VIDEO_DOMAINS : list string :=
  ["youtube.com"; "youtu.be"; "vimeo.com"; "dailymotion.com"].
Definition FAILED_LOG : string := "failed.txt".

(** ** The world *)

(** What the script prints, one constructor per [print] statement. *)
Inductive message : Type :=
| MsgDetected (domain : string)
| MsgScanning
| MsgNoLinks
| MsgExtractFailed (e : exn)
| MsgComplete (url : string)
| MsgError (attempt retries : Z) (url : string) (e : exn)
| MsgSkipped (url : string)
| MsgErrorDownloading (url : string) (e : exn)
| MsgNoValid
| MsgFound (n : nat).

(** Observable effects, in the order they happen. *)
Inductive event : Type :=
| EvPrint (m : message)
| EvHttpGet (url : string) (timeout : Z)
| EvDownload (url : string) (outtmpl : string)
| EvRefresh (url : string) (n : pyval).

(** A tqdm bar: its [total], its position [n] and whether it was closed. *)
Record bar : Type := mkBar {
  bar_total : Z;
  bar_n : pyval;
  bar_closed : bool
}.

Record world : Type := mkWorld {
  dirs : gset string;                     (* directories that exist *)
  files : gmap string string;             (* regular files and their text *)
  progress_bars : option (gmap string bar); (* the global; None = unbound *)
  out : list event
}.

Definition set_dirs (d : gset string) (w : world) : world :=
  mkWorld d (files w) (progress_bars w) (out w).
Definition set_files (f : gmap string string) (w : world) : world :=
  mkWorld (dirs w) f (progress_bars w) (out w).
Definition set_bars (b : option (gmap string bar)) (w : world) : world :=
  mkWorld (dirs w) (files w) b (out w).
Definition emit (e : event) (w : world) : world :=
  mkWorld (dirs w) (files w) (progress_bars w) (out w ++ [e]).

(** ** The monad: state threaded through, exceptions keep the state *)

Definition M (A : Type) : Type := world -> result A * world.

Definition ret {A} (a : A) : M A := fun w => (Ok a, w).
Definition raise {A} (e : exn) : M A := fun w => (Raise e, w).
Definition bind {A B} (c : M A) (k : A -> M B) : M B :=
  fun w => match c w with
           | (Ok a, w') => k a w'
           | (Raise e, w') => (Raise e, w')
           end.

Notation "x <- c ;; k" := (bind c (fun x => k))
  (at level 100, c at next level, right associativity).
Notation "c ;; k" := (bind c (fun _ => k))
  (at level 100, right associativity).

(** [try: c  except Exception as e: h e] *)
Definition try_except {A} (c : M A) (h : exn -> M A) : M A :=
  fun w => match c w with
           | (Ok a, w') => (Ok a, w')
           | (Raise e, w') => h e w'
           end.

(** A loop body either falls through to the next iteration or executes a
    [return]. *)
Inductive ctl (A : Type) : Type :=
| Next
| Return (a : A).
Arguments Next {A}.
Arguments Return {A} a.

Fixpoint for_in {X A} (xs : list X) (body : X -> M (ctl A)) : M (ctl A) :=
  match xs with
  | [] => ret Next
  | x :: xs' =>
      r <- body x ;;
      match r with
      | Next => for_in xs' body
      | Return a => ret (Return a)
      end
  end.

(** [range(a, b)]: [k] consecutive integers from [a], with [k = b - a]. *)
Definition range_from (a : Z) (k : nat) : list Z :=
  map (fun i => (a + Z.of_nat i)%Z) (seq 0 k).
Definition py_range (a b : Z) : list Z := range_from a (Z.to_nat (b - a)).

(** ** Primitive effects *)

Definition print (m : message) : M unit :=
  fun w => (Ok tt, emit (EvPrint m) w).

(** ** Paths and the file system *)

(** The world keys directories and files by normalised relative or
    absolute path: components joined by single slashes, without empty
    or "." components.  The working directory is "." and always there.
    Symbolic links, ".." components, NUL bytes, the length limits of the
    file system and permissions are outside the model: [plain_path] below
    says which paths it answers for. *)
Fixpoint split_slash (s : string) : list string :=
  match s with
  | EmptyString => [EmptyString]
  | String c rest =>
      if Ascii.eqb c "/" then EmptyString :: split_slash rest
      else match split_slash rest with
           | x :: xs => String c x :: xs
           | [] => [String c EmptyString]
           end
  end.

Definition components (p : string) : list string :=
  List.filter (fun c => negb (c =? "") && negb (c =? ".")) (split_slash p).

Definition is_absolute (p : string) : bool :=
  match p with
  | String "/" _ => true
  | _ => false
  end.

Fixpoint join_slash (cs : list string) : string :=
  match cs with
  | [] => ""
  | [c] => c
  | c :: cs' => c +:+ "/" +:+ join_slash cs'
  end.

Definition path_key (abs : bool) (cs : list string) : string :=
  if abs then "/" +:+ join_slash cs
  else match cs with
       | [] => "."
       | _ => join_slash cs
       end.

Definition canon (p : string) : string :=
  path_key (is_absolute p) (components p).

(** The proper ancestors of a path, outermost first. *)
Definition parents (abs : bool) (cs : list string) : list string :=
  map (fun k => path_key abs (take k cs)) (seq 1 (length cs - 1)).

(** The path is written as a directory: it ends in a slash or in ".". *)
Definition dir_syntax (p : string) : bool :=
  match rev (split_slash p) with
  | c :: _ => (c =? "") || (c =? ".")
  | [] => false
  end.

(** The last component of the path is ".": to resolve it, what comes
    before must be a directory. *)
Definition dot_end (p : string) : bool :=
  match rev (List.filter (fun c => negb (c =? "")) (split_slash p)) with
  | c :: _ => c =? "."
  | [] => false
  end.

(** The directories the resolution of a path walks through before its
    last component. *)
Definition walked (p : string) : list string :=
  parents (is_absolute p) (components p) ++
  (if dot_end p then [canon p] else []).

(** The paths within the model: no ".." component, no NUL byte, no
    component longer than 255 bytes and fewer than 4096 bytes in all. *)
Definition plain_path (p : string) : bool :=
  forallb (fun c => negb (c =? "..") && (String.length c <=? 255)%nat)
          (split_slash p)
  && (String.length p <? 4096)%nat
  && negb (existsb (Ascii.eqb "000"%char) (list_ascii_of_string p)).

Definition is_dir (key : string) (w : world) : bool :=
  (key =? ".") || (key =? "/") || bool_decide (key ∈ dirs w).
Definition is_file (key : string) (w : world) : bool :=
  bool_decide (is_Some (files w !! key)).

(** A path is there when it names a directory or a file; the empty path
    names nothing. *)
Definition path_exists (p : string) (w : world) : bool :=
  negb (p =? "") &&
  (is_dir (canon p) w || (is_file (canon p) w && negb (dir_syntax p))).

(** [os.path.exists] *)
Definition os_path_exists (p : string) : M bool :=
  fun w => (Ok (path_exists p w), w).

(** [os.makedirs(p)] without [exist_ok]: creates the missing ancestors
    and then the directory itself.  It raises [FileNotFoundError] on the
    empty path, [FileExistsError] when the path is there already and
    [NotADirectoryError] when it has to walk through a regular file. *)
Definition os_makedirs (p : string) : M unit :=
  fun w =>
    if p =? "" then (Raise (FileNotFoundError p), w)
    else if existsb (fun a => is_file a w) (walked p)
    then (Raise (NotADirectoryError p), w)
    else if is_dir (canon p) w || is_file (canon p) w
    then (Raise (FileExistsError p), w)
    else (Ok tt,
          set_dirs ({[canon p]} ∪
                    (list_to_set (parents (is_absolute p) (components p)) ∪ dirs w))
                   w).

Definition file_text (w : world) (p : string) : string :=
  default "" (files w !! p).

(** [with open(p, 'a') as f: f.write(text)].  Opening raises when a
    directory on the way to the path is missing or when the path names a
    directory; else the file is created when it is not there, and the text
    goes to its end. *)
Definition append_file (p text : string) : M unit :=
  fun w =>
    if p =? "" then (Raise (FileNotFoundError p), w)
    else if existsb (fun a => is_file a w) (walked p)
    then (Raise (NotADirectoryError p), w)
    else if negb (forallb (fun a => is_dir a w) (walked p))
    then (Raise (FileNotFoundError p), w)
    else if is_dir (canon p) w || dir_syntax p
    then (Raise (IsADirectoryError p), w)
    else (Ok tt,
          set_files (<[canon p := file_text w (canon p) +:+ text]> (files w)) w).

(** [os.path.join] on a POSIX system, for two components. *)
Definition ends_with_slash (s : string) : bool :=
  match rev (list_ascii_of_string s) with
  | c :: _ => Ascii.eqb c "/"%char
  | [] => false
  end.
Definition os_path_join (a b : string) : string :=
  match b with
  | String "/" _ => b
  | _ => if (a =? "") || ends_with_slash a then a +:+ b else a +:+ "/" +:+ b
  end.

(** The file [name] inside the directory with key [d]. *)
Definition child (d name : string) : string :=
  if d =? "." then name
  else if d =? "/" then "/" +:+ name
  else d +:+ "/" +:+ name.

(** Creating or replacing the file [name] in directory [dir]. *)
Definition write_file (dir name content : string) : M unit :=
  fun w =>
    let d := canon dir in
    if is_file d w then (Raise (NotADirectoryError (child d name)), w)
    else if negb (is_dir d w) then (Raise (FileNotFoundError (child d name)), w)
    else if is_dir (child d name) w
    then (Raise (IsADirectoryError (child d name)), w)
    else (Ok tt, set_files (<[child d name := content]> (files w)) w).

(** ** The progress hook (lines 71-91) *)

Definition lift {A} (r : result A) : M A := fun w => (r, w).

(** [data[k]] *)
Definition dict_get (data : gmap string pyval) (k : string) : M pyval :=
  match data !! k with
  | Some v => ret v
  | None => raise (KeyError k)
  end.

(** [k in data] *)
Definition dict_has (data : gmap string pyval) (k : string) : bool :=
  bool_decide (is_Some (data !! k)).

(** Truth value of a Python object. *)
Definition truthy (v : pyval) : bool :=
  match v with
  | VNone => false
  | VStr s => negb (s =? "")
  | VNum q => negb (Qeq_bool q 0)
  end.

(** [v == s] for a string literal [s]. *)
Definition py_eq_str (v : pyval) (s : string) : bool :=
  match v with
  | VStr t => String.eqb t s
  | _ => false
  end.

(** Python floats are IEEE 754 doubles.  [float_round q] is the double
    nearest to the real number [q], ties going to the even mantissa: 53
    bits of mantissa, and multiples of 2^-1074 below the normal range.
    The upper end of the exponent range is not modelled: a quotient of
    byte counts stays far below 1.8e308. *)
Definition round_half_even (n d : Z) : Z :=
  let q := (n / d)%Z in
  match (2 * (n mod d) ?= d)%Z with
  | Lt => q
  | Gt => (q + 1)%Z
  | Eq => if Z.even q then q else (q + 1)%Z
  end.

(** The integer [e] with [2^e <= n/d < 2^(e+1)], for positive [n], [d]. *)
Definition binade (n d : Z) : Z :=
  let e := (Z.log2 n - Z.log2 d)%Z in
  if (if 0 <=? e then d * 2 ^ e <=? n else d <=? n * 2 ^ (- e))%Z
  then e else (e - 1)%Z.

Definition float_round (q : Q) : Q :=
  let n := Z.abs (Qnum q) in
  let d := Zpos (Qden q) in
  if (n =? 0)%Z then 0%Q
  else
    let s := Z.min (52 - binade n d) 1074 in
    let v := if (0 <=? s)%Z
             then Qmake (round_half_even (n * 2 ^ s) d) (Z.to_pos (2 ^ s))
             else inject_Z (round_half_even n (d * 2 ^ (- s)) * 2 ^ (- s)) in
    Qred (if (Qnum q <? 0)%Z then Qopp v else v).

(** [a / b]: true division, whose result is a float. *)
Definition py_truediv (a b : pyval) : M pyval :=
  match a, b with
  | VNum x, VNum y =>
      if Qeq_bool y 0 then raise ZeroDivisionError
      else ret (VNum (float_round (x / y)))
  | _, _ => raise TypeError
  end.

(** [a * b] with a float on the left, as in the hook. *)
Definition py_mul (a b : pyval) : M pyval :=
  match a, b with
  | VNum x, VNum y => ret (VNum (float_round (x * y)))
  | _, _ => raise TypeError
  end.

(** [progress_bars[url]] *)
Definition get_bar (url : string) : M bar :=
  fun w => match progress_bars w with
           | None => (Raise (NameError "progress_bars"), w)
           | Some bars =>
               match bars !! url with
               | Some b => (Ok b, w)
               | None => (Raise (KeyError url), w)
               end
           end.

(** [progress_bars[url].n = v] *)
Definition set_bar_n (url : string) (v : pyval) : M unit :=
  b <- get_bar url ;;
  fun w => (Ok tt,
            set_bars (insert url (mkBar (bar_total b) v (bar_closed b))
                      <$> progress_bars w) w).

(** [progress_bars[url].refresh()] *)
Definition bar_refresh (url : string) : M unit :=
  b <- get_bar url ;;
  fun w => (Ok tt, emit (EvRefresh url (bar_n b)) w).

Definition progress_hook (data : gmap string pyval) (url : string) : M unit :=
  status <- dict_get data "status" ;;
  if py_eq_str status "downloading" then
    sel <- (if dict_has data "total_bytes" then
              total <- dict_get data "total_bytes" ;;
              done <- dict_get data "downloaded_bytes" ;;
              ret (Some (total, done))
            else if dict_has data "total_bytes_estimate" then
              total <- dict_get data "total_bytes_estimate" ;;
              done <- dict_get data "downloaded_bytes" ;;
              ret (Some (total, done))
            else ret None) ;;
    match sel with
    | None => ret tt
    | Some (total, done) =>
        progress <- (if truthy total
                     then q <- py_truediv done total ;; py_mul q (VNum 100)
                     else ret (VNum 0)) ;;
        set_bar_n url progress ;;
        bar_refresh url
    end
  else ret tt.

(** ** The extractor and the retry loop (lines 93-129) *)

Definition newline : string := String "010"%char "".

Record ydl_opts_t : Type := mkOpts {
  opt_format : string;
  opt_outtmpl : string;
  opt_quiet : bool;
  opt_progress_hooks : list (gmap string pyval -> M unit);
  opt_noplaylist : bool
}.

(** How many times yt-dlp was already asked for [url]. *)
Definition attempts_of (url : string) (tr : list event) : nat :=
  length (List.filter (fun e => match e with
                           | EvDownload u _ => String.eqb u url
                           | _ => false
                           end) tr).

(** The source keeps no status field: a task has succeeded when it printed
    "Download complete" (line 115) and has failed when it printed
    "[SKIPPED] All retries failed" (line 129). *)
Definition succeeded (url : string) (tr : list event) : Prop :=
  In (EvPrint (MsgComplete url)) tr.
Definition failed (url : string) (tr : list event) : Prop :=
  In (EvPrint (MsgSkipped url)) tr.

(** What one call of [ydl.download] does that the script can see: it
    passes progress dictionaries to the hooks of its options and writes
    files into the directory of its output template, in some order, and
    then returns or raises. *)
Inductive ydl_step : Type :=
| Progress (data : gmap string pyval)
| WriteFile (name content : string).

Record ydl_run : Type := mkRun {
  run_steps : list ydl_step;
  run_result : result unit
}.

(** The directory part of an output template: everything up to its last
    slash. *)
Fixpoint has_slash (s : string) : bool :=
  match s with
  | EmptyString => false
  | String c rest => Ascii.eqb c "/" || has_slash rest
  end.
Fixpoint dir_prefix (s : string) : string :=
  match s with
  | EmptyString => EmptyString
  | String c rest => if has_slash s then String c (dir_prefix rest)
                     else EmptyString
  end.

(** yt-dlp replaces the slashes of a title, so a file it writes lies in
    the directory of the template itself. *)
Fixpoint sanitize (s : string) : string :=
  match s with
  | EmptyString => EmptyString
  | String c rest =>
      String (if Ascii.eqb c "/" then "_"%char else c) (sanitize rest)
  end.
Definition media_name (name : string) : string :=
  if sanitize name =? "" then "_" else sanitize name.

Fixpoint for_each {X} (xs : list X) (f : X -> M unit) : M unit :=
  match xs with
  | [] => ret tt
  | x :: xs' => f x ;; for_each xs' f
  end.

(** One step of a download.  An exception of a hook or of a write is not
    caught by yt-dlp's caller: it ends the download. *)
Definition run_step (opts : ydl_opts_t) (s : ydl_step) : M unit :=
  match s with
  | Progress data => for_each (opt_progress_hooks opts) (fun hook => hook data)
  | WriteFile name content =>
      write_file (dir_prefix (opt_outtmpl opts)) (media_name name) content
  end.

Section Extractor.

(** yt-dlp is opaque: [extractor url n] is what the n-th invocation
    (counted from 0) for [url] does. *)
Variable extractor : string -> nat -> ydl_run.

(** [with yt_dlp.YoutubeDL(opts) as ydl: ydl.download([url])] *)
Definition YoutubeDL_download (opts : ydl_opts_t) (url : string) : M unit :=
  fun w =>
    let r := extractor url (attempts_of url (out w)) in
    (for_each (run_steps r) (run_step opts) ;; lift (run_result r))
      (emit (EvDownload url (opt_outtmpl opts)) w).

(** Lines 100-109. *)
Definition make_ydl_opts (url output_dir : string) : ydl_opts_t :=
  {| opt_format := "best";
     opt_outtmpl := os_path_join output_dir "%(title).100B.%(ext)s";
     opt_quiet := true;
     opt_progress_hooks := [fun d => progress_hook d url];
     opt_noplaylist := false |}.

(** One iteration of the [for attempt in range(1, retries + 1)] loop. *)
Definition attempt_body (opts : ydl_opts_t) (url : string) (retries : Z)
    (attempt : Z) : M (ctl unit) :=
  try_except
    (YoutubeDL_download opts url ;;
     print (MsgComplete url) ;;
     ret (Return tt))
    (fun e =>
       print (MsgError attempt retries url e) ;;
       if (attempt =? retries)%Z
       then append_file FAILED_LOG (url +:+ newline) ;;
            print (MsgSkipped url) ;;
            ret Next
       else ret Next).

Definition retry_loop (opts : ydl_opts_t) (url : string) (retries : Z) : M unit :=
  for_in (py_range 1 (retries + 1)) (attempt_body opts url retries) ;;
  ret tt.

(** Lines 97-98. *)
Definition ensure_output_dir (output_dir : string) : M unit :=
  e <- os_path_exists output_dir ;;
  if negb e then os_makedirs output_dir else ret tt.

Definition download_video_with_progress (url output_dir : string)
    (retries : Z) : M unit :=
  ensure_output_dir output_dir ;;
  retry_loop (make_ydl_opts url output_dir) url retries.

End Extractor.

(** ** Link discovery (lines 19-69) *)

(** [needle in hay] for strings. *)
Fixpoint str_in (needle hay : string) : bool :=
  String.prefix needle hay ||
  match hay with
  | EmptyString => false
  | String _ rest => str_in needle rest
  end.

(** [any(d in s for d in VIDEO_DOMAINS)] *)
Definition any_video_domain (s : string) : bool :=
  existsb (fun d => str_in d s) VIDEO_DOMAINS.

Record response : Type := mkResponse {
  status_code : Z;
  text : string
}.

(** [response.raise_for_status()]: HTTPError on a 4xx or 5xx status. *)
Definition http_error (r : response) : bool :=
  ((400 <=? status_code r) && (status_code r <? 600))%Z.
Definition raise_for_status (r : response) : M unit :=
  if http_error r then raise (RequestException "HTTPError") else ret tt.

Record tag : Type := mkTag {
  tag_name : string;
  tag_attrs : gmap string string
}.

(** [tag.get(k)] *)
Definition tag_get (t : tag) (k : string) : option string := tag_attrs t !! k.

(** Truth value of [tag.get(k)]: neither [None] nor the empty string. *)
Definition str_truthy (o : option string) : bool :=
  match o with
  | Some s => negb (s =? "")
  | None => false
  end.

(** The values [v = tag.get(k)] of the tags for which [v and keep v]. *)
Definition attr_values (k : string) (keep : string -> bool) (tags : list tag)
    : list string :=
  omap (fun t => match tag_get t k with
                 | Some v => if str_truthy (Some v) && keep v then Some v else None
                 | None => None
                 end) tags.

(** [list({u for u in l if u})]: the order of the result is that of the
    set, as in Python. *)
Definition dedup_nonempty (l : list string) : list string :=
  elements (list_to_set (List.filter (fun u => negb (u =? "")) l) : gset string).

Section Web.

(** urllib, requests and BeautifulSoup are opaque; each call returns or
    raises. *)
Variable urlparse_netloc : string -> result string.
Variable requests_get : string -> Z -> result response.
Variable soup : Type.
Variable BeautifulSoup : string -> string -> result soup.
Variable find_all : soup -> string -> result (list tag).

Definition http_get (url : string) (timeout : Z) : M response :=
  fun w => (requests_get url timeout, emit (EvHttpGet url timeout) w).

(** The body of the [try] block, lines 35-65. *)
Definition scan_page (url : string) : M (list string) :=
  let video_urls := [] in
  response <- http_get url TIMEOUT ;;
  raise_for_status response ;;
  soup <- lift (BeautifulSoup (text response) "html.parser") ;;
  video_tags <- lift (find_all soup "video") ;;
  let video_urls := video_urls ++ attr_values "src" (fun _ => true) video_tags in
  iframe_tags <- lift (find_all soup "iframe") ;;
  let video_urls := video_urls ++ attr_values "src" any_video_domain iframe_tags in
  a_tags <- lift (find_all soup "a") ;;
  let video_urls := video_urls ++ attr_values "href" any_video_domain a_tags in
  let video_urls := dedup_nonempty video_urls in
  match video_urls with
  | [] => print MsgNoLinks ;; ret [url]
  | _ => ret video_urls
  end.

Definition extract_video_urls (url : string) : M (list string) :=
  domain <- lift (urlparse_netloc url) ;;
  if any_video_domain domain then
    print (MsgDetected domain) ;;
    ret [url]
  else
    print MsgScanning ;;
    try_except (scan_page url)
               (fun e => print (MsgExtractFailed e) ;; ret []).

(** The page fetch or parse raises [e]: the calls of the [try] block in
    their order, up to the first one that raises. *)
Inductive scan_raises (url : string) (e : exn) : Prop :=
| get_raises :
    requests_get url TIMEOUT = Raise e -> scan_raises url e
| status_raises r :
    requests_get url TIMEOUT = Ok r -> http_error r = true ->
    e = RequestException "HTTPError" -> scan_raises url e
| parser_raises r :
    requests_get url TIMEOUT = Ok r -> http_error r = false ->
    BeautifulSoup (text r) "html.parser" = Raise e -> scan_raises url e
| video_query_raises r sp :
    requests_get url TIMEOUT = Ok r -> http_error r = false ->
    BeautifulSoup (text r) "html.parser" = Ok sp ->
    find_all sp "video" = Raise e -> scan_raises url e
| iframe_query_raises r sp videos :
    requests_get url TIMEOUT = Ok r -> http_error r = false ->
    BeautifulSoup (text r) "html.parser" = Ok sp ->
    find_all sp "video" = Ok videos ->
    find_all sp "iframe" = Raise e -> scan_raises url e
| a_query_raises r sp videos iframes :
    requests_get url TIMEOUT = Ok r -> http_error r = false ->
    BeautifulSoup (text r) "html.parser" = Ok sp ->
    find_all sp "video" = Ok videos ->
    find_all sp "iframe" = Ok iframes ->
    find_all sp "a" = Raise e -> scan_raises url e.

End Web.

(** ** The thread pool (lines 133-166) *)

(** [download_videos_in_parallel] runs [download_video_with_progress(url)]
    for every URL on a [ThreadPoolExecutor] and counts the futures that
    [as_completed] yields.  The threads share the world, so the run is a
    sequence of atomic steps chosen by a schedule.  A worker has one step
    for the [os.path.exists] test, one for [os.makedirs] and one for its
    retry loop; the main thread has one step per future it collects.  The
    retry loop is a single step: how two loops interleave changes the
    order of their lines in the trace and of their entries in the failure
    log, and nothing that is stated below. *)

Inductive pc : Type :=
| Queued
| AtExists
| AtMakedirs
| AtLoop
| Finished (r : result unit).

Record task : Type := mkTask {
  t_url : string;
  t_pc : pc;
  t_yielded : bool        (* as_completed has handed this future out *)
}.

Inductive main_pc : Type :=
| MainLoop
| MainAborted (e : exn)
| MainClosed.

Record pool : Type := mkPool {
  p_world : world;
  p_tasks : list task;     (* the futures, in submission order *)
  p_total : Z;             (* overall.total *)
  p_n : Z;                 (* overall.n *)
  p_main : main_pc
}.

Inductive action : Type :=
| Work (i : nat)
| Collect (i : nat)
| Close.

Definition running (t : task) : bool :=
  match t_pc t with
  | AtExists | AtMakedirs | AtLoop => true
  | _ => false
  end.

Definition started (t : task) : bool :=
  match t_pc t with
  | Queued => false
  | _ => true
  end.

Definition finished (t : task) : bool :=
  match t_pc t with
  | Finished _ => true
  | _ => false
  end.

(** The executor takes work in submission order and keeps at most
    [MAX_WORKERS] calls in flight. *)
Definition can_start (i : nat) (ts : list task) : bool :=
  forallb started (take i ts) &&
  (length (List.filter running ts) <? MAX_WORKERS)%nat.

Definition set_pc (i : nat) (c : pc) (p : pool) : pool :=
  match p_tasks p !! i with
  | Some t =>
      mkPool (p_world p) (<[i := mkTask (t_url t) c (t_yielded t)]> (p_tasks p))
             (p_total p) (p_n p) (p_main p)
  | None => p
  end.

Definition set_world (w : world) (p : pool) : pool :=
  mkPool w (p_tasks p) (p_total p) (p_n p) (p_main p).

Definition close_bar (b : bar) : bar := mkBar (bar_total b) (bar_n b) true.

Section Pool.

Variable extractor : string -> nat -> ydl_run.

(** One step of the worker that runs future [i]. *)
Definition work_step (i : nat) (p : pool) : pool :=
  match p_tasks p !! i with
  | None => p
  | Some t =>
      match t_pc t with
      | Queued => if can_start i (p_tasks p) then set_pc i AtExists p else p
      | AtExists =>
          match os_path_exists OUTPUT_DIR (p_world p) with
          | (Ok e, w') =>
              set_pc i (if negb e then AtMakedirs else AtLoop) (set_world w' p)
          | (Raise x, w') => set_pc i (Finished (Raise x)) (set_world w' p)
          end
      | AtMakedirs =>
          match os_makedirs OUTPUT_DIR (p_world p) with
          | (Ok _, w') => set_pc i AtLoop (set_world w' p)
          | (Raise x, w') => set_pc i (Finished (Raise x)) (set_world w' p)
          end
      | AtLoop =>
          match retry_loop extractor (make_ydl_opts (t_url t) OUTPUT_DIR)
                           (t_url t) MAX_RETRIES (p_world p) with
          | (r, w') => set_pc i (Finished r) (set_world w' p)
          end
      | Finished _ => p
      end
  end.

(** One iteration of [for future in as_completed(futures)] for future
    [i]: [try: future.result() except Exception as e: print(...)], then
    [overall.update(1)]. *)
Definition collect_step (i : nat) (p : pool) : pool :=
  match p_main p, p_tasks p !! i with
  | MainLoop, Some t =>
      match t_pc t, t_yielded t with
      | Finished r, false =>
          match try_except (lift r)
                  (fun e => print (MsgErrorDownloading (t_url t) e))
                  (p_world p) with
          | (Ok _, w') =>
              mkPool w' (<[i := mkTask (t_url t) (t_pc t) true]> (p_tasks p))
                     (p_total p) (p_n p + 1) MainLoop
          | (Raise e, w') =>
              mkPool w' (p_tasks p) (p_total p) (p_n p) (MainAborted e)
          end
      | _, _ => p
      end
  | _, _ => p
  end.

(** Leaving the loop once every future was yielded: [overall.close()]
    and the [close()] of every bar. *)
Definition close_step (p : pool) : pool :=
  match p_main p with
  | MainLoop =>
      if forallb t_yielded (p_tasks p)
      then mkPool (set_bars ((fun bars : gmap string bar => close_bar <$> bars)
                              <$> progress_bars (p_world p))
                            (p_world p))
                  (p_tasks p) (p_total p) (p_n p) MainClosed
      else p
  | _ => p
  end.

Definition step (p : pool) (a : action) : pool :=
  match a with
  | Work i => work_step i p
  | Collect i => collect_step i p
  | Close => close_step p
  end.

(** Lines 137-149: the bars, the overall bar and the submitted futures. *)
Definition init_pool (video_urls : list string) (w : world) : pool :=
  let bars := fold_left (fun m url => <[url := mkBar 100 (VNum 0) false]> m)
                        video_urls (∅ : gmap string bar) in
  mkPool (set_bars (Some bars) w)
         (map (fun url => mkTask url Queued false) video_urls)
         (Z.of_nat (length video_urls)) 0 MainLoop.

Definition download_videos_in_parallel (video_urls : list string)
    (schedule : list action) (w : world) : pool :=
  fold_left step schedule (init_pool video_urls w).

(** A schedule that runs the futures one after the other, collects them
    in order and leaves the loop. *)
Definition sequential_schedule (n : nat) : list action :=
  flat_map (fun i => [Work i; Work i; Work i; Work i]) (seq 0 n)
  ++ map Collect (seq 0 n) ++ [Close].

End Pool.
(** ** The entry point (lines 168-184) *)

(** How a call of [main] stands: it raised, it returned at line 179 with
    nothing to download, or it is inside [download_videos_in_parallel]. *)
Inductive main_outcome : Type :=
| MainRaised (e : exn) (w : world)
| MainNothing (w : world)
| MainPool (p : pool).

Section Main.

Variable urlparse_netloc : string -> result string.
Variable requests_get : string -> Z -> result response.
Variable soup : Type.
Variable BeautifulSoup : string -> string -> result soup.
Variable find_all : soup -> string -> result (list tag).
Variable extractor : string -> nat -> ydl_run.

(** The builtin [input(prompt)]: a line typed by the user, or an
    exception; the builtin writes its prompt itself. *)
Variable input : string -> result string.

(** Lines 169-173: [sys.argv[1]] when there is one, else a prompt. *)
Definition read_url (argv : list string) : M string :=
  match argv with
  | _ :: url :: _ => ret url
  | _ => lift (input "Enter the URL (video, playlist, or webpage): ")
  end.

Definition main (argv : list string) (schedule : list action) (w : world)
    : main_outcome :=
  match (url <- read_url argv ;;
         extract_video_urls urlparse_netloc requests_get soup BeautifulSoup
                            find_all url) w with
  | (Raise e, w1) => MainRaised e w1
  | (Ok [], w1) => MainNothing (emit (EvPrint MsgNoValid) w1)
  | (Ok video_urls, w1) =>
      MainPool (download_videos_in_parallel extractor video_urls schedule
                  (emit (EvPrint (MsgFound (length video_urls))) w1))
  end.

End Main.

(** ** Vocabulary of the statements *)

(** The world after the hook stored [v] in the bar of [url] and redrew it. *)
Definition with_progress (url : string) (v : pyval) (bars : gmap string bar)
    (b : bar) (w : world) : world :=
  mkWorld (dirs w) (files w)
          (Some (<[url := mkBar (bar_total b) v (bar_closed b)]> bars))
          (out w ++ [EvRefresh url v]).

(** The total the hook divides by: [total_bytes] when the key is there,
    else [total_bytes_estimate]. *)
Definition selected_total (data : gmap string pyval) : option pyval :=
  if dict_has data "total_bytes" then data !! "total_bytes"
  else data !! "total_bytes_estimate".

(** The float the expression [(done / total) * 100] of line 88 evaluates
    to. *)
Definition percentage (dn total : Q) : Q :=
  float_round (float_round (dn / total) * 100).

(** A computation that never raises [ZeroDivisionError]. *)
Definition no_zero_division {A} (c : M A) : Prop :=
  forall w, fst (c w) ≠ Raise ZeroDivisionError.

(** How many downloads were started, for whatever URL. *)
Definition downloads (tr : list event) : nat :=
  length (List.filter (fun e => match e with
                                | EvDownload _ _ => true
                                | _ => false
                                end) tr).

(** How many pages were fetched. *)
Definition http_fetches (tr : list event) : nat :=
  length (List.filter (fun e => match e with
                                | EvHttpGet _ _ => true
                                | _ => false
                                end) tr).

(** The error lines of [url] in a trace: the pairs [attempt, retries]
    printed at line 119. *)
Definition error_lines (url : string) (tr : list event) : list (Z * Z) :=
  omap (fun e => match e with
                 | EvPrint (MsgError a r u _) =>
                     if String.eqb u url then Some (a, r) else None
                 | _ => None
                 end) tr.


(** The world after lines 97-98 for the default directory when no other
    thread interferes. *)
Definition with_output_dir (w : world) : world :=
  if path_exists OUTPUT_DIR w then w
  else set_dirs ({[OUTPUT_DIR]} ∪ dirs w) w.

(** The bar of [url], when the global is bound and has one. *)
Definition bar_of (url : string) (w : world) : option bar :=
  match progress_bars w with
  | Some bars => bars !! url
  | None => None
  end.

(** The bars after a task for [url] ran: the global is bound as before,
    with the same keys; only the position of the bar of [url] may differ. *)
Definition bars_kept (url : string) (w w' : world) : Prop :=
  match progress_bars w, progress_bars w' with
  | None, None => True
  | Some bars, Some bars' =>
      forall u, (u <> url -> bars' !! u = bars !! u) /\
                bar_total <$> bars' !! u = bar_total <$> bars !! u /\
                bar_closed <$> bars' !! u = bar_closed <$> bars !! u
  | _, _ => False
  end.

(** The files a download into the output directory may write. *)
Definition in_output_dir (q : string) : Prop :=
  exists name, q = child OUTPUT_DIR name.

(** What a task for [url] with the default output directory may change
    besides creating that directory: files inside it, the end of the
    failure log, the position of its own bar, the end of the trace. *)
Record task_frame (url : string) (w w' : world) : Prop := mkTaskFrame {
  tf_files : forall q, q <> FAILED_LOG -> ¬ in_output_dir q ->
             files w' !! q = files w !! q;
  tf_log : exists suffix,
      file_text w' FAILED_LOG = file_text w FAILED_LOG +:+ suffix;
  tf_bars : bars_kept url w w';
  tf_out : exists tr, out w' = out w ++ tr
}.

(** What a whole run may change. *)
Record pool_frame (w w' : world) : Prop := mkPoolFrame {
  pf_dirs : dirs w' = dirs w \/ dirs w' = {[OUTPUT_DIR]} ∪ dirs w;
  pf_files : forall q, q <> FAILED_LOG -> ¬ in_output_dir q ->
             files w' !! q = files w !! q;
  pf_log : exists suffix,
      file_text w' FAILED_LOG = file_text w FAILED_LOG +:+ suffix;
  pf_out : exists tr, out w' = out w ++ tr
}.

(** A redraw of the bar of [url]. *)
Definition is_redraw (url : string) (e : event) : Prop :=
  exists v, e = EvRefresh url v.

(** What one call of [ydl.download] for [url] with the default output
    directory may change: files inside that directory and the position of
    the bar of [url], which it redraws. *)
Record download_frame (url : string) (w w' : world) : Prop := mkDownloadFrame {
  df_out : exists tr, out w' = out w ++ tr /\ Forall (is_redraw url) tr;
  df_dirs : dirs w' = dirs w;
  df_files : forall q, ¬ in_output_dir q -> files w' !! q = files w !! q;
  df_bars : bars_kept url w w'
}.

(** The events a task for [url] adds to the trace. *)
Definition task_event (url : string) (e : event) : Prop :=
  match e with
  | EvDownload u o =>
      u = url /\ o = os_path_join OUTPUT_DIR "%(title).100B.%(ext)s"
  | EvPrint _ => True
  | EvRefresh u _ => u = url
  | EvHttpGet _ _ => False
  end.

(** The events a run for [video_urls] may add to the trace: downloads of
    submitted URLs into the output directory, prints and redraws of bars,
    but no page request. *)
Definition pool_event (video_urls : list string) (e : event) : Prop :=
  match e with
  | EvDownload u o =>
      u ∈ video_urls /\ o = os_path_join OUTPUT_DIR "%(title).100B.%(ext)s"
  | EvPrint _ => True
  | EvRefresh _ _ => True
  | EvHttpGet _ _ => False
  end.

(** [w'] continues the trace of [w] with events that satisfy [Q]. *)
Definition extends_with (Q : event -> Prop) (w w' : world) : Prop :=
  exists tr, out w' = out w ++ tr /\ Forall Q tr.

(** The error lines [1/retries], ..., [n/retries]. *)
Definition numbered (retries : Z) (n : nat) : list (Z * Z) :=
  map (fun i => (Z.of_nat (S i), retries)) (seq 0 n).

Section TaskEnd.

Variable extractor : string -> nat -> ydl_run.

(** How a task for [url] that may make at least one attempt ends, from
    world [w] to world [w'] with the events [tr]: an attempt returned and
    the function with it; every attempt failed and the URL was logged; or
    every attempt failed and [failed.txt], being a directory, could not be
    opened. *)
Inductive task_end (url : string) (retries : Z) (w w' : world)
    (tr : list event) : result unit -> Prop :=
| task_returned j tr0 :
    j < Z.to_nat retries ->
    tr = tr0 ++ [EvPrint (MsgComplete url)] ->
    attempts_of url tr0 = S j ->
    ¬ succeeded url tr0 -> ¬ failed url tr0 ->
    error_lines url tr0 = numbered retries j ->
    files w' !! FAILED_LOG = files w !! FAILED_LOG ->
    run_result (extractor url (attempts_of url (out w) + j)) = Ok tt ->
    task_end url retries w w' tr (Ok tt)
| task_logged :
    FAILED_LOG ∉ dirs w ->
    attempts_of url tr = Z.to_nat retries ->
    ¬ succeeded url tr -> failed url tr ->
    error_lines url tr = numbered retries (Z.to_nat retries) ->
    files w' !! FAILED_LOG = Some (file_text w FAILED_LOG +:+ url +:+ newline) ->
    task_end url retries w w' tr (Ok tt)
| task_unlogged :
    FAILED_LOG ∈ dirs w ->
    attempts_of url tr = Z.to_nat retries ->
    ¬ succeeded url tr -> ¬ failed url tr ->
    error_lines url tr = numbered retries (Z.to_nat retries) ->
    files w' !! FAILED_LOG = files w !! FAILED_LOG ->
    task_end url retries w w' tr (Raise (IsADirectoryError FAILED_LOG)).

End TaskEnd.

(** The results a future of the pool can have: the task returned, it lost
    the race for the output directory, or it could not open the failure
    log. *)
Definition future_result (r : result unit) : Prop :=
  r = Ok tt \/ r = Raise (FileExistsError OUTPUT_DIR) \/
  r = Raise (IsADirectoryError FAILED_LOG).

(** A future that is done is accounted for: its task returned after the
    success line or the skip line for its URL was printed, or it raised one
    of the two exceptions a task can raise. *)
Definition settled (tr : list event) (t : task) : Prop :=
  forall r, t_pc t = Finished r ->
    (r = Ok tt /\ (succeeded (t_url t) tr \/ failed (t_url t) tr)) \/
    r = Raise (FileExistsError OUTPUT_DIR) \/
    r = Raise (IsADirectoryError FAILED_LOG).

(** What holds of the pool in every state a schedule can reach. *)
Record pool_inv (p : pool) : Prop := mkPoolInv {
  inv_total : p_total p = Z.of_nat (length (p_tasks p));
  inv_count : p_n p = Z.of_nat (length (List.filter t_yielded (p_tasks p)));
  inv_yielded : Forall (fun t => t_yielded t = true -> finished t = true) (p_tasks p);
  inv_not_aborted : forall e, p_main p <> MainAborted e;
  inv_closed : p_main p = MainClosed ->
               Forall (fun t => t_yielded t = true) (p_tasks p);
  inv_fifo : forall i j ti tj, i < j ->
             p_tasks p !! i = Some ti -> p_tasks p !! j = Some tj ->
             started tj = true -> started ti = true
}.

(** How many steps a worker still has to take, at most. *)
Definition remaining (c : pc) : nat :=
  match c with
  | Queued => 4
  | AtExists => 3
  | AtMakedirs => 2
  | AtLoop => 1
  | Finished _ => 0
  end.

(** The edges of a worker's control flow. *)
Inductive work_edge (ts : list task) (i : nat) : pc -> pc -> Prop :=
| edge_start : can_start i ts = true -> work_edge ts i Queued AtExists
| edge_missing : work_edge ts i AtExists AtMakedirs
| edge_present : work_edge ts i AtExists AtLoop
| edge_created : work_edge ts i AtMakedirs AtLoop
| edge_collision x : work_edge ts i AtMakedirs (Finished (Raise x))
| edge_done r : work_edge ts i AtLoop (Finished r).

(** The pool with future [i] replaced and a new world. *)
Definition with_task (i : nat) (t : task) (w : world) (p : pool) : pool :=
  mkPool w (<[i := t]> (p_tasks p)) (p_total p) (p_n p) (p_main p).

(** The world after the main thread looked at the result of a future. *)
Definition collect_world (url : string) (r : result unit) (w : world) : world :=
  match r with
  | Ok _ => w
  | Raise e => emit (EvPrint (MsgErrorDownloading url e)) w
  end.

Definition close_bars (w : world) : world :=
  set_bars ((fun bars : gmap string bar => close_bar <$> bars)
              <$> progress_bars w) w.

Section StepKinds.

Variable extractor : string -> nat -> ydl_run.

(** The retry loop a worker of the pool runs for [url]. *)
Definition pool_loop (url : string) : M unit :=
  retry_loop extractor (make_ydl_opts url OUTPUT_DIR) url MAX_RETRIES.

(** Every step of the pool is of one of these kinds. *)
Inductive step_kind (p : pool) : action -> pool -> Prop :=
| sk_idle a : step_kind p a p
| sk_start i t :
    p_tasks p !! i = Some t -> t_pc t = Queued ->
    can_start i (p_tasks p) = true ->
    step_kind p (Work i)
      (with_task i (mkTask (t_url t) AtExists (t_yielded t)) (p_world p) p)
| sk_check i t :
    p_tasks p !! i = Some t -> t_pc t = AtExists ->
    step_kind p (Work i)
      (with_task i
         (mkTask (t_url t)
            (if path_exists OUTPUT_DIR (p_world p) then AtLoop else AtMakedirs)
            (t_yielded t))
         (p_world p) p)
| sk_create i t :
    p_tasks p !! i = Some t -> t_pc t = AtMakedirs ->
    path_exists OUTPUT_DIR (p_world p) = false ->
    step_kind p (Work i)
      (with_task i (mkTask (t_url t) AtLoop (t_yielded t))
         (set_dirs ({[OUTPUT_DIR]} ∪ dirs (p_world p)) (p_world p)) p)
| sk_collide i t :
    p_tasks p !! i = Some t -> t_pc t = AtMakedirs ->
    path_exists OUTPUT_DIR (p_world p) = true ->
    step_kind p (Work i)
      (with_task i
         (mkTask (t_url t) (Finished (Raise (FileExistsError OUTPUT_DIR)))
                 (t_yielded t))
         (p_world p) p)
| sk_loop i t :
    p_tasks p !! i = Some t -> t_pc t = AtLoop ->
    step_kind p (Work i)
      (with_task i
         (mkTask (t_url t) (Finished (fst (pool_loop (t_url t) (p_world p))))
                 (t_yielded t))
         (snd (pool_loop (t_url t) (p_world p))) p)
| sk_collect i t r :
    p_main p = MainLoop ->
    p_tasks p !! i = Some t -> t_pc t = Finished r -> t_yielded t = false ->
    step_kind p (Collect i)
      (mkPool (collect_world (t_url t) r (p_world p))
              (<[i := mkTask (t_url t) (Finished r) true]> (p_tasks p))
              (p_total p) (p_n p + 1) MainLoop)
| sk_close :
    p_main p = MainLoop -> forallb t_yielded (p_tasks p) = true ->
    step_kind p Close
      (mkPool (close_bars (p_world p)) (p_tasks p) (p_total p) (p_n p)
              MainClosed).

End StepKinds.

(** ** Sample inputs *)

(** Progress events and a world with one bar. *)
Definition sample_bar : bar := mkBar 100 (VNum 0) false.
Definition sample_bars : gmap string bar := {["v" := sample_bar]}.
Definition sample_world : world := mkWorld ∅ ∅ (Some sample_bars) [].
Definition quarter_event : gmap string pyval :=
  <["status" := VStr "downloading"]>
    (<["total_bytes" := VNum 200]> {["downloaded_bytes" := VNum 50]}).
Definition empty_file_event : gmap string pyval :=
  <["status" := VStr "downloading"]>
    (<["total_bytes" := VNum 0]> {["downloaded_bytes" := VNum 0]}).

(** More progress events: a finished download, an event without status,
    one without byte count, one whose total is [None] beside an estimate,
    one with 7 bytes of 100, one with an estimate only. *)
Definition finished_event : gmap string pyval :=
  {["status" := VStr "finished"]}.
Definition no_status_event : gmap string pyval :=
  {["downloaded_bytes" := VNum 1]}.
Definition no_count_event : gmap string pyval :=
  <["status" := VStr "downloading"]> {["total_bytes" := VNum 200]}.
Definition none_total_event : gmap string pyval :=
  <["status" := VStr "downloading"]>
    (<["total_bytes" := VNone]>
       (<["total_bytes_estimate" := VNum 1000]>
          {["downloaded_bytes" := VNum 500]})).
Definition seven_percent_event : gmap string pyval :=
  <["status" := VStr "downloading"]>
    (<["total_bytes" := VNum 100]> {["downloaded_bytes" := VNum 7]}).
Definition estimate_event : gmap string pyval :=
  <["status" := VStr "downloading"]>
    (<["total_bytes_estimate" := VNum 300]> {["downloaded_bytes" := VNum 100]}).

(** Extractors: one that never works, one that works at the third call,
    one that always works at once, and one that reports progress, writes
    its file and returns. *)
Definition unreachable_site : string -> nat -> ydl_run :=
  fun _ _ => mkRun [] (Raise (DownloadError "unavailable")).
Definition third_time_lucky : string -> nat -> ydl_run :=
  fun _ n => if (n <? 2)%nat then mkRun [] (Raise (DownloadError "timed out"))
             else mkRun [] (Ok tt).
Definition always_ok : string -> nat -> ydl_run := fun _ _ => mkRun [] (Ok tt).
Definition streaming_site : string -> nat -> ydl_run :=
  fun _ _ => mkRun [Progress quarter_event;
                    WriteFile "clip.mp4" "...";
                    Progress finished_event] (Ok tt).
(** A site whose first answer is cut off after a partial file. *)
Definition flaky_site : string -> nat -> ydl_run :=
  fun _ n => if (n <? 1)%nat
             then mkRun [WriteFile "clip.mp4.part" ".."]
                        (Raise (DownloadError "connection reset"))
             else mkRun [WriteFile "clip.mp4" "..."] (Ok tt).

(** A world with no directory, no file and nothing printed; one in which
    the output directory is there already; one in which [failed.txt] is a
    directory; one in which [downloads] is a regular file. *)
Definition fresh_world : world := mkWorld ∅ ∅ None [].
Definition prepared_world : world := mkWorld {[OUTPUT_DIR]} ∅ None [].
Definition log_is_directory : world := mkWorld {[FAILED_LOG]} ∅ None [].
Definition downloads_is_file : world :=
  mkWorld ∅ {[OUTPUT_DIR := "not a directory"]} None [].

(** The host part of an absolute URL: what follows the first "//" up to
    the next '/', '?' or '#'. *)
Fixpoint after_slashes (s : string) : option string :=
  match s with
  | String "/" (String "/" rest) => Some rest
  | String _ rest => after_slashes rest
  | EmptyString => None
  end.
Fixpoint until_delim (s : string) : string :=
  match s with
  | EmptyString => EmptyString
  | String c rest =>
      if Ascii.eqb c "/" || Ascii.eqb c "?" || Ascii.eqb c "#"
      then EmptyString else String c (until_delim rest)
  end.
Definition sample_netloc (url : string) : result string :=
  match after_slashes url with
  | Some rest => Ok (until_delim rest)
  | None => Ok EmptyString
  end.

(** A parsed page is the list of its tags; [find_all] selects by name. *)
Definition sample_find_all (sp : list tag) (name : string)
    : result (list tag) :=
  Ok (List.filter (fun t => String.eqb (tag_name t) name) sp).

(** A site that answers every request with the same page. *)
Definition plain_page : list tag :=
  [mkTag "p" ∅;
   mkTag "video" ∅;
   mkTag "iframe" {["src" := "https://maps.example.com/embed"]};
   mkTag "a" {["href" := "https://example.com/about"]}].
Definition serve_200 : string -> Z -> result response :=
  fun _ _ => Ok (mkResponse 200 "<html>...</html>").
Definition parse_plain_page : string -> string -> result (list tag) :=
  fun _ _ => Ok plain_page.

(** A page with a video whose anchors cannot be queried. *)
Definition video_page : list tag := [mkTag "video" {["src" := "clip.mp4"]}].
Definition parse_video_page : string -> string -> result (list tag) :=
  fun _ _ => Ok video_page.
Definition broken_find_all (sp : list tag) (name : string)
    : result (list tag) :=
  if String.eqb name "a" then Raise (ParserError "broken tree")
  else sample_find_all sp name.

(** Two workers that both test for the directory before either creates
    it, followed by the rest of the run. *)
Definition race_schedule : list action :=
  [Work 0; Work 1; Work 0; Work 1; Work 0; Work 1].

(** A user who types a URL at the prompt. *)
Definition typed_line : string -> result string :=
  fun _ => Ok "https://example.com/watch".

(** A user whose standard input is closed: [input] raises [ValueError]. *)
Definition closed_stdin : string -> result string :=
  fun _ => Raise (ValueError "I/O operation on closed file").

(** A site that cannot be reached. *)
Definition refuse_connection : string -> Z -> result response :=
  fun _ _ => Raise (RequestException "connection refused").

(** The future of "b" after the race, once collected. *)
Definition collided_task : task :=
  mkTask "b" (Finished (Raise (FileExistsError OUTPUT_DIR))) true.

(** * Properties *)

(** ** Basic facts about traces and ranges *)

Lemma attempts_of_app url tr1 tr2 :
  attempts_of url (tr1 ++ tr2) = attempts_of url tr1 + attempts_of url tr2.
Proof. unfold attempts_of. by rewrite List.filter_app, length_app. Qed.

Lemma attempts_of_cons_download url t tr :
  attempts_of url (EvDownload url t :: tr) = S (attempts_of url tr).
Proof. unfold attempts_of. simpl. by rewrite String.eqb_refl. Qed.

Lemma attempts_of_cons_print url m tr :
  attempts_of url (EvPrint m :: tr) = attempts_of url tr.
Proof. reflexivity. Qed.

Lemma range_from_S a k : range_from a (S k) = a :: range_from (a + 1) k.
Proof.
  unfold range_from. simpl. f_equal; [f_equal; lia |].
  rewrite <- seq_shift, map_map. apply map_ext. intros i. lia.
Qed.

Lemma py_range_empty a b : (b <= a)%Z -> py_range a b = [].
Proof.
  intros H. unfold py_range. by replace (Z.to_nat (b - a)) with 0 by lia.
Qed.

Lemma attempts_of_cons_refresh url u v tr :
  attempts_of url (EvRefresh u v :: tr) = attempts_of url tr.
Proof. reflexivity. Qed.

Lemma redraws_attempts url u tr :
  Forall (is_redraw u) tr -> attempts_of url tr = 0.
Proof.
  induction 1 as [|e tr [v ->] _ IH]; [done |].
  by rewrite attempts_of_cons_refresh.
Qed.

Lemma redraws_no_print u m tr :
  Forall (is_redraw u) tr -> ¬ In (EvPrint m) tr.
Proof.
  induction 1 as [|e tr [v ->] _ IH]; [by intros [] |].
  intros [H | H]; [discriminate | by apply IH].
Qed.

Lemma error_lines_app url tr1 tr2 :
  error_lines url (tr1 ++ tr2) = error_lines url tr1 ++ error_lines url tr2.
Proof. unfold error_lines. apply omap_app. Qed.

Lemma redraws_error_lines url u tr :
  Forall (is_redraw u) tr -> error_lines url tr = [].
Proof. induction 1 as [|e tr [v ->] _ IH]; [done | exact IH]. Qed.

Lemma redraws_task_events url tr :
  Forall (is_redraw url) tr -> Forall (task_event url) tr.
Proof. intros H. eapply Forall_impl; [exact H |]. by intros e [v ->]. Qed.

Lemma string_app_nil_r (s : string) : s +:+ "" = s.
Proof.
  induction s as [|c s IH]; [done |].
  change (String c (s +:+ "") = String c s). by rewrite IH.
Qed.

Lemma string_app_assoc (s1 s2 s3 : string) :
  (s1 +:+ s2) +:+ s3 = s1 +:+ (s2 +:+ s3).
Proof.
  induction s1 as [|c s1 IH]; [done |].
  change (String c ((s1 +:+ s2) +:+ s3) = String c (s1 +:+ (s2 +:+ s3))).
  by rewrite IH.
Qed.

(** ** The paths the script uses *)

Lemma path_exists_output_dir w :
  path_exists OUTPUT_DIR w =
  bool_decide (OUTPUT_DIR ∈ dirs w) || bool_decide (is_Some (files w !! OUTPUT_DIR)).
Proof.
  unfold path_exists, is_dir, is_file.
  change (canon OUTPUT_DIR) with OUTPUT_DIR.
  change (dir_syntax OUTPUT_DIR) with false.
  change (OUTPUT_DIR =? "") with false.
  change (OUTPUT_DIR =? ".") with false.
  change (OUTPUT_DIR =? "/") with false.
  cbn [negb andb orb]. by rewrite andb_true_r.
Qed.

(** Line 98 for the default directory: it is created, or it is there
    already and [os.makedirs] raises. *)
Lemma os_makedirs_output_dir w :
  os_makedirs OUTPUT_DIR w =
  if path_exists OUTPUT_DIR w
  then (Raise (FileExistsError OUTPUT_DIR), w)
  else (Ok tt, set_dirs ({[OUTPUT_DIR]} ∪ dirs w) w).
Proof.
  rewrite path_exists_output_dir. unfold os_makedirs, is_dir, is_file.
  change (canon OUTPUT_DIR) with OUTPUT_DIR.
  change (parents (is_absolute OUTPUT_DIR) (components OUTPUT_DIR)) with (@nil string).
  change (OUTPUT_DIR =? "") with false.
  change (OUTPUT_DIR =? ".") with false.
  change (OUTPUT_DIR =? "/") with false.
  cbn [negb andb orb existsb list_to_set].
  destruct (_ || _); [done |]. by rewrite (left_id_L ∅ (∪)).
Qed.

(** Line 127: opening [failed.txt] raises when it is a directory. *)
Lemma append_failed_log text w :
  append_file FAILED_LOG text w =
  if bool_decide (FAILED_LOG ∈ dirs w)
  then (Raise (IsADirectoryError FAILED_LOG), w)
  else (Ok tt,
        set_files (<[FAILED_LOG := file_text w FAILED_LOG +:+ text]> (files w)) w).
Proof.
  unfold append_file, is_dir.
  change (canon FAILED_LOG) with FAILED_LOG.
  change (parents (is_absolute FAILED_LOG) (components FAILED_LOG)) with (@nil string).
  change (dir_syntax FAILED_LOG) with false.
  change (FAILED_LOG =? "") with false.
  change (FAILED_LOG =? ".") with false.
  change (FAILED_LOG =? "/") with false.
  cbn [negb andb orb existsb forallb]. by rewrite orb_false_r.
Qed.

Lemma failed_log_outside : ¬ in_output_dir FAILED_LOG.
Proof. intros [name H]. discriminate. Qed.

Lemma output_dir_outside : ¬ in_output_dir OUTPUT_DIR.
Proof. intros [name H]. discriminate. Qed.

(** ** The progress hook *)
Lemma dict_has_Some data k v : data !! k = Some v -> dict_has data k = true.
Proof. intros H. unfold dict_has. rewrite H. by apply bool_decide_eq_true. Qed.

Lemma dict_has_None data k : data !! k = None -> dict_has data k = false.
Proof.
  intros H. unfold dict_has. rewrite H. apply bool_decide_eq_false.
  by intros [x Hx].
Qed.

Lemma dict_get_Some data k v : data !! k = Some v -> dict_get data k = ret v.
Proof. intros H. unfold dict_get. by rewrite H. Qed.

Lemma Qeq_bool_false_of_neq (t : Q) : ¬ (t == 0)%Q -> Qeq_bool t 0 = false.
Proof.
  intros H. destruct (Qeq_bool t 0) eqn:E; [| done].
  apply Qeq_bool_iff in E. contradiction.
Qed.

(** Storing a value in an existing bar and redrawing it. *)
Lemma store_and_refresh url v bars b w :
  progress_bars w = Some bars -> bars !! url = Some b ->
  (set_bar_n url v ;; bar_refresh url) w = (Ok tt, with_progress url v bars b w).
Proof.
  intros Hb Hu. unfold set_bar_n, bar_refresh, bind, get_bar.
  rewrite Hb, Hu. simpl. rewrite Hb. simpl. by rewrite lookup_insert_eq.
Qed.

(** The hook with a total that is a non-zero number. *)
Lemma progress_hook_selected data url bars b w t d :
  data !! "status" = Some (VStr "downloading") ->
  selected_total data = Some (VNum t) -> ¬ (t == 0)%Q ->
  data !! "downloaded_bytes" = Some (VNum d) ->
  progress_bars w = Some bars -> bars !! url = Some b ->
  progress_hook data url w =
    (Ok tt, with_progress url (VNum (percentage d t)) bars b w).
Proof.
  intros Hs Ht Hnz Hd Hb Hu.
  pose proof (store_and_refresh url (VNum (percentage d t)) bars b w Hb Hu) as Hst.
  unfold progress_hook. rewrite (dict_get_Some _ _ _ Hs).
  unfold selected_total in Ht.
  unfold bind at 1, ret at 1. cbn [py_eq_str String.eqb]. simpl (String.eqb _ _).
  destruct (dict_has data "total_bytes") eqn:E1.
  - rewrite (dict_get_Some _ _ _ Ht), (dict_get_Some _ _ _ Hd).
    unfold bind at 1. unfold bind at 1, ret at 1. unfold bind at 1, ret at 1.
    unfold ret at 1. cbn [truthy]. rewrite (Qeq_bool_false_of_neq _ Hnz).
    cbn [negb py_truediv]. rewrite (Qeq_bool_false_of_neq _ Hnz).
    unfold bind at 1. unfold bind at 1, ret at 1. cbn [py_mul]. unfold ret at 1.
    exact Hst.
  - assert (E2 : dict_has data "total_bytes_estimate" = true)
      by (by eapply dict_has_Some).
    rewrite E2, (dict_get_Some _ _ _ Ht), (dict_get_Some _ _ _ Hd).
    unfold bind at 1. unfold bind at 1, ret at 1. unfold bind at 1, ret at 1.
    unfold ret at 1. cbn [truthy]. rewrite (Qeq_bool_false_of_neq _ Hnz).
    cbn [negb py_truediv]. rewrite (Qeq_bool_false_of_neq _ Hnz).
    unfold bind at 1. unfold bind at 1, ret at 1. cbn [py_mul]. unfold ret at 1.
    exact Hst.
Qed.

(** The hook with a total that is false in Python ([None], zero, the
    empty string): the guard [if total else 0] answers 0 and the division
    is not evaluated. *)
Lemma progress_hook_falsy data url bars b w tv dv :
  data !! "status" = Some (VStr "downloading") ->
  selected_total data = Some tv -> truthy tv = false ->
  data !! "downloaded_bytes" = Some dv ->
  progress_bars w = Some bars -> bars !! url = Some b ->
  progress_hook data url w = (Ok tt, with_progress url (VNum 0) bars b w).
Proof.
  intros Hs Ht Hq Hd Hb Hu.
  pose proof (store_and_refresh url (VNum 0) bars b w Hb Hu) as Hst.
  unfold progress_hook. rewrite (dict_get_Some _ _ _ Hs).
  unfold selected_total in Ht.
  unfold bind at 1, ret at 1. cbn [py_eq_str String.eqb]. simpl (String.eqb _ _).
  destruct (dict_has data "total_bytes") eqn:E1.
  - rewrite (dict_get_Some _ _ _ Ht), (dict_get_Some _ _ _ Hd).
    unfold bind at 1. unfold bind at 1, ret at 1. unfold bind at 1, ret at 1.
    unfold ret at 1. rewrite Hq.
    unfold bind at 1, ret at 1. exact Hst.
  - assert (E2 : dict_has data "total_bytes_estimate" = true)
      by (by eapply dict_has_Some).
    rewrite E2, (dict_get_Some _ _ _ Ht), (dict_get_Some _ _ _ Hd).
    unfold bind at 1. unfold bind at 1, ret at 1. unfold bind at 1, ret at 1.
    unfold ret at 1. rewrite Hq.
    unfold bind at 1, ret at 1. exact Hst.
Qed.

Lemma progress_hook_zero data url bars b w t dv :
  data !! "status" = Some (VStr "downloading") ->
  selected_total data = Some (VNum t) -> (t == 0)%Q ->
  data !! "downloaded_bytes" = Some dv ->
  progress_bars w = Some bars -> bars !! url = Some b ->
  progress_hook data url w = (Ok tt, with_progress url (VNum 0) bars b w).
Proof.
  intros Hs Ht Hz Hd Hb Hu.
  eapply progress_hook_falsy; try done.
  cbn [truthy]. apply negb_false_iff. by apply Qeq_bool_iff.
Qed.

(** Computations that never raise [ZeroDivisionError], closed under the
    monad's operations. *)
Lemma no_zero_division_ret {A} (a : A) : no_zero_division (ret a).
Proof. by intros w. Qed.

Lemma no_zero_division_bind {A B} (c : M A) (k : A -> M B) :
  no_zero_division c -> (forall a, no_zero_division (k a)) ->
  no_zero_division (bind c k).
Proof.
  intros Hc Hk w. unfold bind. specialize (Hc w).
  destruct (c w) as [[a|e] w']; simpl in *; [apply Hk |].
  intros H. apply Hc. congruence.
Qed.

Lemma no_zero_division_dict_get data k : no_zero_division (dict_get data k).
Proof. intros w. unfold dict_get. by destruct (data !! k). Qed.

Lemma no_zero_division_get_bar url : no_zero_division (get_bar url).
Proof.
  intros w. unfold get_bar. destruct (progress_bars w) as [bars|]; [| done].
  by destruct (bars !! url).
Qed.

Lemma no_zero_division_progress total dn :
  no_zero_division
    (if truthy total
     then q <- py_truediv dn total ;; py_mul q (VNum 100)
     else ret (VNum 0)).
Proof.
  intros w. destruct total as [|s|t]; cbn [truthy].
  - done.
  - destruct (negb (s =? "")); [| done]. by destruct dn; unfold bind.
  - destruct (Qeq_bool t 0) eqn:E; cbn [negb]; [done |].
    destruct dn as [|s|d]; unfold bind, py_truediv; try done.
    by rewrite E.
Qed.

(** Whatever the event, the hook never raises [ZeroDivisionError]. *)
Lemma progress_hook_never_divides_by_zero data url :
  no_zero_division (progress_hook data url).
Proof.
  unfold progress_hook.
  apply no_zero_division_bind; [apply no_zero_division_dict_get |].
  intros status. destruct (py_eq_str status "downloading");
    [| apply no_zero_division_ret].
  apply no_zero_division_bind.
  - destruct (dict_has data "total_bytes"); [| destruct (dict_has _ _)];
      repeat (apply no_zero_division_bind;
              [apply no_zero_division_dict_get | intros ?]);
      apply no_zero_division_ret.
  - intros [[total dn]|]; [| apply no_zero_division_ret].
    apply no_zero_division_bind; [apply no_zero_division_progress |].
    intros progress. apply no_zero_division_bind.
    + unfold set_bar_n. apply no_zero_division_bind;
        [apply no_zero_division_get_bar | by intros b w'].
    + intros _. unfold bar_refresh. apply no_zero_division_bind;
        [apply no_zero_division_get_bar | by intros b w'].
Qed.

(** The hook on an event that has neither total. *)
Lemma progress_hook_no_total data url w :
  data !! "status" = Some (VStr "downloading") ->
  data !! "total_bytes" = None -> data !! "total_bytes_estimate" = None ->
  progress_hook data url w = (Ok tt, w).
Proof.
  intros Hs Hn He. unfold progress_hook. rewrite (dict_get_Some _ _ _ Hs).
  unfold bind at 1, ret at 1. cbn [py_eq_str]. simpl (String.eqb _ _).
  rewrite (dict_has_None _ _ Hn), (dict_has_None _ _ He).
  reflexivity.
Qed.

(** C7, as amended.  For an event with status 'downloading' and a task
    that has its bar, the total is [total_bytes] when that key is there,
    else [total_bytes_estimate] when that key is there.  With a total that
    is a non-zero number the bar is set to the float that
    [(downloaded_bytes / total) * 100] evaluates to; with a total that is
    [None] or zero the bar is set to 0; and when neither key is there the
    hook returns at once and the world is untouched. *)
Theorem C7_progress_percentage data url w bars b :
  data !! "status" = Some (VStr "downloading") ->
  progress_bars w = Some bars -> bars !! url = Some b ->
  (forall t d,
     selected_total data = Some (VNum t) -> ¬ (t == 0)%Q ->
     data !! "downloaded_bytes" = Some (VNum d) ->
     progress_hook data url w =
       (Ok tt, with_progress url (VNum (percentage d t)) bars b w)) /\
  (forall tv dv,
     selected_total data = Some tv -> tv = VNone \/ tv = VNum 0 ->
     data !! "downloaded_bytes" = Some dv ->
     progress_hook data url w =
       (Ok tt, with_progress url (VNum 0) bars b w)) /\
  (data !! "total_bytes" = None -> data !! "total_bytes_estimate" = None ->
   progress_hook data url w = (Ok tt, w)) /\
  (forall tv, data !! "total_bytes" = Some tv -> selected_total data = Some tv) /\
  (data !! "total_bytes" = None ->
   selected_total data = data !! "total_bytes_estimate").
Proof.
  intros Hs Hb Hu. split; [| split; [| split; [| split]]].
  - intros t d Ht Hnz Hd. by apply progress_hook_selected.
  - intros tv dv Ht Hf Hd. eapply progress_hook_falsy; try done.
    by destruct Hf as [-> | ->].
  - intros Hn He. by apply progress_hook_no_total.
  - intros tv Ht. unfold selected_total. by rewrite (dict_has_Some _ _ _ Ht).
  - intros Hn. unfold selected_total. by rewrite (dict_has_None _ _ Hn).
Qed.

(** C9. For an event with status 'downloading' whose selected total is
    zero the hook does not divide: it stores 0 in the bar, redraws it and
    returns normally. *)
Theorem C9_zero_total_guarded data url w t dv bars b :
  data !! "status" = Some (VStr "downloading") ->
  selected_total data = Some (VNum t) -> (t == 0)%Q ->
  data !! "downloaded_bytes" = Some dv ->
  progress_bars w = Some bars -> bars !! url = Some b ->
  progress_hook data url w = (Ok tt, with_progress url (VNum 0) bars b w) /\
  fst (progress_hook data url w) ≠ Raise ZeroDivisionError.
Proof.
  intros Hs Ht Hz Hd Hb Hu. split.
  - by eapply progress_hook_zero.
  - apply progress_hook_never_divides_by_zero.
Qed.

(** The hook leaves the world as it is, whatever it returns, or it stores
    one value in the bar of its own task and redraws it. *)
Lemma progress_hook_cases data url w :
  (exists r, progress_hook data url w = (r, w)) \/
  (exists v bars b,
     progress_bars w = Some bars /\ bars !! url = Some b /\
     progress_hook data url w = (Ok tt, with_progress url v bars b w)).
Proof.
  set (res := progress_hook data url w).
  assert (Hres : res = progress_hook data url w) by done. clearbody res.
  unfold progress_hook, bind at 1 in Hres. unfold dict_get at 1 in Hres.
  destruct (data !! "status") as [st|]; [| left; eexists; rewrite Hres; reflexivity].
  unfold ret at 1 in Hres.
  destruct (py_eq_str st "downloading"); [| left; eexists; rewrite Hres; reflexivity].
  unfold bind at 1 in Hres.
  assert (Hsel : (exists e, (if dict_has data "total_bytes"
            then total <- dict_get data "total_bytes";;
                 dn <- dict_get data "downloaded_bytes";;
                 ret (Some (total, dn))
            else if dict_has data "total_bytes_estimate"
                 then total <- dict_get data "total_bytes_estimate";;
                      dn <- dict_get data "downloaded_bytes";;
                      ret (Some (total, dn))
                 else ret None) w = (e, w))).
  { unfold bind, dict_get, ret, raise.
    destruct (dict_has data "total_bytes");
      [| destruct (dict_has data "total_bytes_estimate")];
      destruct (data !! "total_bytes"), (data !! "total_bytes_estimate"),
        (data !! "downloaded_bytes"); by eexists. }
  destruct Hsel as [sel Hsel]. rewrite Hsel in Hres.
  destruct sel as [[[total dn]|]|e];
    [| left; eexists; rewrite Hres; reflexivity
     | left; eexists; rewrite Hres; reflexivity].
  unfold bind at 1 in Hres.
  assert (Hprog : exists r,
            (if truthy total
             then q <- py_truediv dn total;; py_mul q (VNum 100)
             else ret (VNum 0)) w = (r, w)).
  { unfold bind, py_truediv, py_mul, ret, raise.
    destruct (truthy total); [| by eexists].
    destruct dn, total; try by eexists.
    destruct (Qeq_bool _ _); by eexists. }
  destruct Hprog as [r Hprog]. rewrite Hprog in Hres.
  destruct r as [progress|e]; [| left; eexists; rewrite Hres; reflexivity].
  destruct (progress_bars w) as [bars|] eqn:Hb.
  - destruct (bars !! url) as [b|] eqn:Hu.
    + right. exists progress, bars, b. split; [done |]. split; [done |].
      rewrite Hres. by apply store_and_refresh.
    + left. unfold bind, set_bar_n, bind, get_bar in Hres.
      rewrite Hb, Hu in Hres. by eexists.
  - left. unfold bind, set_bar_n, bind, get_bar in Hres.
    rewrite Hb in Hres. by eexists.
Qed.

Lemma store_without_bar url v w e :
  get_bar url w = (Raise e, w) ->
  (set_bar_n url v ;; bar_refresh url) w = (Raise e, w).
Proof. intros H. unfold set_bar_n, bind. by rewrite H. Qed.

Lemma progress_value t d w :
  exists v,
    (if truthy (VNum t)
     then q <- py_truediv (VNum d) (VNum t) ;; py_mul q (VNum 100)
     else ret (VNum 0)) w = (Ok v, w).
Proof.
  unfold truthy, bind, py_truediv, py_mul, ret.
  destruct (Qeq_bool t 0); by eexists.
Qed.

(** The hook keeps the bars: the same keys, and only the position of its
    own bar may move. *)
Lemma bars_kept_refl url w : bars_kept url w w.
Proof. unfold bars_kept. by destruct (progress_bars w). Qed.

Lemma bars_kept_trans url w1 w2 w3 :
  bars_kept url w1 w2 -> bars_kept url w2 w3 -> bars_kept url w1 w3.
Proof.
  unfold bars_kept.
  destruct (progress_bars w1) as [b1|], (progress_bars w2) as [b2|],
    (progress_bars w3) as [b3|]; try done.
  intros H1 H2 u. destruct (H1 u) as (A1 & B1 & C1), (H2 u) as (A2 & B2 & C2).
  split; [| split]; [| congruence | congruence].
  intros Hne. rewrite A2, A1; done.
Qed.

Lemma bars_kept_same url w w' :
  progress_bars w' = progress_bars w -> bars_kept url w w'.
Proof. intros H. unfold bars_kept. rewrite H. by destruct (progress_bars w). Qed.

Lemma bars_kept_with_progress url v bars b w :
  progress_bars w = Some bars -> bars !! url = Some b ->
  bars_kept url w (with_progress url v bars b w).
Proof.
  intros Hb Hu. unfold bars_kept. rewrite Hb. simpl. intros u. split; [| split].
  - intros Hne. by rewrite lookup_insert_ne.
  - destruct (decide (url = u)) as [<-|Hne].
    + by rewrite lookup_insert_eq, Hu.
    + by rewrite lookup_insert_ne.
  - destruct (decide (url = u)) as [<-|Hne].
    + by rewrite lookup_insert_eq, Hu.
    + by rewrite lookup_insert_ne.
Qed.

Lemma download_frame_refl url w : download_frame url w w.
Proof.
  constructor; try done; [| apply bars_kept_refl].
  exists []. by rewrite app_nil_r.
Qed.

Lemma download_frame_trans url w1 w2 w3 :
  download_frame url w1 w2 -> download_frame url w2 w3 ->
  download_frame url w1 w3.
Proof.
  intros [(t1 & O1 & R1) D1 F1 B1] [(t2 & O2 & R2) D2 F2 B2]. constructor.
  - exists (t1 ++ t2). split; [by rewrite O2, O1, app_assoc | by apply Forall_app].
  - congruence.
  - intros q Hq. rewrite F2, F1; done.
  - by eapply bars_kept_trans.
Qed.

(** The hook is within what a download may change. *)
Lemma progress_hook_download_frame data url w :
  download_frame url w (snd (progress_hook data url w)).
Proof.
  destruct (progress_hook_cases data url w)
    as [[r ->] | (v & bars & b & Hb & Hu & ->)]; simpl.
  - apply download_frame_refl.
  - constructor; simpl; try done.
    + exists [EvRefresh url v]. split; [done |]. constructor; [by exists v | done].
    + by apply bars_kept_with_progress.
Qed.

(** ** The retry loop *)

Lemma for_each_frame {X} (R : world -> world -> Prop) (f : X -> M unit) :
  (forall w, R w w) ->
  (forall w1 w2 w3, R w1 w2 -> R w2 w3 -> R w1 w3) ->
  (forall x w, R w (snd (f x w))) ->
  forall xs w, R w (snd (for_each xs f w)).
Proof.
  intros Hrefl Htrans Hf. induction xs as [|x xs IH]; intros w; [apply Hrefl |].
  simpl. unfold bind. specialize (Hf x w).
  destruct (f x w) as [[u|e] w1]; simpl in *; [| done].
  eapply Htrans; [exact Hf | apply IH].
Qed.

(** A file written by a download lands inside the output directory. *)
Lemma write_file_frame url name content w :
  download_frame url w (snd (write_file "downloads/" name content w)).
Proof.
  unfold write_file. change (canon "downloads/") with OUTPUT_DIR.
  destruct (is_file OUTPUT_DIR w); [apply download_frame_refl |].
  destruct (is_dir OUTPUT_DIR w); [| apply download_frame_refl].
  destruct (is_dir (child OUTPUT_DIR name) w); [apply download_frame_refl |].
  simpl. constructor; simpl; try done.
  - exists []. by rewrite app_nil_r.
  - intros q Hq. apply lookup_insert_ne. intros <-. apply Hq. by exists name.
  - by apply bars_kept_same.
Qed.

Lemma run_step_frame url s w :
  download_frame url w (snd (run_step (make_ydl_opts url OUTPUT_DIR) s w)).
Proof.
  destruct s as [data | name content]; simpl.
  - unfold bind. pose proof (progress_hook_download_frame data url w) as H.
    by destruct (progress_hook data url w) as [[u|e] w1].
  - apply write_file_frame.
Qed.

(** The handler of lines 118-129, written out. *)
Lemma attempt_body_unfold extractor opts url retries a w :
  attempt_body extractor opts url retries a w =
  match YoutubeDL_download extractor opts url w with
  | (Ok _, w1) => (Ok (Return tt), emit (EvPrint (MsgComplete url)) w1)
  | (Raise e, w1) =>
      let w2 := emit (EvPrint (MsgError a retries url e)) w1 in
      if (a =? retries)%Z
      then if bool_decide (FAILED_LOG ∈ dirs w2)
           then (Raise (IsADirectoryError FAILED_LOG), w2)
           else (Ok Next,
                 emit (EvPrint (MsgSkipped url))
                   (set_files (<[FAILED_LOG := file_text w2 FAILED_LOG +:+ url
                                               +:+ newline]> (files w2)) w2))
      else (Ok Next, w2)
  end.
Proof.
  unfold attempt_body, try_except. unfold bind at 1.
  destruct (YoutubeDL_download extractor opts url w) as [[u|e] w1]; [done |].
  unfold bind at 1, print at 1. cbv zeta.
  destruct (a =? retries)%Z; [| done].
  unfold bind at 1. rewrite append_failed_log.
  by destruct (bool_decide _).
Qed.

(** In a trace of redraws around one download, only the download counts. *)
Lemma attempt_trace url o rtr sfx :
  Forall (is_redraw url) rtr ->
  attempts_of url (EvDownload url o :: rtr ++ sfx) = S (attempts_of url sfx) /\
  error_lines url (EvDownload url o :: rtr ++ sfx) = error_lines url sfx /\
  (forall m, In (EvPrint m) (EvDownload url o :: rtr ++ sfx) <-> In (EvPrint m) sfx).
Proof.
  intros Hr. split; [| split].
  - rewrite attempts_of_cons_download, attempts_of_app.
    by rewrite (redraws_attempts _ _ _ Hr).
  - change (error_lines url (EvDownload url o :: rtr ++ sfx))
      with (error_lines url (rtr ++ sfx)).
    by rewrite error_lines_app, (redraws_error_lines _ _ _ Hr).
  - intros m. simpl. rewrite in_app_iff. split.
    + intros [H | [H | H]]; [discriminate | | done].
      by destruct (redraws_no_print _ _ _ Hr H).
    + auto.
Qed.

Lemma seq_numbering (a retries : Z) k :
  (a, retries) :: map (fun i => ((a + 1 + Z.of_nat i)%Z, retries)) (seq 0 k)
  = map (fun i => ((a + Z.of_nat i)%Z, retries)) (seq 0 (S k)).
Proof.
  simpl. f_equal; [f_equal; lia |].
  rewrite <- seq_shift, map_map. apply map_ext. intros i. f_equal. lia.
Qed.


Lemma task_frame_refl url w : task_frame url w w.
Proof.
  constructor; try done.
  - exists "". by rewrite string_app_nil_r.
  - apply bars_kept_refl.
  - exists []. by rewrite app_nil_r.
Qed.

Lemma task_frame_trans url w1 w2 w3 :
  task_frame url w1 w2 -> task_frame url w2 w3 -> task_frame url w1 w3.
Proof.
  intros [F1 [s1 L1] B1 [t1 O1]] [F2 [s2 L2] B2 [t2 O2]]. constructor.
  - intros q Hq Ho. rewrite F2, F1; done.
  - exists (s1 +:+ s2). rewrite L2, L1. by rewrite string_app_assoc.
  - by eapply bars_kept_trans.
  - exists (t1 ++ t2). rewrite O2, O1. by rewrite app_assoc.
Qed.

Section RetryFacts.

Variable extractor : string -> nat -> ydl_run.
Variable url : string.
Variable retries : Z.

Local Abbreviation opts := (make_ydl_opts url OUTPUT_DIR).
Local Abbreviation body := (attempt_body extractor opts url retries).
Local Abbreviation dl := (EvDownload url (opt_outtmpl opts)).

(** One call of the extractor: the download is recorded, the hook may
    redraw the bar, files may appear in the output directory, and the call
    returns only if the extractor's own result is a return. *)
Lemma download_cases w :
  exists r w1 rtr,
    YoutubeDL_download extractor opts url w = (r, w1) /\
    out w1 = out w ++ dl :: rtr /\
    Forall (is_redraw url) rtr /\
    dirs w1 = dirs w /\
    (forall q, ¬ in_output_dir q -> files w1 !! q = files w !! q) /\
    bars_kept url w w1 /\
    (r = Ok tt \/ exists e, r = Raise e) /\
    (r = Ok tt -> run_result (extractor url (attempts_of url (out w))) = Ok tt).
Proof.
  unfold YoutubeDL_download. cbv zeta.
  set (run := extractor url (attempts_of url (out w))).
  set (w0 := emit dl w).
  pose proof (for_each_frame (download_frame url) (run_step opts)
                (download_frame_refl url) (download_frame_trans url)
                (run_step_frame url) (run_steps run) w0)
    as [(rtr & Ho & Hr) Hd Hf Hb].
  unfold bind.
  destruct (for_each (run_steps run) (run_step opts) w0) as [[u|e] w1] eqn:E;
    simpl in *.
  - unfold lift. exists (run_result run), w1, rtr.
    split; [done |]. split; [by rewrite Ho, <- app_assoc |].
    repeat split; try done.
    destruct (run_result run) as [[]|e]; [by left | right; by exists e].
  - exists (Raise e), w1, rtr.
    split; [done |]. split; [by rewrite Ho, <- app_assoc |].
    repeat split; try done. right. by exists e.
Qed.

(** One iteration of the loop. *)
Lemma attempt_cases a w :
  exists r w' rtr sfx,
    body a w = (r, w') /\
    out w' = out w ++ dl :: rtr ++ sfx /\
    Forall (is_redraw url) rtr /\
    dirs w' = dirs w /\
    task_frame url w w' /\
    ((r = Ok (Return tt) /\ sfx = [EvPrint (MsgComplete url)] /\
      files w' !! FAILED_LOG = files w !! FAILED_LOG /\
      run_result (extractor url (attempts_of url (out w))) = Ok tt) \/
     (exists e, r = Ok Next /\ a <> retries /\
                sfx = [EvPrint (MsgError a retries url e)] /\
                files w' !! FAILED_LOG = files w !! FAILED_LOG) \/
     (exists e, r = Ok Next /\ a = retries /\ (FAILED_LOG ∉ dirs w) /\
                sfx = [EvPrint (MsgError a retries url e);
                       EvPrint (MsgSkipped url)] /\
                files w' !! FAILED_LOG =
                  Some (file_text w FAILED_LOG +:+ url +:+ newline)) \/
     (exists e, r = Raise (IsADirectoryError FAILED_LOG) /\ a = retries /\
                FAILED_LOG ∈ dirs w /\
                sfx = [EvPrint (MsgError a retries url e)] /\
                files w' !! FAILED_LOG = files w !! FAILED_LOG)).
Proof.
  rewrite attempt_body_unfold.
  destruct (download_cases w)
    as (r & w1 & rtr & -> & Ho & Hr & Hd & Hf & Hb & Hres & Hok).
  assert (Hlog : file_text w1 FAILED_LOG = file_text w FAILED_LOG).
  { unfold file_text. by rewrite (Hf _ failed_log_outside). }
  destruct Hres as [-> | [e ->]].
  - eexists _, _, rtr, _. split; [reflexivity |]. simpl.
    split; [by rewrite Ho, <- app_assoc |]. split; [done |]. split; [done |].
    split.
    + constructor; simpl.
      * intros q _ Hq. by apply Hf.
      * exists "". rewrite string_app_nil_r. exact Hlog.
      * done.
      * eexists. by rewrite Ho, <- app_assoc.
    + left. repeat split; [by apply Hf, failed_log_outside | by apply Hok].
  - cbv zeta. destruct (Z.eqb_spec a retries) as [-> | Hne].
    + simpl. rewrite Hd. destruct (bool_decide (FAILED_LOG ∈ dirs w)) eqn:Hdir.
      * apply bool_decide_eq_true in Hdir.
        eexists _, _, rtr, _. split; [reflexivity |]. simpl.
        split; [by rewrite Ho, <- app_assoc |]. split; [done |]. split; [done |].
        split.
        -- constructor; simpl.
           ++ intros q _ Hq. by apply Hf.
           ++ exists "". rewrite string_app_nil_r. exact Hlog.
           ++ done.
           ++ eexists. by rewrite Ho, <- app_assoc.
        -- right. right. right. exists e.
           repeat split; try done. by apply Hf, failed_log_outside.
      * apply bool_decide_eq_false in Hdir.
        eexists _, _, rtr, _. split; [reflexivity |]. simpl.
        split; [by rewrite Ho, <- !app_assoc |]. split; [done |].
        split; [done |]. split.
        -- constructor; simpl.
           ++ intros q Hq Ho'. rewrite lookup_insert_ne by done. by apply Hf.
           ++ exists (url +:+ newline). unfold file_text at 1. simpl.
              rewrite lookup_insert_eq. simpl. unfold file_text. simpl.
              by rewrite (Hf _ failed_log_outside).
           ++ done.
           ++ eexists. by rewrite Ho, <- !app_assoc.
        -- right. right. left. exists e. repeat split; try done.
           rewrite lookup_insert_eq. unfold file_text. simpl.
           by rewrite (Hf _ failed_log_outside).
    + eexists _, _, rtr, _. split; [reflexivity |]. simpl.
      split; [by rewrite Ho, <- app_assoc |]. split; [done |]. split; [done |].
      split.
      * constructor; simpl.
        -- intros q _ Hq. by apply Hf.
        -- exists "". rewrite string_app_nil_r. exact Hlog.
        -- done.
        -- eexists. by rewrite Ho, <- app_assoc.
      * right. left. exists e. repeat split; try done.
        by apply Hf, failed_log_outside.
Qed.

(** The iterations [a], ..., [retries] of the loop, [k] of them.  The loop
    ends in one of four ways: an attempt returned, and the function with
    it; there was no iteration; every attempt failed and the URL was
    logged; every attempt failed and the log could not be opened. *)
Lemma loop_cases k : forall a w,
  (a + Z.of_nat k = retries + 1)%Z ->
  exists r w' tr,
    for_in (range_from a k) body w = (r, w') /\
    out w' = out w ++ tr /\
    dirs w' = dirs w /\
    task_frame url w w' /\
    Forall (task_event url) tr /\
    ((r = Ok (Return tt) /\
      exists j tr0,
        j < k /\ tr = tr0 ++ [EvPrint (MsgComplete url)] /\
        attempts_of url tr0 = S j /\
        ¬ succeeded url tr0 /\ ¬ failed url tr0 /\
        error_lines url tr0 =
          map (fun i => ((a + Z.of_nat i)%Z, retries)) (seq 0 j) /\
        files w' !! FAILED_LOG = files w !! FAILED_LOG /\
        run_result (extractor url (attempts_of url (out w) + j)) = Ok tt) \/
     (r = Ok Next /\ k = 0 /\ tr = [] /\ w' = w) \/
     (r = Ok Next /\ 0 < k /\ (FAILED_LOG ∉ dirs w) /\
      attempts_of url tr = k /\
      ¬ succeeded url tr /\ failed url tr /\
      error_lines url tr =
        map (fun i => ((a + Z.of_nat i)%Z, retries)) (seq 0 k) /\
      files w' !! FAILED_LOG =
        Some (file_text w FAILED_LOG +:+ url +:+ newline)) \/
     (r = Raise (IsADirectoryError FAILED_LOG) /\ 0 < k /\
      FAILED_LOG ∈ dirs w /\
      attempts_of url tr = k /\
      ¬ succeeded url tr /\ ¬ failed url tr /\
      error_lines url tr =
        map (fun i => ((a + Z.of_nat i)%Z, retries)) (seq 0 k) /\
      files w' !! FAILED_LOG = files w !! FAILED_LOG)).
Proof.
  induction k as [|k IH]; intros a w Ha.
  { exists (Ok Next), w, []. split; [done |]. split; [by rewrite app_nil_r |].
    split; [done |]. split; [apply task_frame_refl |]. split; [done |].
    right. left. done. }
  rewrite range_from_S. cbn [for_in]. unfold bind at 1.
  destruct (attempt_cases a w)
    as (r & w1 & rtr & sfx & -> & Ho & Hr & Hd & Hfr & Hcase).
  destruct (attempt_trace url (opt_outtmpl opts) rtr sfx Hr) as (Hn & He & Hp).
  assert (Hev : Forall (task_event url) sfx ->
                Forall (task_event url) (dl :: rtr ++ sfx)).
  { intros Hs. constructor; [done |]. apply Forall_app. split; [| done].
    by apply redraws_task_events. }
  destruct Hcase as [(-> & -> & Hlog & Hok)
                    | [(e & -> & Hne & -> & Hlog)
                      | [(e & -> & -> & Hnd & -> & Hlog)
                        | (e & -> & -> & Hdir & -> & Hlog)]]].
  - (* the attempt returned *)
    exists (Ok (Return tt)), w1, (dl :: rtr ++ [EvPrint (MsgComplete url)]).
    split; [done |]. split; [done |]. split; [done |]. split; [done |].
    split; [apply Hev; by repeat constructor |].
    left. split; [done |]. exists 0, (dl :: rtr).
    split; [lia |]. split; [by rewrite app_comm_cons |].
    pose proof (attempt_trace url (opt_outtmpl opts) rtr [] Hr) as (Hn0 & He0 & Hp0).
    rewrite app_nil_r in Hn0, He0, Hp0.
    split; [exact Hn0 |]. split; [intros H; by apply Hp0 in H |].
    split; [intros H; by apply Hp0 in H |].
    split; [exact He0 |]. split; [done |]. by rewrite Nat.add_0_r.
  - (* a failure before the last attempt *)
    destruct k as [|k]; [lia |].
    destruct (IH (a + 1)%Z w1 ltac:(lia))
      as (r & w' & tr' & Hrun & Ho' & Hd' & Hfr' & Hev' & Hcase').
    set (t1 := dl :: rtr ++ [EvPrint (MsgError a retries url e)]) in *.
    assert (Hc : attempts_of url (out w1) = S (attempts_of url (out w))).
    { rewrite Ho, attempts_of_app, Hn.
      change (attempts_of url [EvPrint (MsgError a retries url e)]) with 0. lia. }
    assert (Hl1 : error_lines url t1 = [(a, retries)]).
    { rewrite He. cbn. by rewrite String.eqb_refl. }
    assert (Hs1 : ¬ succeeded url t1).
    { intros H. apply Hp in H. destruct H as [H | []]. discriminate. }
    assert (Hf1 : ¬ failed url t1).
    { intros H. apply Hp in H. destruct H as [H | []]. discriminate. }
    assert (Htext : file_text w1 FAILED_LOG = file_text w FAILED_LOG)
      by (unfold file_text; by rewrite Hlog).
    exists r, w', (t1 ++ tr'). rewrite Hrun.
    split; [by destruct r as [[|[]]|x] |].
    split; [by rewrite Ho', Ho, app_assoc |].
    split; [congruence |]. split; [by eapply task_frame_trans |].
    split; [apply Forall_app; split; [apply Hev; by repeat constructor | done] |].
    destruct Hcase' as [(-> & j & tr0 & Hj & -> & Hn' & Hs' & Hf' & He' & Hlog' & Hok')
                       | [(-> & Hk & _) | [(-> & Hk & Hnd & Hn' & Hs' & Hf' & He' & Hlog')
                         | (-> & Hk & Hdir & Hn' & Hs' & Hf' & He' & Hlog')]]].
    + left. split; [done |]. exists (S j), (t1 ++ tr0).
      split; [lia |]. split; [by rewrite app_assoc |].
      split; [rewrite attempts_of_app, Hn', Hn; cbn; lia |].
      split; [intros H; apply in_app_iff in H as [H | H]; by auto |].
      split; [intros H; apply in_app_iff in H as [H | H]; by auto |].
      split; [by rewrite error_lines_app, Hl1, He', <- seq_numbering |].
      split; [congruence |].
      rewrite <- Hok'. do 2 f_equal. lia.
    + lia.
    + right. right. left. split; [done |]. split; [lia |].
      split; [by rewrite <- Hd |].
      split; [rewrite attempts_of_app, Hn', Hn; cbn; lia |].
      split; [intros H; apply in_app_iff in H as [H | H]; by auto |].
      split; [apply in_app_iff; by right |].
      split; [by rewrite error_lines_app, Hl1, He', <- (seq_numbering a retries (S k)) |].
      by rewrite Hlog', Htext.
    + right. right. right. split; [done |]. split; [lia |].
      split; [by rewrite <- Hd |].
      split; [rewrite attempts_of_app, Hn', Hn; cbn; lia |].
      split; [intros H; apply in_app_iff in H as [H | H]; by auto |].
      split; [intros H; apply in_app_iff in H as [H | H]; by auto |].
      split; [by rewrite error_lines_app, Hl1, He', <- (seq_numbering a retries (S k)) |].
      congruence.
  - (* the last attempt failed and the URL was logged *)
    assert (k = 0) as -> by lia. cbn [range_from map seq for_in]. unfold ret.
    set (t1 := dl :: rtr ++ [EvPrint (MsgError retries retries url e);
                             EvPrint (MsgSkipped url)]) in *.
    exists (Ok Next), w1, t1.
    split; [done |]. split; [done |]. split; [done |]. split; [done |].
    split; [apply Hev; by repeat constructor |].
    right. right. left. split; [done |]. split; [lia |]. split; [done |].
    split; [rewrite Hn; by cbn |].
    split; [intros H; apply Hp in H; destruct H as [H | [H | []]]; discriminate |].
    split; [apply Hp; right; by left |].
    split; [| done].
    rewrite He. cbn. rewrite String.eqb_refl. by rewrite Z.add_0_r.
  - (* the last attempt failed and the log could not be opened *)
    assert (k = 0) as -> by lia.
    set (t1 := dl :: rtr ++ [EvPrint (MsgError retries retries url e)]) in *.
    exists (Raise (IsADirectoryError FAILED_LOG)), w1, t1.
    split; [done |]. split; [done |]. split; [done |]. split; [done |].
    split; [apply Hev; by repeat constructor |].
    right. right. right. split; [done |]. split; [lia |]. split; [done |].
    split; [rewrite Hn; by cbn |].
    split; [intros H; apply Hp in H; destruct H as [H | []]; discriminate |].
    split; [intros H; apply Hp in H; destruct H as [H | []]; discriminate |].
    split; [| done].
    rewrite He. cbn. rewrite String.eqb_refl. by rewrite Z.add_0_r.
Qed.

End RetryFacts.

(** ** The retry policy of one task *)

Lemma for_in_raises {X A} (P : exn -> world -> Prop) (body : X -> M (ctl A)) :
  (forall x w e, fst (body x w) = Raise e -> P e (snd (body x w))) ->
  forall xs w e, fst (for_in xs body w) = Raise e ->
                 xs <> [] /\ P e (snd (for_in xs body w)).
Proof.
  intros Hb. induction xs as [|x xs IH]; intros w e; [done |].
  simpl. unfold bind. specialize (Hb x w).
  destruct (body x w) as [[[|a]|e'] w1]; simpl in *.
  - intros H. split; [done |]. by apply IH.
  - done.
  - intros [= ->]. split; [done |]. by apply Hb.
Qed.

Section TaskFacts.

Variable extractor : string -> nat -> ydl_run.

(** Lines 97-98 with the default directory, no other thread interfering:
    the directory is created when the path is missing, and nothing is
    raised. *)
Lemma ensure_output_dir_default w :
  ensure_output_dir OUTPUT_DIR w = (Ok tt, with_output_dir w).
Proof.
  unfold ensure_output_dir, with_output_dir, bind, os_path_exists, ret.
  destruct (path_exists OUTPUT_DIR w) eqn:E; cbn [negb]; [done |].
  by rewrite os_makedirs_output_dir, E.
Qed.

Lemma download_video_with_progress_default url retries w :
  download_video_with_progress extractor url OUTPUT_DIR retries w =
  retry_loop extractor (make_ydl_opts url OUTPUT_DIR) url retries
             (with_output_dir w).
Proof.
  unfold download_video_with_progress. unfold bind at 1.
  by rewrite ensure_output_dir_default.
Qed.

Lemma with_output_dir_out w : out (with_output_dir w) = out w.
Proof. unfold with_output_dir. by destruct (path_exists _ _). Qed.

Lemma with_output_dir_files w : files (with_output_dir w) = files w.
Proof. unfold with_output_dir. by destruct (path_exists _ _). Qed.

Lemma with_output_dir_bars w : progress_bars (with_output_dir w) = progress_bars w.
Proof. unfold with_output_dir. by destruct (path_exists _ _). Qed.

Lemma with_output_dir_dirs w :
  dirs (with_output_dir w) = dirs w \/
  dirs (with_output_dir w) = {[OUTPUT_DIR]} ∪ dirs w.
Proof. unfold with_output_dir. destruct (path_exists _ _); [by left | by right]. Qed.

Lemma with_output_dir_log w :
  FAILED_LOG ∈ dirs (with_output_dir w) <-> FAILED_LOG ∈ dirs w.
Proof.
  destruct (with_output_dir_dirs w) as [-> | ->]; [done |].
  rewrite elem_of_union, elem_of_singleton. split; [| by right].
  intros [H | H]; [discriminate | done].
Qed.

Lemma task_frame_with_output_dir url w : task_frame url w (with_output_dir w).
Proof.
  constructor.
  - intros q _ _. by rewrite with_output_dir_files.
  - exists "". unfold file_text. by rewrite with_output_dir_files, string_app_nil_r.
  - apply bars_kept_same, with_output_dir_bars.
  - exists []. by rewrite with_output_dir_out, app_nil_r.
Qed.

Lemma numbered_from_one retries n :
  map (fun i => ((1 + Z.of_nat i)%Z, retries)) (seq 0 n) = numbered retries n.
Proof. unfold numbered. apply map_ext. intros i. f_equal. lia. Qed.

(** The retry loop with at least one attempt allowed ends in one of the
    three ways of [task_end], having changed only what a task may change. *)
Lemma retry_loop_cases url retries w :
  (1 <= retries)%Z ->
  exists r w' tr,
    retry_loop extractor (make_ydl_opts url OUTPUT_DIR) url retries w = (r, w') /\
    out w' = out w ++ tr /\
    dirs w' = dirs w /\
    task_frame url w w' /\
    Forall (task_event url) tr /\
    task_end extractor url retries w w' tr r.
Proof.
  intros Hr. unfold retry_loop, py_range.
  replace (Z.to_nat (retries + 1 - 1)) with (Z.to_nat retries) by lia.
  destruct (loop_cases extractor url retries (Z.to_nat retries) 1%Z w ltac:(lia))
    as (r & w' & tr & Hrun & Ho & Hd & Hfr & Hev & Hcase).
  unfold bind at 1. rewrite Hrun.
  destruct Hcase as [(-> & j & tr0 & Hj & -> & Hn' & Hs' & Hf' & He' & Hlog' & Hok')
                    | [(-> & Hk & _) | [(-> & Hk & Hnd & Hn' & Hs' & Hf' & He' & Hlog')
                      | (-> & Hk & Hdir & Hn' & Hs' & Hf' & He' & Hlog')]]].
  - exists (Ok tt), w', (tr0 ++ [EvPrint (MsgComplete url)]).
    repeat (split; [done |]). rewrite numbered_from_one in He'.
    by eapply task_returned.
  - lia.
  - exists (Ok tt), w', tr. repeat (split; [done |]).
    rewrite numbered_from_one in He'. by apply task_logged.
  - exists (Raise (IsADirectoryError FAILED_LOG)), w', tr.
    repeat (split; [done |]). rewrite numbered_from_one in He'.
    by apply task_unlogged.
Qed.

(** The same for the whole function with the default directory. *)
Lemma task_cases url retries w :
  (1 <= retries)%Z ->
  exists r w' tr,
    download_video_with_progress extractor url OUTPUT_DIR retries w = (r, w') /\
    out w' = out w ++ tr /\
    dirs w' = dirs (with_output_dir w) /\
    task_frame url w w' /\
    Forall (task_event url) tr /\
    task_end extractor url retries w w' tr r.
Proof.
  intros Hr. rewrite download_video_with_progress_default.
  destruct (retry_loop_cases url retries (with_output_dir w) Hr)
    as (r & w' & tr & Hrun & Ho & Hd & Hfr & Hev & Hend).
  exists r, w', tr. split; [done |].
  rewrite with_output_dir_out in Ho. split; [done |]. split; [done |].
  split; [eapply task_frame_trans; [apply task_frame_with_output_dir | done] |].
  split; [done |].
  destruct Hend as [j tr0 Hj Htr Hn Hs Hf He Hlog Hok | Hnd Hn Hs Hf He Hlog
                   | Hdir Hn Hs Hf He Hlog].
  - rewrite with_output_dir_files in Hlog. rewrite with_output_dir_out in Hok.
    by eapply task_returned.
  - rewrite with_output_dir_log in Hnd.
    unfold file_text in Hlog. rewrite with_output_dir_files in Hlog.
    by apply task_logged.
  - rewrite with_output_dir_log in Hdir. rewrite with_output_dir_files in Hlog.
    by apply task_unlogged.
Qed.

(** C1, as amended.  A task (with the default output directory) whose
    download fails on each of its [retries] attempts, at least one, calls
    the extractor exactly [retries] times and never succeeds.  When
    [failed.txt] is not a directory the task returns normally and the log
    grows by exactly one line, the URL.  When [failed.txt] is a directory,
    line 127 raises [IsADirectoryError] out of the task and nothing is
    logged. *)
Theorem C1_exhausted_retries_logged_once url retries w :
  (1 <= retries)%Z ->
  (forall i, i < Z.to_nat retries ->
     exists e, run_result (extractor url (attempts_of url (out w) + i)) = Raise e) ->
  exists r w' tr,
    download_video_with_progress extractor url OUTPUT_DIR retries w = (r, w') /\
    out w' = out w ++ tr /\
    attempts_of url tr = Z.to_nat retries /\
    ¬ succeeded url tr /\
    (((FAILED_LOG ∉ dirs w) /\ r = Ok tt /\ failed url tr /\
      files w' !! FAILED_LOG =
        Some (file_text w FAILED_LOG +:+ url +:+ newline)) \/
     (FAILED_LOG ∈ dirs w /\ r = Raise (IsADirectoryError FAILED_LOG) /\
      ¬ failed url tr /\
      files w' !! FAILED_LOG = files w !! FAILED_LOG)).
Proof.
  intros Hr Hfail.
  destruct (task_cases url retries w Hr)
    as (r & w' & tr & Hrun & Ho & _ & _ & _ & Hend).
  exists r, w', tr. split; [done |]. split; [done |].
  destruct Hend as [j tr0 Hj Htr Hn Hs Hf He Hlog Hok | Hnd Hn Hs Hf He Hlog
                   | Hdir Hn Hs Hf He Hlog].
  - destruct (Hfail j Hj) as [e He']. congruence.
  - split; [done |]. split; [done |]. by left.
  - split; [done |]. split; [done |]. by right.
Qed.


(** C10.  With [retries <= 0] the loop body never runs: whatever the
    output directory, the call does what lines 97-98 do and nothing else,
    and with the default directory it returns normally; the extractor is
    not called, nothing is printed, no file and no bar changes, so the task
    has neither succeeded nor failed. *)
Theorem C10_no_retries_no_attempts url retries w :
  (retries <= 0)%Z ->
  (forall output_dir,
     download_video_with_progress extractor url output_dir retries w =
     ensure_output_dir output_dir w) /\
  exists w',
    download_video_with_progress extractor url OUTPUT_DIR retries w
      = (Ok tt, w') /\
    out w' = out w /\
    files w' = files w /\
    progress_bars w' = progress_bars w /\
    (forall tr, out w' = out w ++ tr ->
       attempts_of url tr = 0 /\ ¬ succeeded url tr /\ ¬ failed url tr).
Proof.
  intros Hr. split.
  - intros output_dir. unfold download_video_with_progress, retry_loop.
    rewrite py_range_empty by lia. unfold bind.
    by destruct (ensure_output_dir output_dir w) as [[[]|e] w1].
  - rewrite download_video_with_progress_default.
    unfold retry_loop. rewrite py_range_empty by lia.
    exists (with_output_dir w). split; [reflexivity |].
    rewrite with_output_dir_out, with_output_dir_files, with_output_dir_bars.
    repeat split; try done.
    + apply (f_equal (@length event)) in H. rewrite length_app in H.
      destruct tr; [done | simpl in H; lia].
    + intros Hs. apply (f_equal (@length event)) in H. rewrite length_app in H.
      destruct tr; [done | simpl in H; lia].
    + intros Hs. apply (f_equal (@length event)) in H. rewrite length_app in H.
      destruct tr; [done | simpl in H; lia].
Qed.

End TaskFacts.

Lemma C1_witness :
  exists r w' tr,
    download_video_with_progress unreachable_site "v" OUTPUT_DIR 2 fresh_world
      = (r, w') /\
    out w' = out fresh_world ++ tr /\
    attempts_of "v" tr = Z.to_nat 2 /\
    ¬ succeeded "v" tr /\
    (((FAILED_LOG ∉ dirs fresh_world) /\ r = Ok tt /\ failed "v" tr /\
      files w' !! FAILED_LOG =
        Some (file_text fresh_world FAILED_LOG +:+ "v" +:+ newline)) \/
     (FAILED_LOG ∈ dirs fresh_world /\
      r = Raise (IsADirectoryError FAILED_LOG) /\
      ¬ failed "v" tr /\
      files w' !! FAILED_LOG = files fresh_world !! FAILED_LOG)).
Proof.
  apply C1_exhausted_retries_logged_once.
  - lia.
  - intros i _. eexists. reflexivity.
Defined.

(** C1 as it is worded fails when [failed.txt] is a directory: both
    attempts fail, the task ends with [IsADirectoryError], and no entry is
    appended to the log. *)
Lemma C1_counterexample :
  let rw := download_video_with_progress unreachable_site "v" OUTPUT_DIR 2
              log_is_directory in
  (forall i, i < 2 ->
     run_result (unreachable_site "v" i) = Raise (DownloadError "unavailable")) /\
  fst rw = Raise (IsADirectoryError FAILED_LOG) /\
  attempts_of "v" (out (snd rw)) = 2 /\
  files (snd rw) !! FAILED_LOG = None /\
  ¬ failed "v" (out (snd rw)).
Proof.
  vm_compute. repeat split.
  intros [H | [H | [H | [H | []]]]]; discriminate.
Qed.


Lemma C10_witness :
  (forall output_dir,
     download_video_with_progress third_time_lucky "v" output_dir 0 fresh_world =
     ensure_output_dir output_dir fresh_world) /\
  exists w',
    download_video_with_progress third_time_lucky "v" OUTPUT_DIR 0 fresh_world
      = (Ok tt, w') /\
    out w' = out fresh_world /\
    files w' = files fresh_world /\
    progress_bars w' = progress_bars fresh_world /\
    (forall tr, out w' = out fresh_world ++ tr ->
       attempts_of "v" tr = 0 /\ ¬ succeeded "v" tr /\ ¬ failed "v" tr).
Proof. apply C10_no_retries_no_attempts. lia. Defined.

(** ** Link discovery *)

(** [str_in] is the substring test. *)
Lemma prefix_app (n h : string) :
  String.prefix n h = true <-> exists post, h = n +:+ post.
Proof.
  revert n. induction h as [|c' h IH]; intros [|c n]; simpl.
  - split; [intros _; by exists "" | done].
  - split; [done | intros [post H]; discriminate].
  - split; [intros _; by exists (String c' h) | done].
  - destruct (Ascii.ascii_dec c c') as [->|Hne].
    + rewrite IH. split; intros [post H]; exists post.
      * by rewrite H.
      * by injection H.
    + split; [done |]. intros [post H]. injection H. congruence.
Qed.

Lemma str_in_spec (n h : string) :
  str_in n h = true <-> exists pre post, h = pre +:+ n +:+ post.
Proof.
  induction h as [|c h IH]; cbn [str_in].
  - rewrite orb_false_r, prefix_app. split.
    + intros [post H]. by exists "", post.
    + intros (pre & post & H). destruct pre; [by exists post |]. discriminate.
  - rewrite orb_true_iff, prefix_app, IH. split.
    + intros [[post H] | (pre & post & H)].
      * by exists "", post.
      * exists (String c pre), post. simpl. by rewrite H.
    + intros (pre & post & H). destruct pre as [|c' pre]; simpl in H.
      * left. by exists post.
      * right. exists pre, post. by injection H.
Qed.

Lemma any_video_domain_spec s :
  any_video_domain s = true <->
  exists d, In d VIDEO_DOMAINS /\ str_in d s = true.
Proof. unfold any_video_domain. apply existsb_exists. Qed.

Lemma attr_values_none k keep tags :
  (forall t v, In t tags -> tag_get t k = Some v ->
     str_truthy (Some v) && keep v = false) ->
  attr_values k keep tags = [].
Proof.
  unfold attr_values. induction tags as [|t tags IH]; intros H; [done |].
  cbn [omap list_omap]. destruct (tag_get t k) as [v|] eqn:E.
  - rewrite (H t v) by (simpl; auto). apply IH.
    intros t' v' Hin. apply H. simpl. auto.
  - apply IH. intros t' v' Hin. apply H. simpl. auto.
Qed.

Lemma dedup_nonempty_nil : dedup_nonempty [] = [].
Proof. unfold dedup_nonempty. simpl. apply elements_empty. Qed.

Lemma http_fetches_app tr1 tr2 :
  http_fetches (tr1 ++ tr2) = http_fetches tr1 + http_fetches tr2.
Proof. unfold http_fetches. by rewrite List.filter_app, length_app. Qed.

Section DiscoveryFacts.

Variable urlparse_netloc : string -> result string.
Variable requests_get : string -> Z -> result response.
Variable soup : Type.
Variable BeautifulSoup : string -> string -> result soup.
Variable find_all : soup -> string -> result (list tag).

Local Abbreviation discover :=
  (extract_video_urls urlparse_netloc requests_get soup BeautifulSoup find_all).
Local Abbreviation scan :=
  (scan_page requests_get soup BeautifulSoup find_all).
Local Abbreviation raises :=
  (scan_raises requests_get soup BeautifulSoup find_all).

(** C4. When the host of the URL contains one of the recognised video
    domains, discovery returns the list holding just that URL; all it
    does is print one line, so no page is fetched. *)
Theorem C4_video_domain_bypasses_fetch url domain d w :
  urlparse_netloc url = Ok domain ->
  In d VIDEO_DOMAINS -> str_in d domain = true ->
  exists w',
    discover url w = (Ok [url], w') /\
    out w' = out w ++ [EvPrint (MsgDetected domain)] /\
    http_fetches (out w') = http_fetches (out w).
Proof.
  intros Hn Hd Hin.
  assert (Hany : any_video_domain domain = true)
    by (apply any_video_domain_spec; eauto).
  unfold extract_video_urls, lift, bind at 1. rewrite Hn, Hany.
  eexists. split; [reflexivity |]. cbn [out emit]. split; [done |].
  rewrite http_fetches_app. cbn. lia.
Qed.

(** The scan of a page that was fetched and parsed and has no candidate
    element. *)
Lemma scan_page_no_candidates url r sp videos iframes anchors w :
  requests_get url TIMEOUT = Ok r -> http_error r = false ->
  BeautifulSoup (text r) "html.parser" = Ok sp ->
  find_all sp "video" = Ok videos ->
  find_all sp "iframe" = Ok iframes ->
  find_all sp "a" = Ok anchors ->
  attr_values "src" (fun _ => true) videos = [] ->
  attr_values "src" any_video_domain iframes = [] ->
  attr_values "href" any_video_domain anchors = [] ->
  scan url w =
    (Ok [url], emit (EvPrint MsgNoLinks) (emit (EvHttpGet url TIMEOUT) w)).
Proof.
  intros Hg Hs Hp Hv Hi Ha Ev Ei Ea.
  unfold scan_page, http_get, raise_for_status, lift, bind.
  rewrite Hg, Hs. unfold ret. rewrite Hp, Hv, Hi, Ha, Ev, Ei, Ea.
  simpl. rewrite dedup_nonempty_nil. reflexivity.
Qed.

(** C5. When the page was fetched and parsed and holds no [<video>] with
    a [src], no [<iframe>] whose [src] names a video domain and no [<a>]
    whose [href] names one, discovery returns the list holding just the
    original URL. *)
Theorem C5_no_candidates_falls_back url domain r sp videos iframes anchors w :
  urlparse_netloc url = Ok domain ->
  requests_get url TIMEOUT = Ok r -> http_error r = false ->
  BeautifulSoup (text r) "html.parser" = Ok sp ->
  find_all sp "video" = Ok videos ->
  find_all sp "iframe" = Ok iframes ->
  find_all sp "a" = Ok anchors ->
  (forall t, In t videos -> tag_get t "src" = None) ->
  (forall t v, In t iframes -> tag_get t "src" = Some v ->
     any_video_domain v = false) ->
  (forall t v, In t anchors -> tag_get t "href" = Some v ->
     any_video_domain v = false) ->
  exists w', discover url w = (Ok [url], w').
Proof.
  intros Hn Hg Hs Hp Hv Hi Ha Nv Ni Na.
  unfold extract_video_urls, lift, bind at 1. rewrite Hn.
  destruct (any_video_domain domain); [by eexists |].
  unfold bind at 1, print, try_except.
  rewrite (scan_page_no_candidates url r sp videos iframes anchors); try done.
  - by eexists.
  - apply attr_values_none. intros t v Hin Hget. rewrite Nv in Hget; done.
  - apply attr_values_none. intros t v Hin Hget.
    rewrite (Ni t v Hin Hget). apply andb_false_r.
  - apply attr_values_none. intros t v Hin Hget.
    rewrite (Na t v Hin Hget). apply andb_false_r.
Qed.

(** A failing fetch or parse makes the [try] block raise, with only the
    page request in the trace. *)
Lemma scan_page_raises url e w :
  raises url e ->
  scan url w = (Raise e, emit (EvHttpGet url TIMEOUT) w).
Proof.
  intros H. unfold scan_page, http_get, raise_for_status, lift, bind.
  destruct H as [Hg | r Hg Hs -> | r Hg Hs Hp | r sp Hg Hs Hp Hv
                | r sp vs Hg Hs Hp Hv Hi | r sp vs fs Hg Hs Hp Hv Hi Ha];
    rewrite Hg; try rewrite Hs; try done; unfold ret; rewrite Hp; try done;
    rewrite Hv; try done; rewrite Hi; try done; by rewrite Ha.
Qed.

(** C6. When the URL is not on a video domain and the page fetch or
    parse raises [e], discovery prints the error and returns the empty
    list; nothing is raised, and whatever was collected before the
    failure is dropped. *)
Theorem C6_scan_failure_yields_empty url domain e w :
  urlparse_netloc url = Ok domain ->
  any_video_domain domain = false ->
  raises url e ->
  discover url w =
    (Ok [],
     mkWorld (dirs w) (files w) (progress_bars w)
             (out w ++ [EvPrint MsgScanning; EvHttpGet url TIMEOUT;
                        EvPrint (MsgExtractFailed e)])).
Proof.
  intros Hn Hd Hr.
  unfold extract_video_urls, lift, bind at 1. rewrite Hn, Hd.
  unfold bind at 1, print, try_except.
  rewrite (scan_page_raises url e _ Hr).
  unfold bind, ret, emit. simpl. by rewrite <- !app_assoc.
Qed.

(** An exception of [urlparse] itself (line 25) is outside the [try]
    block and leaves the function. *)
Lemma extract_video_urls_invalid_url url e w :
  urlparse_netloc url = Raise e -> discover url w = (Raise e, w).
Proof.
  intros H. unfold extract_video_urls, lift, bind. by rewrite H.
Qed.

End DiscoveryFacts.

(** ** The thread pool *)

Lemma filter_length_insert {A} (f : A -> bool) (l : list A) i x y :
  l !! i = Some x ->
  length (List.filter f (<[i:=y]> l)) + (if f x then 1 else 0) =
  length (List.filter f l) + (if f y then 1 else 0).
Proof.
  revert i. induction l as [|a l IH]; intros [|i] H; simpl in *; try done.
  - injection H as ->. destruct (f x), (f y); simpl; lia.
  - specialize (IH i H). destruct (f a); simpl; lia.
Qed.

Lemma filter_length_all {A} (f : A -> bool) (l : list A) :
  Forall (fun x => f x = true) l -> length (List.filter f l) = length l.
Proof.
  induction 1 as [|x l Hx _ IH]; [done |]. simpl. rewrite Hx. simpl. by rewrite IH.
Qed.

Lemma started_of_can_start i ts a ta :
  can_start i ts = true -> a < i -> ts !! a = Some ta -> started ta = true.
Proof.
  unfold can_start. intros H Ha Hl. apply andb_true_iff in H as [H _].
  rewrite forallb_forall in H. apply H. apply list_elem_of_In.
  apply list_elem_of_lookup. exists a. by rewrite lookup_take_lt.
Qed.

Section PoolFacts.

Variable extractor : string -> nat -> ydl_run.

Local Abbreviation wstep := (work_step extractor).
Local Abbreviation step := (step extractor).

(** A worker step changes nothing, or moves its own task along one edge
    and leaves the counter and the main thread alone. *)
Lemma work_step_shape i p :
  wstep i p = p \/
  exists t c' w',
    p_tasks p !! i = Some t /\
    work_edge (p_tasks p) i (t_pc t) c' /\
    wstep i p =
      mkPool w' (<[i := mkTask (t_url t) c' (t_yielded t)]> (p_tasks p))
             (p_total p) (p_n p) (p_main p).
Proof.
  unfold work_step.
  destruct (p_tasks p !! i) as [t|] eqn:Hl; [| by left].
  destruct (t_pc t) eqn:Hpc.
  - destruct (can_start i (p_tasks p)) eqn:Hc; [| by left].
    right. exists t, AtExists, (p_world p). unfold set_pc. rewrite Hl, Hpc.
    repeat split. by constructor.
  - right. unfold os_path_exists, set_pc, set_world. simpl. rewrite Hl.
    destruct (negb _); eexists t, _, _; (split; [done |]);
      (split; [| reflexivity]); rewrite Hpc; constructor.
  - right. rewrite os_makedirs_output_dir. unfold set_pc, set_world.
    destruct (path_exists _ _); simpl; rewrite Hl;
      eexists t, _, _; (split; [done |]); (split; [| reflexivity]);
      rewrite Hpc; constructor.
  - right.
    destruct (retry_loop _ _ _ _ _) as [r w'].
    unfold set_pc, set_world. simpl. rewrite Hl.
    eexists t, _, _. split; [done |]. split; [| reflexivity].
    rewrite Hpc. constructor.
  - by left.
Qed.

(** Collecting a future changes nothing, or marks a finished future
    that was not yet yielded and adds one to the counter.  The handler
    catches whatever the future raised. *)
Lemma collect_step_shape i p :
  collect_step i p = p \/
  exists t r w',
    p_main p = MainLoop /\
    p_tasks p !! i = Some t /\ t_pc t = Finished r /\ t_yielded t = false /\
    collect_step i p =
      mkPool w' (<[i := mkTask (t_url t) (Finished r) true]> (p_tasks p))
             (p_total p) (p_n p + 1) MainLoop.
Proof.
  unfold collect_step.
  destruct (p_main p) eqn:Hm; try by left.
  destruct (p_tasks p !! i) as [t|] eqn:Hl; [| by left].
  destruct (t_pc t) as [| | | |r] eqn:Hpc; try by left.
  destruct (t_yielded t) eqn:Hy; [by left |].
  right. unfold try_except, lift.
  destruct r as [[]|e]; simpl; eexists t, _, _; by rewrite Hpc.
Qed.

Lemma close_step_shape p :
  close_step p = p \/
  exists w',
    p_main p = MainLoop /\ forallb t_yielded (p_tasks p) = true /\
    close_step p = mkPool w' (p_tasks p) (p_total p) (p_n p) MainClosed.
Proof.
  unfold close_step. destruct (p_main p); try by left.
  destruct (forallb t_yielded (p_tasks p)); [| by left].
  right. by eexists.
Qed.

(** Every step keeps the invariant. *)
Lemma step_inv p a : pool_inv p -> pool_inv (step p a).
Proof.
  intros [Ht Hc Hy Ha Hcl Hf]. destruct a as [i|i|]; simpl.
  - destruct (work_step_shape i p) as [-> | (t & c' & w' & Hl & He & ->)];
      [by constructor |].
    assert (Hnf : finished t = false)
      by (unfold finished; by destruct He).
    assert (Hny : t_yielded t = false).
    { destruct (t_yielded t) eqn:E; [| done].
      rewrite Forall_lookup in Hy. specialize (Hy i t Hl E). congruence. }
    constructor; simpl.
    + by rewrite length_insert.
    + pose proof (filter_length_insert t_yielded (p_tasks p) i t
                    (mkTask (t_url t) c' (t_yielded t)) Hl) as Hlen.
      simpl in Hlen. rewrite Hc. destruct (t_yielded t); lia.
    + apply Forall_insert; [done |]. simpl. congruence.
    + done.
    + intros Hm. apply Forall_insert; [by apply Hcl |]. simpl.
      specialize (Hcl Hm). rewrite Forall_lookup in Hcl. by apply (Hcl i).
    + intros a b ta tb Hab Hla Hlb Hs.
      assert (Hnew : started (mkTask (t_url t) c' (t_yielded t)) = true)
        by (unfold started; simpl; by destruct He).
      destruct (decide (a = i)) as [->|Hai].
      * rewrite list_lookup_insert_eq in Hla by (by eapply lookup_lt_Some).
        by injection Hla as <-.
      * rewrite list_lookup_insert_ne in Hla by done.
        destruct (decide (b = i)) as [->|Hbi].
        -- destruct (started t) eqn:Est; [by eapply (Hf a i) |].
           assert (t_pc t = Queued) as Hq
             by (unfold started in Est; by destruct (t_pc t)).
           rewrite Hq in He. inversion He; subst.
           by eapply started_of_can_start.
        -- rewrite list_lookup_insert_ne in Hlb by done. by eapply (Hf a b).
  - destruct (collect_step_shape i p)
      as [-> | (t & r & w' & Hm & Hl & Hpc & Hny & ->)]; [by constructor |].
    constructor; simpl.
    + by rewrite length_insert.
    + pose proof (filter_length_insert t_yielded (p_tasks p) i t
                    (mkTask (t_url t) (Finished r) true) Hl) as Hlen.
      simpl in Hlen. rewrite Hny in Hlen. rewrite Hc. lia.
    + by apply Forall_insert.
    + done.
    + done.
    + intros a b ta tb Hab Hla Hlb Hs.
      destruct (decide (a = i)) as [->|Hai].
      * rewrite list_lookup_insert_eq in Hla by (by eapply lookup_lt_Some).
        by injection Hla as <-.
      * rewrite list_lookup_insert_ne in Hla by done.
        destruct (decide (b = i)) as [->|Hbi].
        -- eapply (Hf a i); try done. unfold started. by rewrite Hpc.
        -- rewrite list_lookup_insert_ne in Hlb by done. by eapply (Hf a b).
  - destruct (close_step_shape p) as [-> | (w' & Hm & Hall & ->)];
      [by constructor |].
    constructor; simpl; try done.
    intros _. apply Forall_forall. intros t Hin.
    rewrite forallb_forall in Hall. apply Hall. by apply list_elem_of_In.
Qed.

Lemma init_pool_inv video_urls w : pool_inv (init_pool video_urls w).
Proof.
  constructor; simpl.
  - by rewrite length_map.
  - induction video_urls; simpl; [done | done].
  - apply Forall_forall. intros t Hin. apply list_elem_of_In, in_map_iff in Hin.
    destruct Hin as (u & <- & _). done.
  - done.
  - done.
  - intros i j ti tj _ _ Hj Hs. apply list_elem_of_lookup_2 in Hj.
    apply list_elem_of_In, in_map_iff in Hj. destruct Hj as (u & <- & _). done.
Qed.

Lemma run_inv schedule p : pool_inv p -> pool_inv (fold_left step schedule p).
Proof.
  revert p. induction schedule as [|a schedule IH]; intros p H; [done |].
  simpl. apply IH. by apply step_inv.
Qed.

(** *** Progress: no reachable state is stuck *)

(** Finished futures stay finished and yielded futures stay yielded. *)
Lemma step_mono p a j t :
  p_tasks p !! j = Some t ->
  exists t', p_tasks (step p a) !! j = Some t' /\
             (finished t = true -> finished t' = true) /\
             (t_yielded t = true -> t_yielded t' = true).
Proof.
  intros Hj. destruct a as [i|i|]; simpl.
  - destruct (work_step_shape i p) as [-> | (t0 & c' & w' & Hl & He & ->)];
      [by exists t |]. simpl.
    destruct (decide (i = j)) as [->|Hne].
    + rewrite list_lookup_insert_eq by (by eapply lookup_lt_Some).
      eexists. split; [done |]. simplify_eq. simpl. split; [| done].
      unfold finished. by destruct He.
    + rewrite list_lookup_insert_ne by done. by exists t.
  - destruct (collect_step_shape i p)
      as [-> | (t0 & r & w' & Hm & Hl & Hpc & Hny & ->)]; [by exists t |].
    simpl. destruct (decide (i = j)) as [->|Hne].
    + rewrite list_lookup_insert_eq by (by eapply lookup_lt_Some).
      by eexists.
    + rewrite list_lookup_insert_ne by done. by exists t.
  - destruct (close_step_shape p) as [-> | (w' & Hm & Hall & ->)];
      by exists t.
Qed.

Lemma run_mono schedule : forall p j t,
  p_tasks p !! j = Some t ->
  exists t', p_tasks (fold_left step schedule p) !! j = Some t' /\
             (finished t = true -> finished t' = true) /\
             (t_yielded t = true -> t_yielded t' = true).
Proof.
  induction schedule as [|a schedule IH]; intros p j t Hj; [by exists t |].
  simpl. destruct (step_mono p a j t Hj) as (t1 & H1 & Hf1 & Hy1).
  destruct (IH _ j t1 H1) as (t2 & H2 & Hf2 & Hy2).
  exists t2. auto.
Qed.

Lemma run_length schedule p :
  length (p_tasks (fold_left step schedule p)) = length (p_tasks p).
Proof.
  revert p. induction schedule as [|a schedule IH]; intros p; [done |].
  simpl. rewrite IH. destruct a as [i|i|]; simpl.
  - destruct (work_step_shape i p) as [-> | (t0 & c' & w' & Hl & He & ->)];
      [done |]. simpl. apply length_insert.
  - destruct (collect_step_shape i p)
      as [-> | (t0 & r & w' & Hm & Hl & Hpc & Hny & ->)]; [done |].
    simpl. apply length_insert.
  - by destruct (close_step_shape p) as [-> | (w' & Hm & Hall & ->)].
Qed.

(** A worker that may start, or has started, gets one edge further with
    each step. *)
Lemma work_step_progress i p t :
  p_tasks p !! i = Some t ->
  (t_pc t = Queued -> can_start i (p_tasks p) = true) ->
  exists t', p_tasks (wstep i p) !! i = Some t' /\
             remaining (t_pc t') <= pred (remaining (t_pc t)).
Proof.
  intros Hl Hq. unfold work_step. rewrite Hl.
  assert (Hlt : i < length (p_tasks p)) by (by eapply lookup_lt_Some).
  destruct (t_pc t) eqn:Hpc.
  - rewrite Hq by done. unfold set_pc. rewrite Hl. simpl.
    rewrite list_lookup_insert_eq by done. eexists. split; [done |]. simpl. lia.
  - unfold os_path_exists, set_pc, set_world. simpl. rewrite Hl. simpl.
    rewrite list_lookup_insert_eq by done. eexists. split; [done |].
    simpl. destruct (negb _); simpl; lia.
  - rewrite os_makedirs_output_dir. unfold set_pc, set_world.
    destruct (path_exists _ _); simpl; rewrite Hl; simpl;
      rewrite list_lookup_insert_eq by done; (eexists; split; [done |]);
      simpl; lia.
  - destruct (retry_loop _ _ _ _ _) as [r w'].
    unfold set_pc, set_world. simpl. rewrite Hl. simpl.
    rewrite list_lookup_insert_eq by done. eexists. split; [done |]. simpl. lia.
  - exists t. rewrite Hpc. split; [done |]. simpl. lia.
Qed.

Lemma remaining_le c : remaining c <= 4.
Proof. destruct c; simpl; lia. Qed.

Lemma remaining_0 t : remaining (t_pc t) = 0 -> finished t = true.
Proof. unfold finished. by destruct (t_pc t). Qed.

(** Four steps are enough to finish a future that may start. *)
Lemma work_four_times i p t :
  p_tasks p !! i = Some t ->
  (t_pc t = Queued -> can_start i (p_tasks p) = true) ->
  exists t',
    p_tasks (fold_left step [Work i; Work i; Work i; Work i] p) !! i = Some t' /\
    finished t' = true.
Proof.
  intros Hl Hq. simpl.
  pose proof (remaining_le (t_pc t)) as H0.
  destruct (work_step_progress i p t Hl Hq) as (t1 & Hl1 & H1).
  destruct (work_step_progress i _ t1 Hl1) as (t2 & Hl2 & H2).
  { intros E. rewrite E in H1. simpl in H1. lia. }
  destruct (work_step_progress i _ t2 Hl2) as (t3 & Hl3 & H3).
  { intros E. rewrite E in H2. simpl in H2. lia. }
  destruct (work_step_progress i _ t3 Hl3) as (t4 & Hl4 & H4).
  { intros E. rewrite E in H3. simpl in H3. lia. }
  exists t4. split; [done |]. apply remaining_0. lia.
Qed.

(** When everything before future [i] has finished and [i] itself is
    still queued, nothing is in flight and [i] may start. *)
Lemma can_start_next i p t :
  pool_inv p ->
  p_tasks p !! i = Some t -> t_pc t = Queued ->
  (forall a ta, a < i -> p_tasks p !! a = Some ta -> finished ta = true) ->
  can_start i (p_tasks p) = true.
Proof.
  intros Hinv Hl Hq Hbefore. unfold can_start. apply andb_true_iff. split.
  - apply forallb_forall. intros ta Hin.
    apply list_elem_of_In, list_elem_of_lookup in Hin as [a Ha].
    apply lookup_take_Some in Ha as [Ha Hlt].
    specialize (Hbefore a ta Hlt Ha). unfold finished in Hbefore.
    unfold started. by destruct (t_pc ta).
  - assert (Hnone : List.filter running (p_tasks p) = []).
    { destruct (List.filter running (p_tasks p)) as [|tb l] eqn:E; [done |].
      assert (Hin : In tb (List.filter running (p_tasks p)))
        by (rewrite E; simpl; auto).
      apply filter_In in Hin as [Hin Hrun].
      apply list_elem_of_In, list_elem_of_lookup in Hin as [b Hb].
      destruct (Nat.lt_trichotomy b i) as [Hlt | [-> | Hgt]].
      - specialize (Hbefore b tb Hlt Hb). unfold finished in Hbefore.
        unfold running in Hrun. by destruct (t_pc tb).
      - simplify_eq. unfold running in Hrun. by rewrite Hq in Hrun.
      - assert (started t = true).
        { eapply (inv_fifo p Hinv i b); try done.
          unfold running in Hrun. unfold started. by destruct (t_pc tb). }
        unfold started in H. by rewrite Hq in H. }
    rewrite Hnone. reflexivity.
Qed.

(** Running the futures one after the other finishes all of them. *)
Lemma work_phase k : forall p,
  pool_inv p ->
  forall a ta,
    a < k ->
    p_tasks (fold_left step
               (flat_map (fun i => [Work i; Work i; Work i; Work i]) (seq 0 k))
               p) !! a = Some ta ->
    finished ta = true.
Proof.
  induction k as [|k IH]; intros p Hinv a ta Ha Hl; [lia |].
  rewrite seq_S, flat_map_app, fold_left_app in Hl. simpl in Hl.
  set (pk := fold_left step _ p) in *.
  assert (Hk : pool_inv pk) by (by apply run_inv).
  change (wstep k (wstep k (wstep k (wstep k pk))))
    with (fold_left step [Work k; Work k; Work k; Work k] pk) in Hl.
  destruct (decide (a = k)) as [->|Hne].
  - assert (Hlen : k < length (p_tasks pk)).
    { apply lookup_lt_Some in Hl. by rewrite run_length in Hl. }
    destruct (lookup_lt_is_Some_2 _ _ Hlen) as [t Ht].
    destruct (work_four_times k pk t Ht) as (t' & Ht' & Hf).
    + intros Hq. eapply can_start_next; try done.
      intros b tb Hb Hlb. by eapply (IH p Hinv b).
    + by simplify_eq.
  - assert (Hlen : a < length (p_tasks pk)).
    { apply lookup_lt_Some in Hl. by rewrite run_length in Hl. }
    destruct (lookup_lt_is_Some_2 _ _ Hlen) as [t Ht].
    destruct (run_mono [Work k; Work k; Work k; Work k] pk a t Ht)
      as (t' & Ht' & Hf & _).
    simplify_eq. apply Hf. eapply (IH p Hinv a); [lia | done].
Qed.

Lemma closed_stays schedule : forall p,
  p_main p = MainClosed -> p_main (fold_left step schedule p) = MainClosed.
Proof.
  induction schedule as [|a schedule IH]; intros p Hm; [done |].
  simpl. apply IH. destruct a as [i|i|]; simpl.
  - by destruct (work_step_shape i p) as [-> | (t0 & c' & w' & Hl & He & ->)].
  - destruct (collect_step_shape i p)
      as [-> | (t0 & r & w' & Hm' & _)]; [done | congruence].
  - destruct (close_step_shape p) as [-> | (w' & Hm' & _)]; [done | congruence].
Qed.

(** Collecting a finished future marks it as yielded. *)
Lemma collect_step_yields i p t :
  p_main p = MainLoop -> p_tasks p !! i = Some t -> finished t = true ->
  p_main (collect_step i p) = MainLoop /\
  exists t', p_tasks (collect_step i p) !! i = Some t' /\ t_yielded t' = true.
Proof.
  intros Hm Hl Hf. unfold collect_step. rewrite Hm, Hl.
  unfold finished in Hf. destruct (t_pc t) as [| | | |r] eqn:Hpc; try done.
  destruct (t_yielded t) eqn:Hy; [by eauto |].
  unfold try_except, lift. destruct r as [[]|e]; simpl;
    (split; [done |]); rewrite list_lookup_insert_eq
      by (by eapply lookup_lt_Some); by eexists.
Qed.

Lemma collect_phase k : forall p,
  p_main p = MainLoop ->
  (forall a ta, p_tasks p !! a = Some ta -> finished ta = true) ->
  let p' := fold_left step (map Collect (seq 0 k)) p in
  p_main p' = MainLoop /\
  forall a ta, a < k -> p_tasks p' !! a = Some ta -> t_yielded ta = true.
Proof.
  induction k as [|k IH]; intros p Hm Hfin; [split; [done | lia] |].
  rewrite seq_S, map_app, fold_left_app. simpl.
  destruct (IH p Hm Hfin) as [Hmk Hyk].
  set (pk := fold_left step (map Collect (seq 0 k)) p) in *.
  assert (Hfink : forall a ta, p_tasks pk !! a = Some ta -> finished ta = true).
  { intros a ta Ha.
    assert (Hlen : a < length (p_tasks p)).
    { apply lookup_lt_Some in Ha. unfold pk in Ha.
      by rewrite run_length in Ha. }
    destruct (lookup_lt_is_Some_2 _ _ Hlen) as [t Ht].
    destruct (run_mono (map Collect (seq 0 k)) p a t Ht) as (t' & Ht' & Hf & _).
    fold pk in Ht'. simplify_eq. apply Hf. by eapply Hfin. }
  destruct (p_tasks pk !! k) as [t|] eqn:Hlk.
  - destruct (collect_step_yields k pk t Hmk Hlk (Hfink _ _ Hlk))
      as [Hm' (t' & Hl' & Hy')].
    split; [done |]. intros a ta Ha Hla.
    destruct (decide (a = k)) as [->|Hne]; [by simplify_eq |].
    assert (Hlen : a < length (p_tasks pk)).
    { apply lookup_lt_Some in Hla.
      pose proof (run_length [Collect k] pk) as HL. simpl in HL.
      by rewrite HL in Hla. }
    destruct (lookup_lt_is_Some_2 _ _ Hlen) as [tk Htk].
    destruct (run_mono [Collect k] pk a tk Htk) as (tk' & Htk' & _ & Hy).
    simpl in Htk'. simplify_eq. apply Hy. eapply (Hyk a); [lia | done].
  - assert (Hsame : collect_step k pk = pk)
      by (unfold collect_step; by rewrite Hmk, Hlk).
    rewrite Hsame. split; [done |]. intros a ta Ha Hla.
    destruct (decide (a = k)) as [->|Hne]; [congruence |].
    eapply (Hyk a); [lia | done].
Qed.

(** From every state that satisfies the invariant, the sequential
    schedule brings the main thread out of its loop. *)
Lemma run_completes p :
  pool_inv p ->
  p_main (fold_left step (sequential_schedule (length (p_tasks p))) p)
    = MainClosed.
Proof.
  intros Hinv. unfold sequential_schedule. rewrite !fold_left_app.
  set (n := length (p_tasks p)).
  set (p1 := fold_left step (flat_map _ (seq 0 n)) p).
  assert (Hinv1 : pool_inv p1) by (by apply run_inv).
  assert (Hlen1 : length (p_tasks p1) = n) by apply run_length.
  assert (Hfin : forall a ta, p_tasks p1 !! a = Some ta -> finished ta = true).
  { intros a ta Ha. eapply (work_phase n p Hinv a); [| exact Ha].
    apply lookup_lt_Some in Ha. lia. }
  destruct (p_main p1) eqn:Hm1.
  - destruct (collect_phase n p1 Hm1 Hfin) as [Hm2 Hy].
    set (p2 := fold_left step (map Collect (seq 0 n)) p1) in *.
    simpl. unfold close_step. rewrite Hm2.
    assert (Hall : forallb t_yielded (p_tasks p2) = true).
    { apply forallb_forall. intros t Hin.
      apply list_elem_of_In, list_elem_of_lookup in Hin as [a Ha].
      eapply (Hy a); [| done]. apply lookup_lt_Some in Ha.
      unfold p2 in Ha. rewrite run_length in Ha. lia. }
    by rewrite Hall.
  - by destruct (inv_not_aborted p1 Hinv1 e).
  - rewrite <- fold_left_app. by apply closed_stays.
Qed.

(** The counter moves only when the main thread collects a finished
    future, and then by one. *)
Lemma step_counter p a :
  p_n (step p a) = p_n p \/
  exists i t r,
    a = Collect i /\ p_tasks p !! i = Some t /\ t_pc t = Finished r /\
    t_yielded t = false /\ p_n (step p a) = (p_n p + 1)%Z.
Proof.
  destruct a as [i|i|]; simpl.
  - left. by destruct (work_step_shape i p) as [-> | (t & c' & w' & _ & _ & ->)].
  - destruct (collect_step_shape i p)
      as [-> | (t & r & w' & Hm & Hl & Hpc & Hny & ->)]; [by left |].
    right. by exists i, t, r.
  - left. by destruct (close_step_shape p) as [-> | (w' & _ & _ & ->)].
Qed.

(** *** What the futures end with *)

Local Abbreviation kind := (step_kind extractor).

(** Every step is of one of the kinds of [step_kind]. *)
Lemma step_kind_of_step p a : kind p a (step p a).
Proof.
  destruct a as [i|i|]; simpl.
  - unfold work_step.
    destruct (p_tasks p !! i) as [t|] eqn:Hl; [| constructor].
    destruct (t_pc t) eqn:Hpc.
    + destruct (can_start i (p_tasks p)) eqn:Hc; [| constructor].
      unfold set_pc. rewrite Hl. by apply sk_start.
    + unfold os_path_exists, set_pc, set_world. simpl. rewrite Hl.
      pose proof (sk_check extractor p i t Hl Hpc) as H.
      by destruct (path_exists OUTPUT_DIR (p_world p)).
    + rewrite os_makedirs_output_dir. unfold set_pc, set_world.
      destruct (path_exists OUTPUT_DIR (p_world p)) eqn:E; simpl; rewrite Hl.
      * by apply sk_collide.
      * by apply sk_create.
    + pose proof (sk_loop extractor p i t Hl Hpc) as H.
      unfold pool_loop in H.
      destruct (retry_loop _ _ _ _ _) as [r w'].
      unfold set_pc, set_world. simpl. by rewrite Hl.
    + constructor.
  - unfold collect_step.
    destruct (p_main p) eqn:Hm; try constructor.
    destruct (p_tasks p !! i) as [t|] eqn:Hl; [| constructor].
    destruct (t_pc t) as [| | | |r] eqn:Hpc; try constructor.
    destruct (t_yielded t) eqn:Hy; [constructor |].
    pose proof (sk_collect extractor p i t r Hm Hl Hpc Hy) as H.
    unfold try_except, lift. by destruct r as [[]|e].
  - unfold close_step. destruct (p_main p) eqn:Hm; try constructor.
    destruct (forallb t_yielded (p_tasks p)) eqn:Hall; [| constructor].
    by apply sk_close.
Qed.

(** A property of pools kept by every kind of step holds after every
    schedule. *)
Lemma run_invariant (P : pool -> Prop) :
  (forall p a p', P p -> kind p a p' -> P p') ->
  forall schedule p, P p -> P (fold_left step schedule p).
Proof.
  intros Hstep schedule. induction schedule as [|a schedule IH]; intros p Hp;
    [done |].
  simpl. apply IH. eapply Hstep; [done |]. apply step_kind_of_step.
Qed.

Lemma lookup_with_task (ts : list task) i x j t :
  <[i:=x]> ts !! j = Some t ->
  (j = i /\ t = x) \/ (j <> i /\ ts !! j = Some t).
Proof.
  intros H. apply list_lookup_insert_Some in H as [(-> & <- & _) | (? & ?)];
    [by left | right; split; [congruence | done]].
Qed.

(** The retry loop of a worker: [MAX_RETRIES] is 10, so it makes at least
    one attempt and ends in one of the ways of [task_end]. *)
Lemma pool_loop_cases url w :
  exists r w' tr,
    pool_loop extractor url w = (r, w') /\
    out w' = out w ++ tr /\
    dirs w' = dirs w /\
    task_frame url w w' /\
    Forall (task_event url) tr /\
    task_end extractor url MAX_RETRIES w w' tr r.
Proof. by apply retry_loop_cases. Qed.

Lemma settled_later tr tr' t : settled tr t -> settled (tr ++ tr') t.
Proof.
  intros H r Hr. destruct (H r Hr) as [[-> Hs] | Hx]; [left | by right].
  split; [done |]. unfold succeeded, failed in *. rewrite !in_app_iff.
  tauto.
Qed.

(** Whatever the schedule, every future that is done is settled. *)
Lemma run_settled video_urls schedule w :
  let p := download_videos_in_parallel extractor video_urls schedule w in
  exists tr, out (p_world p) = out w ++ tr /\ Forall (settled tr) (p_tasks p).
Proof.
  unfold download_videos_in_parallel.
  apply (run_invariant (fun p =>
           exists tr, out (p_world p) = out w ++ tr /\
                      Forall (settled tr) (p_tasks p))).
  - intros p a p' (tr & Ho & Hall) Hk.
    destruct Hk as [a | i t Hl Hpc Hcan | i t Hl Hpc | i t Hl Hpc Hex
                   | i t Hl Hpc Hex | i t Hl Hpc
                   | i t r Hmain Hl Hpc Hy | Hmain Hall']; simpl.
    + by exists tr.
    + exists tr. split; [done |]. apply Forall_insert; [done |]. by intros r.
    + exists tr. split; [done |]. apply Forall_insert; [done |].
      intros r. simpl. by destruct (path_exists _ _).
    + exists tr. split; [done |]. apply Forall_insert; [done |]. by intros r.
    + exists tr. split; [done |]. apply Forall_insert; [done |].
      intros r [= <-]. right. by left.
    + destruct (pool_loop_cases (t_url t) (p_world p))
        as (r & w' & tr' & -> & Ho' & _ & _ & _ & Hend). simpl.
      exists (tr ++ tr'). split; [by rewrite Ho', Ho, app_assoc |].
      apply Forall_insert.
      * eapply Forall_impl; [exact Hall |]. intros t0. apply settled_later.
      * intros r0 [= <-]. simpl.
        destruct Hend as [j tr0 Hj -> Hn Hs Hf He Hlog Hok | Hnd Hn Hs Hf He Hlog
                         | Hdir Hn Hs Hf He Hlog].
        -- left. split; [done |]. left. unfold succeeded.
           rewrite !in_app_iff. right. right. by left.
        -- left. split; [done |]. right. unfold failed in *.
           rewrite in_app_iff. by right.
        -- right. by right.
    + assert (Hold : settled tr t) by (rewrite Forall_lookup in Hall; by eapply Hall).
      destruct r as [[]|e]; simpl.
      * exists tr. split; [done |]. apply Forall_insert; [done |].
        intros r0 [= <-]. simpl. apply Hold. exact Hpc.
      * exists (tr ++ [EvPrint (MsgErrorDownloading (t_url t) e)]).
        split; [by rewrite Ho, app_assoc |]. apply Forall_insert.
        -- eapply Forall_impl; [exact Hall |]. intros t0. apply settled_later.
        -- intros r0 [= <-]. simpl. apply (settled_later _ _ _ Hold). exact Hpc.
    + by exists tr.
  - exists []. split; [by rewrite app_nil_r |]. simpl.
    apply Forall_forall. intros t Hin.
    apply list_elem_of_In, in_map_iff in Hin as (u & <- & _). by intros r.
Qed.

(** C3, as amended.  Whatever the schedule and whatever the tasks do: the
    overall counter moves only when the main thread collects a future that
    is done, so it is the number of futures [as_completed] has handed out;
    each of them is done, which means that its task returned having
    succeeded or failed, or that it raised [FileExistsError] (the race on
    the output directory) or [IsADirectoryError] (the failure log cannot be
    opened); the counter never exceeds the number of submitted URLs; the
    main thread is never aborted by a task that raised; when the loop has
    been left the counter equals the number of submitted URLs; and from
    every reachable state the run can be brought to that end. *)
Theorem C3_overall_counter video_urls schedule w :
  let total := Z.of_nat (length video_urls) in
  let p := download_videos_in_parallel extractor video_urls schedule w in
  p_total p = total /\
  (0 <= p_n p <= total)%Z /\
  (forall a,
     p_n (step p a) = p_n p \/
     exists i t r,
       a = Collect i /\ p_tasks p !! i = Some t /\ t_pc t = Finished r /\
       t_yielded t = false /\ p_n (step p a) = (p_n p + 1)%Z) /\
  p_n p = Z.of_nat (length (List.filter t_yielded (p_tasks p))) /\
  Forall (fun t => t_yielded t = true -> finished t = true) (p_tasks p) /\
  (exists tr, out (p_world p) = out w ++ tr /\ Forall (settled tr) (p_tasks p)) /\
  (forall e, p_main p <> MainAborted e) /\
  (p_main p = MainClosed -> p_n p = total) /\
  p_main (download_videos_in_parallel extractor video_urls
            (schedule ++ sequential_schedule (length video_urls)) w)
    = MainClosed.
Proof.
  intros total p.
  assert (Hinv : pool_inv p) by apply run_inv, init_pool_inv.
  assert (Hlen : length (p_tasks p) = length video_urls).
  { unfold p, download_videos_in_parallel. rewrite run_length. simpl.
    apply length_map. }
  destruct Hinv as [Ht Hc Hy Ha Hcl Hf].
  assert (Htot : p_total p = total) by (unfold total; by rewrite Ht, Hlen).
  split; [done |]. split; [| split; [apply step_counter |]].
  - rewrite Hc. unfold total. rewrite <- Hlen.
    pose proof (List.filter_length_le t_yielded (p_tasks p)). lia.
  - split; [done |]. split; [done |]. split; [apply run_settled |].
    split; [done |]. split.
    + intros Hm. rewrite Hc, (filter_length_all _ _ (Hcl Hm)).
      unfold total. by rewrite Hlen.
    + unfold download_videos_in_parallel. rewrite fold_left_app.
      fold (download_videos_in_parallel extractor video_urls schedule w).
      fold p. rewrite <- Hlen. apply run_completes.
      apply run_inv, init_pool_inv.
Qed.

End PoolFacts.

(** C3 as it is worded fails on the run of C8: the main thread has left
    its loop with the counter at 2 of 2, and the future of "b" was counted,
    yet "b" has reached neither of the terminal states: it has not
    succeeded and it has not failed. *)
Lemma C3_counterexample :
  let p := download_videos_in_parallel always_ok ["a"; "b"]
             (race_schedule ++ sequential_schedule 2) fresh_world in
  p_main p = MainClosed /\ p_n p = 2%Z /\ p_total p = 2%Z /\
  p_tasks p !! 1 = Some collided_task /\
  t_yielded collided_task = true /\
  ¬ succeeded "b" (out (p_world p)) /\
  ¬ failed "b" (out (p_world p)).
Proof.
  vm_compute. repeat split.
  - intros [H | [H | [H | []]]]; discriminate.
  - intros [H | [H | [H | []]]]; discriminate.
Qed.

(** ** The race on the output directory *)

(** C8, at the input where it fails.  Two URLs are submitted and the
    output directory is missing.  Both workers run the [os.path.exists]
    test of line 97 before either runs [os.makedirs]; the first creation
    succeeds and the second raises [FileExistsError].  The second task ends
    with that exception before its first attempt: its URL is never handed
    to the extractor and never written to the failure log.  So creating
    the directory when it is already there can fail a task. *)
Theorem C8_makedirs_race :
  let p := download_videos_in_parallel always_ok ["a"; "b"]
             (race_schedule ++ sequential_schedule 2) fresh_world in
  map t_pc (p_tasks p)
    = [Finished (Ok tt); Finished (Raise (FileExistsError OUTPUT_DIR))] /\
  out (p_world p)
    = [EvDownload "a" "downloads/%(title).100B.%(ext)s";
       EvPrint (MsgComplete "a");
       EvPrint (MsgErrorDownloading "b" (FileExistsError OUTPUT_DIR))] /\
  attempts_of "b" (out (p_world p)) = 0 /\
  files (p_world p) !! FAILED_LOG = None /\
  p_main p = MainClosed /\ p_n p = 2%Z.
Proof. vm_compute. repeat split. Qed.

Lemma C4_witness :
  exists w',
    extract_video_urls sample_netloc serve_200 (list tag) parse_plain_page
      sample_find_all "https://youtube.com/watch?v=abc" fresh_world
      = (Ok ["https://youtube.com/watch?v=abc"], w') /\
    out w' = out fresh_world ++ [EvPrint (MsgDetected "youtube.com")] /\
    http_fetches (out w') = http_fetches (out fresh_world).
Proof.
  apply (C4_video_domain_bypasses_fetch sample_netloc serve_200 (list tag)
           parse_plain_page sample_find_all
           "https://youtube.com/watch?v=abc" "youtube.com" "youtube.com").
  - reflexivity.
  - simpl. auto.
  - reflexivity.
Defined.

Lemma C5_witness :
  exists w',
    extract_video_urls sample_netloc serve_200 (list tag) parse_plain_page
      sample_find_all "https://example.com/watch" fresh_world
      = (Ok ["https://example.com/watch"], w').
Proof.
  apply (C5_no_candidates_falls_back sample_netloc serve_200 (list tag)
           parse_plain_page sample_find_all
           "https://example.com/watch" "example.com"
           (mkResponse 200 "<html>...</html>") plain_page
           [mkTag "video" ∅]
           [mkTag "iframe" {["src" := "https://maps.example.com/embed"]}]
           [mkTag "a" {["href" := "https://example.com/about"]}]).
  - reflexivity.
  - reflexivity.
  - reflexivity.
  - reflexivity.
  - reflexivity.
  - reflexivity.
  - reflexivity.
  - intros t [<-|[]]. reflexivity.
  - intros t v [<-|[]] H. vm_compute in H. injection H as <-. reflexivity.
  - intros t v [<-|[]] H. vm_compute in H. injection H as <-. reflexivity.
Defined.

Lemma C6_witness :
  extract_video_urls sample_netloc serve_200 (list tag) parse_video_page
    broken_find_all "https://example.com/watch" fresh_world
  = (Ok [],
     mkWorld (dirs fresh_world) (files fresh_world) (progress_bars fresh_world)
             (out fresh_world ++
              [EvPrint MsgScanning;
               EvHttpGet "https://example.com/watch" TIMEOUT;
               EvPrint (MsgExtractFailed (ParserError "broken tree"))])).
Proof.
  apply (C6_scan_failure_yields_empty sample_netloc serve_200 (list tag)
           parse_video_page broken_find_all
           "https://example.com/watch" "example.com").
  - reflexivity.
  - reflexivity.
  - apply (a_query_raises serve_200 (list tag) parse_video_page broken_find_all
             "https://example.com/watch" (ParserError "broken tree")
             (mkResponse 200 "<html>...</html>") video_page video_page []);
      reflexivity.
Defined.

Lemma C7_witness :
  progress_hook quarter_event "v" sample_world
    = (Ok tt, with_progress "v" (VNum (percentage 50 200)) sample_bars
                sample_bar sample_world) /\
  percentage 50 200 = 25%Q /\
  progress_hook none_total_event "v" sample_world
    = (Ok tt, with_progress "v" (VNum 0) sample_bars sample_bar sample_world) /\
  selected_total estimate_event = Some (VNum 300).
Proof.
  destruct (C7_progress_percentage quarter_event "v" sample_world sample_bars
              sample_bar) as (H1 & _); [reflexivity | reflexivity | reflexivity |].
  destruct (C7_progress_percentage none_total_event "v" sample_world sample_bars
              sample_bar) as (_ & H2 & _); [reflexivity | reflexivity | reflexivity |].
  destruct (C7_progress_percentage estimate_event "v" sample_world sample_bars
              sample_bar) as (_ & _ & _ & _ & H5);
    [reflexivity | reflexivity | reflexivity |].
  split; [| split; [| split]].
  - apply H1; [reflexivity | unfold Qeq; simpl; lia | reflexivity].
  - reflexivity.
  - apply (H2 VNone (VNum 500)); [reflexivity | by left | reflexivity].
  - rewrite H5; reflexivity.
Defined.

(** C7 as it is worded fails on two events.  With [total_bytes] present
    but [None] beside an estimate of 1000 and 500 bytes downloaded, the bar
    is set to 0, not to 500 / 1000 * 100.  With 7 bytes of 100 the bar is
    set to a float that is not 7 / 100 * 100. *)
Lemma C7_counterexample :
  (none_total_event !! "total_bytes" = Some VNone /\
   none_total_event !! "total_bytes_estimate" = Some (VNum 1000) /\
   none_total_event !! "downloaded_bytes" = Some (VNum 500) /\
   bar_n <$> bar_of "v" (snd (progress_hook none_total_event "v" sample_world))
     = Some (VNum 0) /\
   ¬ (0 == 500 / 1000 * 100)%Q) /\
  (seven_percent_event !! "total_bytes" = Some (VNum 100) /\
   seven_percent_event !! "downloaded_bytes" = Some (VNum 7) /\
   bar_n <$> bar_of "v" (snd (progress_hook seven_percent_event "v" sample_world))
     = Some (VNum (7881299347898369 # 1125899906842624)) /\
   ¬ (7881299347898369 # 1125899906842624 == 7 / 100 * 100)%Q).
Proof.
  split.
  - split; [reflexivity |]. split; [reflexivity |]. split; [reflexivity |].
    split; [vm_compute; reflexivity |].
    intros H. vm_compute in H. discriminate.
  - split; [reflexivity |]. split; [reflexivity |].
    split; [vm_compute; reflexivity |].
    intros H. vm_compute in H. discriminate.
Qed.

Lemma C9_witness :
  progress_hook empty_file_event "v" sample_world
    = (Ok tt, with_progress "v" (VNum 0) sample_bars sample_bar sample_world) /\
  fst (progress_hook empty_file_event "v" sample_world) ≠ Raise ZeroDivisionError.
Proof.
  apply (C9_zero_total_guarded empty_file_event "v" sample_world 0 (VNum 0)
           sample_bars sample_bar).
  - reflexivity.
  - reflexivity.
  - reflexivity.
  - reflexivity.
  - reflexivity.
  - reflexivity.
Defined.

(** * Further properties of the code *)

(** ** More on link discovery *)

Lemma attr_values_spec k keep tags x :
  x ∈ attr_values k keep tags <->
  exists t, t ∈ tags /\ tag_get t k = Some x /\ x <> "" /\ keep x = true.
Proof.
  unfold attr_values. rewrite list_elem_of_omap. split.
  - intros (t & Ht & H). exists t. split; [done |].
    destruct (tag_get t k) as [v|]; [| done].
    destruct (str_truthy (Some v) && keep v) eqn:E; [| done].
    injection H as ->. apply andb_true_iff in E as [E1 E2].
    repeat split; [| done]. simpl in E1. intros ->. done.
  - intros (t & Ht & Hg & Hne & Hk). exists t. split; [done |].
    rewrite Hg, Hk. simpl. destruct (String.eqb_spec x ""); [done |]. done.
Qed.

Lemma filter_nonempty_id (l : list string) :
  (forall x, x ∈ l -> x <> "") ->
  List.filter (fun u => negb (u =? "")) l = l.
Proof.
  induction l as [|a l IH]; intros H; [done |]. simpl.
  destruct (String.eqb_spec a "") as [->|Hne].
  - by destruct (H "" ltac:(left)).
  - simpl. f_equal. apply IH. intros x Hx. apply H. by right.
Qed.

Lemma dedup_nonempty_spec l :
  NoDup (dedup_nonempty l) /\
  forall x, x ∈ dedup_nonempty l <-> x ∈ l /\ x <> "".
Proof.
  unfold dedup_nonempty. split; [apply NoDup_elements |].
  intros x. rewrite elem_of_elements, elem_of_list_to_set.
  rewrite list_elem_of_In, filter_In, <- list_elem_of_In.
  destruct (String.eqb_spec x ""); simpl; naive_solver.
Qed.

Section MoreDiscovery.

Variable urlparse_netloc : string -> result string.
Variable requests_get : string -> Z -> result response.
Variable soup : Type.
Variable BeautifulSoup : string -> string -> result soup.
Variable find_all : soup -> string -> result (list tag).

Local Abbreviation scan :=
  (scan_page requests_get soup BeautifulSoup find_all).
Local Abbreviation raises :=
  (scan_raises requests_get soup BeautifulSoup find_all).

(** The [try] block either raises at one of its calls, or returns a list
    that is not empty; it requests the page once and prints at most the
    fallback line. *)
Lemma scan_page_cases url w :
  (exists e, raises url e /\
             scan url w = (Raise e, emit (EvHttpGet url TIMEOUT) w)) \/
  (exists l, l <> [] /\
     (scan url w = (Ok l, emit (EvHttpGet url TIMEOUT) w) \/
      scan url w = (Ok l, emit (EvPrint MsgNoLinks)
                            (emit (EvHttpGet url TIMEOUT) w)))).
Proof.
  unfold scan_page, http_get, raise_for_status, lift, bind.
  destruct (requests_get url TIMEOUT) as [r|e] eqn:Hg;
    [| left; exists e; split; [by apply get_raises | done]].
  destruct (http_error r) eqn:Hs.
  { left. eexists. split; [by eapply status_raises | done]. }
  unfold ret.
  destruct (BeautifulSoup (text r) "html.parser") as [sp|e] eqn:Hp;
    [| left; exists e; split; [by eapply parser_raises | done]].
  destruct (find_all sp "video") as [vs|e] eqn:Hv;
    [| left; exists e; split; [by eapply video_query_raises | done]].
  destruct (find_all sp "iframe") as [fs|e] eqn:Hi;
    [| left; exists e; split; [by eapply iframe_query_raises | done]].
  destruct (find_all sp "a") as [ans|e] eqn:Ha;
    [| left; exists e; split; [by eapply a_query_raises | done]].
  right. destruct (dedup_nonempty _) as [|x l] eqn:E.
  - exists [url]. split; [done |]. by right.
  - exists (x :: l). split; [done |]. by left.
Qed.

(** X1. Discovery raises exactly when [urlparse] does, and then before
    anything is printed or requested. *)
Theorem discovery_raises_iff_urlparse_raises url w e :
  (fst (extract_video_urls urlparse_netloc requests_get soup BeautifulSoup
          find_all url w) = Raise e
   <-> urlparse_netloc url = Raise e) /\
  (urlparse_netloc url = Raise e ->
   extract_video_urls urlparse_netloc requests_get soup BeautifulSoup
     find_all url w = (Raise e, w)).
Proof.
  unfold extract_video_urls, lift, bind at 1.
  destruct (urlparse_netloc url) as [domain|e'] eqn:Hn.
  - split; [| done]. split; [| done].
    destruct (any_video_domain domain); [done |].
    unfold bind at 1, print, try_except.
    destruct (scan_page_cases url (emit (EvPrint MsgScanning) w))
      as [(x & _ & ->) | (l & _ & [-> | ->])]; done.
  - split; [| by intros [= ->]]. simpl. split; congruence.
Qed.

(** X2. An empty result means that the URL was not on a video domain and
    that the page fetch or parse raised: a scan that succeeds never returns
    the empty list. *)
Theorem discovery_empty_means_failure url w w' :
  extract_video_urls urlparse_netloc requests_get soup BeautifulSoup find_all
    url w = (Ok [], w') ->
  exists domain e,
    urlparse_netloc url = Ok domain /\ any_video_domain domain = false /\
    raises url e /\
    out w' = out w ++ [EvPrint MsgScanning; EvHttpGet url TIMEOUT;
                       EvPrint (MsgExtractFailed e)].
Proof.
  unfold extract_video_urls, lift, bind at 1.
  destruct (urlparse_netloc url) as [domain|e'] eqn:Hn; [| done].
  destruct (any_video_domain domain) eqn:Hd; [done |].
  unfold bind at 1, print, try_except.
  destruct (scan_page_cases url (emit (EvPrint MsgScanning) w))
    as [(x & Hx & ->) | (l & Hl & [-> | ->])].
  - unfold bind, ret. intros [= <-]. exists domain, x.
    repeat split; try done. simpl. by rewrite <- !app_assoc.
  - intros [= -> _]. done.
  - intros [= -> _]. done.
Qed.

(** X3. One call requests at most one page: none for a video domain, one
    otherwise. *)
Theorem discovery_fetches_once url domain w :
  urlparse_netloc url = Ok domain ->
  http_fetches
    (out (snd (extract_video_urls urlparse_netloc requests_get soup
                 BeautifulSoup find_all url w))) =
  http_fetches (out w) + (if any_video_domain domain then 0 else 1).
Proof.
  intros Hn. unfold extract_video_urls, lift, bind at 1. rewrite Hn.
  destruct (any_video_domain domain).
  - simpl. rewrite http_fetches_app. cbn. lia.
  - unfold bind at 1, print, try_except.
    destruct (scan_page_cases url (emit (EvPrint MsgScanning) w))
      as [(x & _ & ->) | (l & _ & [-> | ->])]; simpl;
      rewrite !http_fetches_app; cbn; lia.
Qed.

(** X4. When the page is fetched and parsed and has a candidate, the
    result has no duplicates and holds exactly the non-empty [src] of the
    video tags, the [src] of the iframes that name a video domain and the
    [href] of the anchors that name one, as written in the page. *)
Theorem discovery_returns_the_candidates
    url domain r sp videos iframes anchors w :
  urlparse_netloc url = Ok domain -> any_video_domain domain = false ->
  requests_get url TIMEOUT = Ok r -> http_error r = false ->
  BeautifulSoup (text r) "html.parser" = Ok sp ->
  find_all sp "video" = Ok videos ->
  find_all sp "iframe" = Ok iframes ->
  find_all sp "a" = Ok anchors ->
  let candidates :=
    attr_values "src" (fun _ => true) videos ++
    attr_values "src" any_video_domain iframes ++
    attr_values "href" any_video_domain anchors in
  candidates <> [] ->
  exists l,
    extract_video_urls urlparse_netloc requests_get soup BeautifulSoup find_all url w =
      (Ok l, emit (EvHttpGet url TIMEOUT) (emit (EvPrint MsgScanning) w)) /\
    NoDup l /\
    forall x, x ∈ l <->
      (exists t, t ∈ videos /\ tag_get t "src" = Some x /\ x <> "") \/
      (exists t, t ∈ iframes /\ tag_get t "src" = Some x /\
                 any_video_domain x = true) \/
      (exists t, t ∈ anchors /\ tag_get t "href" = Some x /\
                 any_video_domain x = true).
Proof.
  intros Hn Hd Hg Hs Hp Hv Hi Ha candidates Hne.
  destruct (dedup_nonempty_spec candidates) as [Hnd Hmem].
  assert (Hcand : forall x, x ∈ candidates <->
      (exists t, t ∈ videos /\ tag_get t "src" = Some x /\ x <> "") \/
      (exists t, t ∈ iframes /\ tag_get t "src" = Some x /\
                 any_video_domain x = true /\ x <> "") \/
      (exists t, t ∈ anchors /\ tag_get t "href" = Some x /\
                 any_video_domain x = true /\ x <> "")).
  { intros x. unfold candidates. rewrite !elem_of_app, !attr_values_spec.
    naive_solver. }
  assert (Hnonempty : forall x, any_video_domain x = true -> x <> "").
  { intros x Hx ->. vm_compute in Hx. done. }
  exists (dedup_nonempty candidates). split; [| split; [done |]].
  - unfold extract_video_urls, lift, bind at 1. rewrite Hn, Hd.
    unfold bind at 1, print, try_except.
    unfold scan_page, http_get, raise_for_status, lift, bind.
    rewrite Hg, Hs. unfold ret. rewrite Hp, Hv, Hi, Ha.
    replace ((([] ++ attr_values "src" (fun _ => true) videos) ++
              attr_values "src" any_video_domain iframes) ++
             attr_values "href" any_video_domain anchors)
      with candidates by (unfold candidates; by rewrite <- app_assoc).
    destruct (dedup_nonempty candidates) as [|y l] eqn:E; [| done].
    assert (Hex : exists c, c ∈ candidates)
      by (destruct candidates; [done | eexists; left]).
    destruct Hex as [c Hin].
    assert (Hc : c <> "") by (apply Hcand in Hin; naive_solver).
    assert (Hnil : c ∈ []) by (by apply Hmem).
    by apply elem_of_nil in Hnil.
  - intros x. rewrite Hmem, Hcand. naive_solver.
Qed.

End MoreDiscovery.

(** ** More on the progress hook *)

(** X5. Whatever the event, and whether it returns or raises, the hook
    changes no directory and no file, leaves the bars of the other tasks
    alone, keeps the total and the closed flag of its own bar and adds at
    most one redraw to the trace. *)
Theorem progress_hook_frame data url w :
  let w' := snd (progress_hook data url w) in
  dirs w' = dirs w /\ files w' = files w /\
  (forall u, u <> url -> bar_of u w' = bar_of u w) /\
  bar_total <$> bar_of url w' = bar_total <$> bar_of url w /\
  bar_closed <$> bar_of url w' = bar_closed <$> bar_of url w /\
  (out w' = out w \/ exists v, out w' = out w ++ [EvRefresh url v]).
Proof.
  destruct (progress_hook_cases data url w)
    as [[r ->] | (v & bars & b & Hb & Hu & ->)]; simpl.
  - repeat split; auto.
  - unfold bar_of. simpl. rewrite Hb. repeat split.
    + intros u Hne. by rewrite lookup_insert_ne.
    + by rewrite lookup_insert_eq, Hu.
    + by rewrite lookup_insert_eq, Hu.
    + right. by exists v.
Qed.

(** X6. An event whose status is not 'downloading' is ignored: the hook
    returns and the world is unchanged. *)
Theorem progress_hook_other_status data url w st :
  data !! "status" = Some st -> py_eq_str st "downloading" = false ->
  progress_hook data url w = (Ok tt, w).
Proof.
  intros Hs He. unfold progress_hook. rewrite (dict_get_Some _ _ _ Hs).
  unfold bind, ret. by rewrite He.
Qed.

(** X7. A missing key raises [KeyError] and leaves the world as it is:
    'status' on any event, 'downloaded_bytes' on a 'downloading' event
    that has a total. *)
Theorem progress_hook_missing_key data url w k :
  (k = "status" /\ data !! "status" = None) \/
  (k = "downloaded_bytes" /\
   data !! "status" = Some (VStr "downloading") /\
   is_Some (selected_total data) /\
   data !! "downloaded_bytes" = None) ->
  progress_hook data url w = (Raise (KeyError k), w).
Proof.
  intros [[-> Hs] | (-> & Hs & [t Ht] & Hd)].
  - unfold progress_hook, bind, dict_get. by rewrite Hs.
  - unfold progress_hook.
    rewrite (dict_get_Some _ _ _ Hs). unfold bind at 1, ret at 1.
    cbn [py_eq_str]. simpl (String.eqb _ _).
    unfold selected_total in Ht.
    destruct (dict_has data "total_bytes") eqn:E1.
    + rewrite (dict_get_Some _ _ _ Ht). unfold bind, ret, dict_get.
      by rewrite Hd.
    + assert (E2 : dict_has data "total_bytes_estimate" = true)
        by (by eapply dict_has_Some).
      rewrite E2, (dict_get_Some _ _ _ Ht). unfold bind, ret, dict_get.
      by rewrite Hd.
Qed.

(** X8. A [total_bytes] that is there but [None] gives 0: the estimate is
    not consulted. *)
Theorem progress_hook_none_total data url w dv bars b :
  data !! "status" = Some (VStr "downloading") ->
  data !! "total_bytes" = Some VNone ->
  data !! "downloaded_bytes" = Some dv ->
  progress_bars w = Some bars -> bars !! url = Some b ->
  progress_hook data url w = (Ok tt, with_progress url (VNum 0) bars b w).
Proof.
  intros Hs Ht Hd Hb Hu.
  pose proof (store_and_refresh url (VNum 0) bars b w Hb Hu) as Hst.
  unfold progress_hook. rewrite (dict_get_Some _ _ _ Hs).
  unfold bind at 1, ret at 1. cbn [py_eq_str]. simpl (String.eqb _ _).
  rewrite (dict_has_Some _ _ _ Ht), (dict_get_Some _ _ _ Ht),
    (dict_get_Some _ _ _ Hd).
  unfold bind at 1. unfold bind at 1, ret at 1. unfold bind at 1, ret at 1.
  unfold ret at 1. cbn [truthy]. unfold bind at 1, ret at 1. exact Hst.
Qed.

(** X9. Without a bar for the task the hook raises and changes nothing:
    [NameError] when the global is unbound, [KeyError] when the URL has no
    bar. *)
Theorem progress_hook_without_bar data url w t d :
  data !! "status" = Some (VStr "downloading") ->
  selected_total data = Some (VNum t) ->
  data !! "downloaded_bytes" = Some (VNum d) ->
  bar_of url w = None ->
  progress_hook data url w =
    (Raise (match progress_bars w with
            | None => NameError "progress_bars"
            | Some _ => KeyError url
            end), w).
Proof.
  intros Hs Ht Hd Hbar.
  destruct (progress_value t d w) as [v Hv].
  assert (Hget : get_bar url w =
            (Raise (match progress_bars w with
                    | None => NameError "progress_bars"
                    | Some _ => KeyError url
                    end), w)).
  { unfold get_bar. unfold bar_of in Hbar.
    destruct (progress_bars w) as [bars|]; [| done]. by rewrite Hbar. }
  unfold progress_hook. rewrite (dict_get_Some _ _ _ Hs).
  unfold selected_total in Ht.
  unfold bind at 1, ret at 1. cbn [py_eq_str]. simpl (String.eqb _ _).
  destruct (dict_has data "total_bytes") eqn:E1.
  - rewrite (dict_get_Some _ _ _ Ht), (dict_get_Some _ _ _ Hd).
    unfold bind at 1. unfold bind at 1, ret at 1. unfold bind at 1, ret at 1.
    unfold ret at 1. unfold bind at 1. rewrite Hv.
    by apply store_without_bar.
  - assert (E2 : dict_has data "total_bytes_estimate" = true)
      by (by eapply dict_has_Some).
    rewrite E2, (dict_get_Some _ _ _ Ht), (dict_get_Some _ _ _ Hd).
    unfold bind at 1. unfold bind at 1, ret at 1. unfold bind at 1, ret at 1.
    unfold ret at 1. unfold bind at 1. rewrite Hv.
    by apply store_without_bar.
Qed.

(** ** More on the retry loop *)

(** [os.makedirs] raises one of three exceptions, and changes nothing
    when it does. *)
Lemma os_makedirs_raises p w e :
  fst (os_makedirs p w) = Raise e ->
  snd (os_makedirs p w) = w /\
  ((p = "" /\ e = FileNotFoundError p) \/
   (p <> "" /\ (e = FileExistsError p \/ e = NotADirectoryError p))).
Proof.
  unfold os_makedirs. destruct (String.eqb_spec p "") as [-> | Hne].
  - intros [= <-]. split; [done |]. by left.
  - destruct (existsb _ _).
    + intros [= <-]. split; [done |]. right. split; [done |]. by right.
    + destruct (_ || _); [| done].
      intros [= <-]. split; [done |]. right. split; [done |]. by left.
Qed.

Section MoreRetry.

Variable extractor : string -> nat -> ydl_run.

(** The loop raises only from line 127. *)
Lemma retry_loop_raises opts url retries w e :
  fst (retry_loop extractor opts url retries w) = Raise e ->
  e = IsADirectoryError FAILED_LOG /\ (1 <= retries)%Z /\
  FAILED_LOG ∈ dirs (snd (retry_loop extractor opts url retries w)).
Proof.
  unfold retry_loop, bind.
  pose proof (for_in_raises
                (fun e w' => e = IsADirectoryError FAILED_LOG /\
                             FAILED_LOG ∈ dirs w')
                (attempt_body extractor opts url retries)) as Hloop.
  destruct (for_in (py_range 1 (retries + 1))
              (attempt_body extractor opts url retries) w)
    as [[c|e'] w'] eqn:E; [done |].
  simpl. intros [= ->].
  destruct (Hloop) with (xs := py_range 1 (retries + 1)) (w := w) (e := e)
    as (Hne & -> & Hdir).
  - intros x w0 e0. rewrite attempt_body_unfold.
    destruct (YoutubeDL_download _ _ _ w0) as [[u|e1] w1]; [done |].
    cbv zeta. destruct (x =? retries)%Z; [| done].
    destruct (bool_decide _) eqn:Hd; [| done].
    apply bool_decide_eq_true in Hd. by intros [= <-].
  - by rewrite E.
  - rewrite E in Hdir. simpl in Hdir. repeat split; [| done].
    destruct (Z_le_gt_dec 1 retries); [done |].
    by rewrite py_range_empty in Hne by lia.
Qed.

Lemma download_video_with_progress_unfold url output_dir retries w :
  download_video_with_progress extractor url output_dir retries w =
  if path_exists output_dir w
  then retry_loop extractor (make_ydl_opts url output_dir) url retries w
  else match os_makedirs output_dir w with
       | (Ok _, w1) =>
           retry_loop extractor (make_ydl_opts url output_dir) url retries w1
       | (Raise e, w1) => (Raise e, w1)
       end.
Proof.
  unfold download_video_with_progress. unfold bind at 1.
  unfold ensure_output_dir, bind at 1, os_path_exists.
  by destruct (path_exists output_dir w); cbn [negb].
Qed.

(** X10. For an output directory given by a plain path, a call raises only
    outside the [try] block: at line 98, where [os.makedirs] raises for a
    path that is not there ([FileNotFoundError] for the empty path, else
    [FileExistsError] or [NotADirectoryError]), before anything else
    happened; or at line 127, after the last of at least one failed
    attempt, with [IsADirectoryError] because [failed.txt] is a directory.
    Every exception of the extractor and of the hook is caught. *)
Theorem task_raises_only_outside_the_try url output_dir retries w e :
  let rw := download_video_with_progress extractor url output_dir retries w in
  plain_path output_dir = true ->
  fst rw = Raise e ->
  (path_exists output_dir w = false /\ snd rw = w /\
   ((output_dir = "" /\ e = FileNotFoundError output_dir) \/
    (output_dir <> "" /\
     (e = FileExistsError output_dir \/ e = NotADirectoryError output_dir)))) \/
  (e = IsADirectoryError FAILED_LOG /\ (1 <= retries)%Z /\
   FAILED_LOG ∈ dirs (snd rw)).
Proof.
  cbv zeta. intros _. rewrite download_video_with_progress_unfold.
  destruct (path_exists output_dir w) eqn:Hex.
  - intros H. right. by apply retry_loop_raises.
  - pose proof (os_makedirs_raises output_dir w e) as Hm.
    destruct (os_makedirs output_dir w) as [[u|e'] w'] eqn:E.
    + intros H. right. by apply retry_loop_raises.
    + simpl. intros [= ->]. left. simpl in Hm.
      destruct Hm as [-> Hm]; done.
Qed.

(** X11. A call with the default directory creates at most that
    directory; it changes no file other than [failed.txt], which only
    grows at its end, and files inside the output directory; it leaves the
    keys of the bars, their totals and their closed flags as they were and
    the bars of the other URLs untouched; and it only extends the trace. *)
Theorem task_changes_only_its_own url retries w :
  let w' :=
    snd (download_video_with_progress extractor url OUTPUT_DIR retries w) in
  (dirs w' = dirs w \/ dirs w' = {[OUTPUT_DIR]} ∪ dirs w) /\
  (forall q, q <> FAILED_LOG -> ¬ in_output_dir q ->
     files w' !! q = files w !! q) /\
  (exists suffix,
     file_text w' FAILED_LOG = file_text w FAILED_LOG +:+ suffix) /\
  bars_kept url w w' /\
  extends_with (task_event url) w w'.
Proof.
  cbv zeta. destruct (Z_le_gt_dec 1 retries) as [Hr | Hr].
  - destruct (task_cases extractor url retries w Hr)
      as (r & w' & tr & -> & Ho & Hd & [F L B O] & Hev & _). simpl.
    split; [rewrite Hd; apply with_output_dir_dirs |].
    repeat split; try done. by exists tr.
  - rewrite download_video_with_progress_default.
    unfold retry_loop. rewrite py_range_empty by lia. simpl.
    destruct (task_frame_with_output_dir url w) as [F L B O].
    split; [apply with_output_dir_dirs |]. repeat split; try done.
    exists []. by rewrite with_output_dir_out, app_nil_r.
Qed.

(** X12. With at least one attempt allowed, and whatever the extractor
    does, a task with the default directory makes between one and
    [retries] attempts and ends in exactly one of three ways: it returns
    having succeeded, with the failure log as it was; it returns having
    failed after [retries] attempts, its URL appended once to the log; or,
    [failed.txt] being a directory, it raises [IsADirectoryError] after
    [retries] attempts with nothing logged and no skip line printed. *)
Theorem task_succeeds_or_fails url retries w :
  (1 <= retries)%Z ->
  exists r w' tr,
    download_video_with_progress extractor url OUTPUT_DIR retries w = (r, w') /\
    out w' = out w ++ tr /\
    1 <= attempts_of url tr <= Z.to_nat retries /\
    ((r = Ok tt /\ succeeded url tr /\ ¬ failed url tr /\
      files w' !! FAILED_LOG = files w !! FAILED_LOG) \/
     (r = Ok tt /\ failed url tr /\ ¬ succeeded url tr /\
      attempts_of url tr = Z.to_nat retries /\ (FAILED_LOG ∉ dirs w) /\
      files w' !! FAILED_LOG =
        Some (file_text w FAILED_LOG +:+ url +:+ newline)) \/
     (r = Raise (IsADirectoryError FAILED_LOG) /\
      ¬ succeeded url tr /\ ¬ failed url tr /\
      attempts_of url tr = Z.to_nat retries /\ FAILED_LOG ∈ dirs w /\
      files w' !! FAILED_LOG = files w !! FAILED_LOG)).
Proof.
  intros Hr.
  destruct (task_cases extractor url retries w Hr)
    as (r & w' & tr & Hrun & Ho & _ & _ & _ & Hend).
  exists r, w', tr. split; [done |]. split; [done |].
  destruct Hend as [j tr0 Hj Htr Hn Hs Hf He Hlog Hok | Hnd Hn Hs Hf He Hlog
                   | Hdir Hn Hs Hf He Hlog].
  - rewrite Htr. split; [rewrite attempts_of_app, Hn; cbn; lia |]. left.
    split; [done |]. unfold succeeded, failed in *. rewrite !in_app_iff.
    split; [right; by left |]. split; [| done].
    intros [H | [H | []]]; [done | discriminate].
  - split; [lia |]. right. left. done.
  - split; [lia |]. right. right. done.
Qed.

(** X13. The error lines of a task with the default directory are
    numbered 1, 2, ... of [retries] without a gap: one for each failed
    attempt, so one less than the attempts when the task succeeded and
    [retries] of them when it did not. *)
Theorem task_error_lines_are_numbered url retries w :
  (1 <= retries)%Z ->
  exists tr n,
    out (snd (download_video_with_progress extractor url OUTPUT_DIR retries w))
      = out w ++ tr /\
    error_lines url tr = numbered retries n /\
    ((succeeded url tr /\ attempts_of url tr = S n) \/
     (¬ succeeded url tr /\ attempts_of url tr = n /\ n = Z.to_nat retries)).
Proof.
  intros Hr.
  destruct (task_cases extractor url retries w Hr)
    as (r & w' & tr & -> & Ho & _ & _ & _ & Hend). simpl.
  exists tr.
  destruct Hend as [j tr0 Hj Htr Hn Hs Hf He Hlog Hok | Hnd Hn Hs Hf He Hlog
                   | Hdir Hn Hs Hf He Hlog].
  - exists j. split; [done |]. rewrite Htr. split.
    + rewrite error_lines_app, He. cbn. by rewrite app_nil_r.
    + left. split; [| rewrite attempts_of_app, Hn; cbn; lia].
      unfold succeeded. rewrite in_app_iff. right. by left.
  - exists (Z.to_nat retries). repeat split; try done. by right.
  - exists (Z.to_nat retries). repeat split; try done. by right.
Qed.

(** X21. The retry loop starts only once the output path is there: for an
    output directory given by a plain path, whenever a call prints anything
    or returns normally, lines 97-98 have returned, having changed neither
    file nor bar nor trace, and the path exists in the world the loop
    starts from.  A call with the empty string for the output directory
    does neither: it raises [FileNotFoundError] at line 98 with nothing
    done, whatever the URL, the retry count and the world. *)
Theorem task_needs_its_directory url output_dir retries w :
  plain_path output_dir = true ->
  let rw := download_video_with_progress extractor url output_dir retries w in
  (output_dir = "" -> rw = (Raise (FileNotFoundError output_dir), w)) /\
  ((out (snd rw) <> out w \/ fst rw = Ok tt) ->
   exists w1,
     ensure_output_dir output_dir w = (Ok tt, w1) /\
     path_exists output_dir w1 = true /\
     (dirs w ⊆ dirs w1) /\ files w1 = files w /\
     progress_bars w1 = progress_bars w /\ out w1 = out w /\
     rw = retry_loop extractor (make_ydl_opts url output_dir) url retries w1).
Proof.
  intros _. cbv zeta. split; [by intros -> |].
  rewrite download_video_with_progress_unfold.
  unfold ensure_output_dir, bind, os_path_exists, ret.
  destruct (path_exists output_dir w) eqn:Hex; cbn [negb].
  - intros _. exists w. by repeat split.
  - unfold os_makedirs.
    destruct (String.eqb_spec output_dir "") as [-> | Hne];
      [simpl; intros [H | H]; done |].
    destruct (existsb _ _); [simpl; intros [H | H]; done |].
    destruct (_ || _); [simpl; intros [H | H]; done |].
    intros _. eexists. split; [reflexivity |]. simpl.
    split; [| split; [set_solver | done]].
    unfold path_exists, is_dir. simpl.
    destruct (String.eqb_spec output_dir ""); [done |]. simpl.
    rewrite (bool_decide_eq_true_2 (canon output_dir ∈ _)) by set_solver.
    by rewrite !orb_true_r.
Qed.

End MoreRetry.

(** ** A regular file named [downloads] *)

Lemma for_in_ext_under {X A} (I : world -> Prop) (b1 b2 : X -> M (ctl A)) :
  (forall x w, I w -> b1 x w = b2 x w) ->
  (forall x w, I w -> I (snd (b1 x w))) ->
  forall xs w, I w -> for_in xs b1 w = for_in xs b2 w /\ I (snd (for_in xs b1 w)).
Proof.
  intros Heq Hinv. induction xs as [|x xs IH]; intros w Hw; [done |].
  simpl. unfold bind. rewrite <- (Heq x w Hw). specialize (Hinv x w Hw).
  destruct (b1 x w) as [[[|a]|e] w1]; simpl in *; [by apply IH | done | done].
Qed.

(** With a regular file in the place of the output directory no step of a
    download changes a file, and a download that has a file to write does
    not return. *)
Lemma for_each_blocked url steps : forall w,
  is_file OUTPUT_DIR w = true ->
  let rw := for_each steps (run_step (make_ydl_opts url OUTPUT_DIR)) w in
  files (snd rw) = files w /\
  ((exists name content, In (WriteFile name content) steps) ->
   exists e, fst rw = Raise e).
Proof.
  induction steps as [|s steps IH]; intros w Hw; cbv zeta.
  { split; [done |]. by intros (name & content & []). }
  cbn [for_each]. unfold bind.
  assert (Hstep : files (snd (run_step (make_ydl_opts url OUTPUT_DIR) s w))
                    = files w /\
                  forall name content, s = WriteFile name content ->
                    exists e, fst (run_step (make_ydl_opts url OUTPUT_DIR) s w)
                              = Raise e).
  { destruct s as [data | name content]; simpl.
    - split; [| done]. unfold bind.
      assert (Hf : files (snd (progress_hook data url w)) = files w).
      { destruct (progress_hook_cases data url w)
          as [[r ->] | (v & bars & b & Hb & Hu & ->)]; done. }
      by destruct (progress_hook data url w) as [[u|e] w1].
    - unfold write_file. change (canon "downloads/") with OUTPUT_DIR.
      rewrite Hw. simpl. split; [done |]. intros _ _ _. by eexists. }
  destruct Hstep as [Hf Hwr].
  destruct (run_step (make_ydl_opts url OUTPUT_DIR) s w) as [[u|e] w1];
    simpl in *.
  - assert (Hw1 : is_file OUTPUT_DIR w1 = true).
    { unfold is_file in *. by rewrite Hf. }
    destruct (IH w1 Hw1) as [Hfiles Hraise]. split; [by rewrite Hfiles |].
    intros (name & content & [Hin | Hin]).
    + destruct (Hwr name content Hin) as [e He]. discriminate.
    + apply Hraise. by exists name, content.
  - split; [done |]. intros _. by exists e.
Qed.

Section RegularFile.

Variable extractor : string -> nat -> ydl_run.

(** X27. A regular file named [downloads] goes unnoticed by line 97: the
    directory is not created and nothing is raised there.  When each run of
    the extractor has a file to write, every attempt fails: the task makes
    all its [retries] attempts, never succeeds, changes no file other than
    [failed.txt], and ends with its URL logged, or with [IsADirectoryError]
    when [failed.txt] is a directory. *)
Theorem regular_file_in_the_way url retries w content :
  files w !! OUTPUT_DIR = Some content ->
  (forall n, exists name c, In (WriteFile name c) (run_steps (extractor url n))) ->
  (1 <= retries)%Z ->
  exists r w' tr,
    download_video_with_progress extractor url OUTPUT_DIR retries w = (r, w') /\
    out w' = out w ++ tr /\
    dirs w' = dirs w /\
    (forall q, q <> FAILED_LOG -> files w' !! q = files w !! q) /\
    attempts_of url tr = Z.to_nat retries /\
    ¬ succeeded url tr /\
    error_lines url tr = numbered retries (Z.to_nat retries) /\
    ((r = Ok tt /\ failed url tr /\
      files w' !! FAILED_LOG =
        Some (file_text w FAILED_LOG +:+ url +:+ newline)) \/
     (r = Raise (IsADirectoryError FAILED_LOG) /\ ¬ failed url tr /\
      FAILED_LOG ∈ dirs w)).
Proof.
  intros Hfile Hwrite Hr.
  set (failing := fun u n => mkRun (run_steps (extractor u n))
                                   (Raise (DownloadError ""))).
  set (I := fun w0 : world =>
              forall q, q <> FAILED_LOG -> files w0 !! q = files w !! q).
  assert (HI : forall w0, I w0 -> is_file OUTPUT_DIR w0 = true).
  { intros w0 H0. unfold is_file. apply bool_decide_eq_true.
    rewrite (H0 OUTPUT_DIR) by done. by rewrite Hfile. }
  assert (Hex : path_exists OUTPUT_DIR w = true).
  { unfold path_exists. change (canon OUTPUT_DIR) with OUTPUT_DIR.
    rewrite (HI w) by done. simpl. apply orb_true_r. }
  assert (Hw : with_output_dir w = w).
  { unfold with_output_dir. by rewrite Hex. }
  assert (Hdl : forall w0, I w0 ->
            YoutubeDL_download extractor (make_ydl_opts url OUTPUT_DIR) url w0 =
            YoutubeDL_download failing (make_ydl_opts url OUTPUT_DIR) url w0 /\
            files (snd (YoutubeDL_download extractor
                          (make_ydl_opts url OUTPUT_DIR) url w0)) = files w0).
  { intros w0 H0. unfold YoutubeDL_download. cbv zeta.
    change (run_steps (failing url (attempts_of url (out w0))))
      with (run_steps (extractor url (attempts_of url (out w0)))).
    set (w1 := emit _ w0).
    destruct (for_each_blocked url
                (run_steps (extractor url (attempts_of url (out w0)))) w1
                (HI w0 H0)) as [Hf Hraise].
    destruct (Hraise (Hwrite _)) as [e He]. unfold bind.
    destruct (for_each _ _ w1) as [[u|e'] w2]; simpl in *; done. }
  assert (Hloop : forall xs w0, I w0 ->
            for_in xs (attempt_body extractor (make_ydl_opts url OUTPUT_DIR)
                         url retries) w0
            = for_in xs (attempt_body failing (make_ydl_opts url OUTPUT_DIR)
                           url retries) w0 /\
            I (snd (for_in xs (attempt_body extractor
                                 (make_ydl_opts url OUTPUT_DIR) url retries) w0))).
  { apply for_in_ext_under.
    - intros a w0 H0. rewrite !attempt_body_unfold.
      by rewrite (proj1 (Hdl w0 H0)).
    - intros a w0 H0. rewrite attempt_body_unfold.
      destruct (Hdl w0 H0) as [_ Hf].
      unfold I in *.
      destruct (YoutubeDL_download extractor _ url w0) as [[u|e] w1];
        simpl in *.
      + intros q Hq. rewrite Hf. by apply H0.
      + destruct (a =? retries)%Z; [| intros q Hq; simpl; rewrite Hf; by apply H0].
        destruct (bool_decide _);
          [intros q Hq; simpl; rewrite Hf; by apply H0 |].
        intros q Hq. simpl. rewrite lookup_insert_ne by done.
        rewrite Hf. by apply H0. }
  assert (Hsame : download_video_with_progress extractor url OUTPUT_DIR retries w
                  = download_video_with_progress failing url OUTPUT_DIR retries w
                  /\ I (snd (download_video_with_progress extractor url
                               OUTPUT_DIR retries w))).
  { rewrite !download_video_with_progress_default, Hw. unfold retry_loop, bind.
    destruct (Hloop (py_range 1 (retries + 1)) w ltac:(done)) as [Heq Hinv].
    rewrite <- Heq.
    by destruct (for_in _ (attempt_body extractor _ url retries) w)
      as [[c|e] w1]. }
  destruct Hsame as [Hsame Hfiles].
  destruct (task_cases failing url retries w Hr)
    as (r & w' & tr & Hrun & Ho & Hd & _ & _ & Hend).
  rewrite Hw in Hd. rewrite <- Hsame in Hrun. rewrite Hrun in Hfiles.
  exists r, w', tr. do 4 (split; [done |]).
  destruct Hend as [j tr0 Hj Htr Hn Hs Hf He Hlog Hok | Hnd Hn Hs Hf He Hlog
                   | Hdir Hn Hs Hf He Hlog].
  - discriminate Hok.
  - do 3 (split; [done |]). by left.
  - do 3 (split; [done |]). by right.
Qed.

End RegularFile.

(** ** More on the thread pool *)

Lemma bars_kept_Some url w w' bars :
  bars_kept url w w' -> progress_bars w = Some bars ->
  exists bars',
    progress_bars w' = Some bars' /\
    (forall u, is_Some (bars !! u) -> is_Some (bars' !! u)) /\
    (forall u b', bars' !! u = Some b' ->
       exists b, bars !! u = Some b /\ bar_closed b' = bar_closed b).
Proof.
  unfold bars_kept. intros H Hb. rewrite Hb in H.
  destruct (progress_bars w') as [bars'|]; [| done].
  exists bars'. split; [done |]. split.
  - intros u [b Hu]. destruct (H u) as (_ & Ht & _). rewrite Hu in Ht.
    destruct (bars' !! u); [by eexists | done].
  - intros u b' Hu. destruct (H u) as (_ & _ & Hc). rewrite Hu in Hc.
    destruct (bars !! u) as [b|]; [| done]. exists b. split; [done |].
    by injection Hc.
Qed.

Lemma init_bars_lookup (b : bar) (urls : list string) : forall (m : gmap string bar) u,
  u ∈ urls \/ is_Some (m !! u) ->
  is_Some (fold_left (fun m url => <[url := b]> m) urls m !! u).
Proof.
  induction urls as [|x urls IH]; intros m u [Hin | Hm]; simpl.
  - by apply elem_of_nil in Hin.
  - done.
  - apply IH. apply elem_of_cons in Hin as [-> | Hin]; [right | by left].
    rewrite lookup_insert_eq. by eexists.
  - apply IH. right. destruct (decide (x = u)) as [->|Hne].
    + rewrite lookup_insert_eq. by eexists.
    + by rewrite lookup_insert_ne.
Qed.

Lemma extends_with_refl Q w : extends_with Q w w.
Proof. exists []. by rewrite app_nil_r. Qed.

Lemma extends_with_trans Q w1 w2 w3 :
  extends_with Q w1 w2 -> extends_with Q w2 w3 -> extends_with Q w1 w3.
Proof.
  intros (t1 & O1 & F1) (t2 & O2 & F2). exists (t1 ++ t2).
  split; [by rewrite O2, O1, app_assoc | by apply Forall_app].
Qed.

Lemma extends_with_emit (Q : event -> Prop) e w :
  Q e -> extends_with Q w (emit e w).
Proof. intros He. exists [e]. split; [done | by constructor]. Qed.

Lemma path_exists_collect_world q url r w :
  path_exists q (collect_world url r w) = path_exists q w.
Proof. by destruct r. Qed.

Section MorePool.

Variable extractor : string -> nat -> ydl_run.

(** What the retry loop of a worker leaves as it is. *)
Lemma pool_loop_keeps url w :
  let w' := snd (pool_loop extractor url w) in
  dirs w' = dirs w /\ task_frame url w w' /\
  extends_with (task_event url) w w' /\
  files w' !! OUTPUT_DIR = files w !! OUTPUT_DIR /\
  path_exists OUTPUT_DIR w' = path_exists OUTPUT_DIR w.
Proof.
  destruct (pool_loop_cases extractor url w)
    as (r & w' & tr & -> & Ho & Hd & Hfr & Hev & _). simpl.
  assert (Hf : files w' !! OUTPUT_DIR = files w !! OUTPUT_DIR).
  { destruct Hfr as [F _ _ _]. apply F; [done | apply output_dir_outside]. }
  split; [done |]. split; [done |]. split; [by exists tr |]. split; [done |].
  by rewrite !path_exists_output_dir, Hd, Hf.
Qed.

(** X14. A future ends with [None], with the [FileExistsError] of the
    directory race, or with the [IsADirectoryError] of a failure log that
    is a directory, and with nothing else. *)
Theorem pool_task_results video_urls schedule w :
  let p := download_videos_in_parallel extractor video_urls schedule w in
  Forall (fun t => forall r, t_pc t = Finished r -> future_result r) (p_tasks p).
Proof.
  cbv zeta.
  destruct (run_settled extractor video_urls schedule w) as (tr & _ & Hall).
  eapply Forall_impl; [exact Hall |]. intros t Hs r Hr.
  destruct (Hs r Hr) as [[-> _] | [-> | ->]]; unfold future_result; auto.
Qed.

(** X15. When the output directory is there from the start and
    [failed.txt] is not a directory, no schedule makes a future raise. *)
Theorem pool_with_directory_never_raises video_urls schedule w :
  path_exists OUTPUT_DIR w = true -> FAILED_LOG ∉ dirs w ->
  let p := download_videos_in_parallel extractor video_urls schedule w in
  Forall (fun t => forall r, t_pc t = Finished r -> r = Ok tt) (p_tasks p).
Proof.
  intros Hw Hlog p.
  assert (H : path_exists OUTPUT_DIR (p_world p) = true /\
              (FAILED_LOG ∉ dirs (p_world p)) /\
              (forall i t, p_tasks p !! i = Some t -> t_pc t <> AtMakedirs) /\
              (forall i t r, p_tasks p !! i = Some t -> t_pc t = Finished r ->
                 r = Ok tt)).
  { unfold p, download_videos_in_parallel.
    apply (run_invariant extractor (fun p =>
             path_exists OUTPUT_DIR (p_world p) = true /\
             (FAILED_LOG ∉ dirs (p_world p)) /\
             (forall i t, p_tasks p !! i = Some t -> t_pc t <> AtMakedirs) /\
             (forall i t r, p_tasks p !! i = Some t -> t_pc t = Finished r ->
                r = Ok tt))).
    - intros q a q' (He & Hl & Hm & Hr) Hk. destruct Hk; simpl.
      + done.
      + split; [done |]. split; [done |]. split.
        * intros j t0 Hj. apply lookup_with_task in Hj as [[-> ->] | [_ Hj]];
            [done | by eapply Hm].
        * intros j t0 r Hj Hpc.
          apply lookup_with_task in Hj as [[-> ->] | [_ Hj]];
            [done | by eapply Hr].
      + rewrite He. split; [done |]. split; [done |]. split.
        * intros j t0 Hj. apply lookup_with_task in Hj as [[-> ->] | [_ Hj]];
            [done | by eapply Hm].
        * intros j t0 r Hj Hpc.
          apply lookup_with_task in Hj as [[-> ->] | [_ Hj]];
            [done | by eapply Hr].
      + congruence.
      + by destruct (Hm i t).
      + destruct (pool_loop_cases extractor (t_url t) (p_world q))
          as (r & w' & tr & Hrun & Ho & Hd & Hfr & Hev & Hend).
        destruct (pool_loop_keeps (t_url t) (p_world q)) as (_ & _ & _ & _ & Hp).
        rewrite Hrun in *. simpl in *.
        split; [congruence |]. split; [by rewrite Hd |]. split.
        * intros j t0 Hj. apply lookup_with_task in Hj as [[-> ->] | [_ Hj]];
            [done | by eapply Hm].
        * intros j t0 r0 Hj Hpc.
          apply lookup_with_task in Hj as [[-> ->] | [_ Hj]]; [| by eapply Hr].
          simpl in Hpc. injection Hpc as <-.
          by destruct Hend.
      + rewrite path_exists_collect_world.
        split; [done |]. split; [by destruct r |]. split.
        * intros j t0 Hj. apply lookup_with_task in Hj as [[-> ->] | [_ Hj]];
            [done | by eapply Hm].
        * intros j t0 r0 Hj Hpc.
          apply lookup_with_task in Hj as [[-> ->] | [_ Hj]]; [| by eapply Hr].
          simpl in Hpc. injection Hpc as <-. by eapply Hr.
      + done.
    - simpl. split; [done |]. split; [done |]. split.
      + intros i t Hl. apply list_elem_of_lookup_2, list_elem_of_In, in_map_iff
          in Hl as (u & <- & _). done.
      + intros i t r Hl. apply list_elem_of_lookup_2, list_elem_of_In, in_map_iff
          in Hl as (u & <- & _). done. }
  destruct H as (_ & _ & _ & H). apply Forall_lookup. intros i t Hl r Hr.
  by eapply H.
Qed.

Lemma single_url_results url schedule w :
  FAILED_LOG ∉ dirs w ->
  let p := download_videos_in_parallel extractor [url] schedule w in
  forall i t r, p_tasks p !! i = Some t -> t_pc t = Finished r -> r = Ok tt.
Proof.
  intros Hlog p.
  assert (H : exists t, p_tasks p = [t] /\
              (FAILED_LOG ∉ dirs (p_world p)) /\
              (t_pc t = AtMakedirs ->
               path_exists OUTPUT_DIR (p_world p) = false) /\
              (forall r, t_pc t = Finished r -> r = Ok tt)).
  { unfold p, download_videos_in_parallel.
    apply (run_invariant extractor (fun p => exists t, p_tasks p = [t] /\
              (FAILED_LOG ∉ dirs (p_world p)) /\
              (t_pc t = AtMakedirs ->
               path_exists OUTPUT_DIR (p_world p) = false) /\
              (forall r, t_pc t = Finished r -> r = Ok tt))).
    - intros q a q' (t & Ht & Hl0 & Hm & Hr) Hk.
      destruct Hk as [a | i t0 Hl Hpc Hcan | i t0 Hl Hpc | i t0 Hl Hpc Hex
                     | i t0 Hl Hpc Hex | i t0 Hl Hpc
                     | i t0 r Hmain Hl Hpc Hy | Hmain Hall];
        try (rewrite Ht in Hl; destruct i as [|i]; [| done];
             injection Hl as <-);
        simpl; try rewrite Ht; simpl.
      + by exists t.
      + eexists. split; [done |]. by simpl.
      + eexists. split; [done |]. simpl. split; [done |].
        destruct (path_exists OUTPUT_DIR (p_world q)) eqn:E; by split.
      + eexists. split; [done |]. simpl. split; [| done].
        rewrite elem_of_union, elem_of_singleton.
        intros [H | H]; [discriminate | done].
      + rewrite (Hm Hpc) in Hex. done.
      + destruct (pool_loop_cases extractor (t_url t) (p_world q))
          as (r & w' & tr & Hrun & Ho & Hd & Hfr & Hev & Hend).
        rewrite Hrun. simpl.
        eexists. split; [done |]. simpl. split; [by rewrite Hd |].
        split; [done |]. intros r0 [= <-]. by destruct Hend.
      + eexists. split; [done |]. simpl. split; [by destruct r |].
        split; [done |]. intros r0 [= <-]. by apply Hr.
      + by exists t.
    - simpl. eexists. split; [done |]. by simpl. }
  destruct H as (t & Ht & _ & _ & Hr). intros i t' r Hl Hpc.
  rewrite Ht in Hl. destruct i as [|i]; [| done].
  injection Hl as <-. by apply Hr.
Qed.

(** X16. A run on a single URL has no second worker to race with: when
    [failed.txt] is not a directory its future never raises. *)
Theorem single_url_never_raises url schedule w :
  FAILED_LOG ∉ dirs w ->
  let p := download_videos_in_parallel extractor [url] schedule w in
  Forall (fun t => forall r, t_pc t = Finished r -> r = Ok tt) (p_tasks p).
Proof.
  intros Hlog p. apply Forall_lookup. intros i t Hl r Hr.
  by eapply (single_url_results url schedule w Hlog).
Qed.

(** X17. Across a whole run at most the output directory is created, the
    failure log only grows at its end, and no other file changes except
    inside the output directory. *)
Theorem pool_changes_only_its_own video_urls schedule w :
  pool_frame w (p_world (download_videos_in_parallel extractor video_urls schedule w)).
Proof.
  unfold download_videos_in_parallel.
  apply (run_invariant extractor (fun p => pool_frame w (p_world p))).
  - intros p a p' [D F [s L] [tr O]] Hk.
    destruct Hk as [a | i t Hl Hpc Hcan | i t Hl Hpc | i t Hl Hpc Hex
                   | i t Hl Hpc Hex | i t Hl Hpc
                   | i t r Hmain Hl Hpc Hy | Hmain Hall]; simpl;
      try (constructor; simpl; eauto; fail).
    + constructor; simpl; eauto.
      destruct D as [D | D]; [right; by rewrite D |].
      right. rewrite D. set_solver.
    + destruct (pool_loop_keeps (t_url t) (p_world p))
        as (D' & [F' [s' L'] _ [tr' O']] & _).
      constructor.
      * by rewrite D'.
      * intros q Hq Ho. by rewrite F', F.
      * exists (s +:+ s'). by rewrite L', L, string_app_assoc.
      * exists (tr ++ tr'). by rewrite O', O, app_assoc.
    + constructor; eauto.
      * by destruct r.
      * intros q Hq Ho. destruct r; by apply F.
      * exists s. destruct r; exact L.
      * destruct r as [[]|e]; simpl; [by exists tr |].
        exists (tr ++ [EvPrint (MsgErrorDownloading (t_url t) e)]).
        by rewrite O, app_assoc.
  - constructor; simpl; [by left | done | |].
    + exists "". by rewrite string_app_nil_r.
    + exists []. by rewrite app_nil_r.
Qed.

(** X18. All through a run every submitted URL has its bar, and once the
    loop is left every bar is closed. *)
Theorem pool_bars video_urls schedule w :
  let p := download_videos_in_parallel extractor video_urls schedule w in
  exists bars,
    progress_bars (p_world p) = Some bars /\
    (forall u, u ∈ video_urls -> is_Some (bars !! u)) /\
    (p_main p = MainClosed ->
     forall u b, bars !! u = Some b -> bar_closed b = true).
Proof.
  unfold download_videos_in_parallel.
  apply (run_invariant extractor (fun p => exists bars,
    progress_bars (p_world p) = Some bars /\
    (forall u, u ∈ video_urls -> is_Some (bars !! u)) /\
    (p_main p = MainClosed ->
     forall u b, bars !! u = Some b -> bar_closed b = true))).
  - intros p a p' (bars & Hb & Hdom & Hcl) Hk.
    destruct Hk as [a | i t Hl Hpc Hcan | i t Hl Hpc | i t Hl Hpc Hex
                   | i t Hl Hpc Hex | i t Hl Hpc
                   | i t r Hmain Hl Hpc Hy | Hmain Hall]; simpl;
      try (by exists bars).
    + destruct (pool_loop_keeps (t_url t) (p_world p)) as (_ & [_ _ B _] & _).
      destruct (bars_kept_Some _ _ _ _ B Hb) as (bars' & Hb' & Hdom' & Hcl').
      exists bars'. split; [done |]. split; [by auto |].
      intros Hm u b' Hu. destruct (Hcl' u b' Hu) as (b & Hu0 & ->).
      by eapply Hcl.
    + exists bars. split; [by destruct r |]. done.
    + exists (close_bar <$> bars). rewrite Hb. simpl. split; [done |]. split.
      * intros u Hu. rewrite lookup_fmap. destruct (Hdom u Hu) as [b ->].
        by eexists.
      * intros _ u b. rewrite lookup_fmap. intros Hu.
        destruct (bars !! u) as [b0|]; [| done]. by injection Hu as <-.
  - simpl. eexists. split; [done |]. split; [| done].
    intros u Hu. apply init_bars_lookup. by left.
Qed.

Lemma pool_bars_domain video_urls schedule w :
  exists bars,
    progress_bars
      (p_world (download_videos_in_parallel extractor video_urls schedule w))
      = Some bars /\
    forall u, u ∈ video_urls -> is_Some (bars !! u).
Proof.
  unfold download_videos_in_parallel.
  apply (run_invariant extractor (fun p => exists bars,
    progress_bars (p_world p) = Some bars /\
    forall u, u ∈ video_urls -> is_Some (bars !! u))).
  - intros p a p' (bars & Hb & Hdom) Hk.
    destruct Hk as [a | i t Hl Hpc Hcan | i t Hl Hpc | i t Hl Hpc Hex
                   | i t Hl Hpc Hex | i t Hl Hpc
                   | i t r Hmain Hl Hpc Hy | Hmain Hall]; simpl;
      try (by exists bars).
    + destruct (pool_loop_keeps (t_url t) (p_world p)) as (_ & [_ _ B _] & _).
      destruct (bars_kept_Some _ _ _ _ B Hb) as (bars' & Hb' & Hdom' & _).
      exists bars'. split; [done |]. by auto.
    + exists bars. split; [by destruct r |]. done.
    + exists (close_bar <$> bars). rewrite Hb. simpl. split; [done |].
      intros u Hu. rewrite lookup_fmap. destruct (Hdom u Hu) as [b ->].
      by eexists.
  - simpl. eexists. split; [done |].
    intros u Hu. apply init_bars_lookup. by left.
Qed.

(** X19. Inside a run the hook of a submitted URL finds its bar: a
    'downloading' event with a non-zero total and a byte count is
    accepted. *)
Theorem hook_works_inside_pool video_urls schedule w url data t d :
  url ∈ video_urls ->
  data !! "status" = Some (VStr "downloading") ->
  selected_total data = Some (VNum t) -> ¬ (t == 0)%Q ->
  data !! "downloaded_bytes" = Some (VNum d) ->
  fst (progress_hook data url
         (p_world (download_videos_in_parallel extractor video_urls
                     schedule w))) = Ok tt.
Proof.
  intros Hin Hs Ht Hnz Hd.
  destruct (pool_bars_domain video_urls schedule w) as (bars & Hb & Hdom).
  destruct (Hdom url Hin) as [b Hu].
  by rewrite (progress_hook_selected data url bars b _ t d Hs Ht Hnz Hd Hb Hu).
Qed.

(** X20. When no regular file is in the way under the name of the output
    directory, then whatever the schedule a worker reaches its retry loop
    only when the directory is there, and while it is not there no
    download was started. *)
Theorem pool_attempts_need_directory video_urls schedule w :
  files w !! OUTPUT_DIR = None ->
  let p := download_videos_in_parallel extractor video_urls schedule w in
  (forall i t, p_tasks p !! i = Some t -> t_pc t = AtLoop ->
     OUTPUT_DIR ∈ dirs (p_world p)) /\
  (downloads (out (p_world p)) <> downloads (out w) ->
   OUTPUT_DIR ∈ dirs (p_world p)).
Proof.
  intros Hfile p.
  assert (H : files (p_world p) !! OUTPUT_DIR = None /\
              (forall i t, p_tasks p !! i = Some t -> t_pc t = AtLoop ->
                 OUTPUT_DIR ∈ dirs (p_world p)) /\
              ((OUTPUT_DIR ∉ dirs (p_world p)) ->
               downloads (out (p_world p)) = downloads (out w))).
  { unfold p, download_videos_in_parallel.
    apply (run_invariant extractor (fun p =>
             files (p_world p) !! OUTPUT_DIR = None /\
             (forall i t, p_tasks p !! i = Some t -> t_pc t = AtLoop ->
                OUTPUT_DIR ∈ dirs (p_world p)) /\
             ((OUTPUT_DIR ∉ dirs (p_world p)) ->
              downloads (out (p_world p)) = downloads (out w)))).
    - intros q a q' (Hf & Hloop & Hcount) Hk.
      destruct Hk as [a | i t Hl Hpc Hcan | i t Hl Hpc | i t Hl Hpc Hex
                     | i t Hl Hpc Hex | i t Hl Hpc
                     | i t r Hmain Hl Hpc Hy | Hmain Hall]; simpl.
      + done.
      + split; [done |]. split; [| done].
        intros j t0 Hj Hc. apply lookup_with_task in Hj as [[-> ->] | [_ Hj]];
          [done | by eapply Hloop].
      + split; [done |]. split; [| done].
        intros j t0 Hj Hc. apply lookup_with_task in Hj as [[-> ->] | [_ Hj]];
          [| by eapply Hloop].
        simpl in Hc. rewrite path_exists_output_dir in Hc.
        destruct (bool_decide (OUTPUT_DIR ∈ dirs (p_world q))) eqn:E.
        * by apply bool_decide_eq_true in E.
        * simpl in Hc. rewrite Hf in Hc.
          rewrite bool_decide_eq_false_2 in Hc by (by intros [x Hx]). done.
      + split; [done |]. split.
        * intros _ _ _ _. set_solver.
        * intros Hn. destruct Hn. set_solver.
      + split; [done |]. split; [| done].
        intros j t0 Hj Hc. apply lookup_with_task in Hj as [[-> ->] | [_ Hj]];
          [done | by eapply Hloop].
      + destruct (pool_loop_keeps (t_url t) (p_world q)) as (D & _ & _ & F & _).
        split; [by rewrite F |]. split.
        * intros _ _ _ _. rewrite D. by eapply Hloop.
        * intros Hn. destruct Hn. rewrite D. by eapply Hloop.
      + split; [by destruct r |]. split.
        * intros j t0 Hj Hc.
          apply lookup_with_task in Hj as [[-> ->] | [_ Hj]]; [done |].
          destruct r; by eapply Hloop.
        * intros Hn. destruct r as [[]|e]; simpl in *; [by apply Hcount |].
          unfold downloads. rewrite List.filter_app, length_app. simpl.
          rewrite Nat.add_0_r. by apply Hcount.
      + done.
    - simpl. split; [done |]. split; [| done].
      intros i t Hl Hpc. apply list_elem_of_lookup_2, list_elem_of_In in Hl.
      apply in_map_iff in Hl as (u & <- & _). done. }
  destruct H as (_ & H1 & H2). split; [done |].
  intros Hne. destruct (decide (OUTPUT_DIR ∈ dirs (p_world p))); [done |].
  by destruct Hne; apply H2.
Qed.

Lemma task_events_in_pool video_urls url tr :
  url ∈ video_urls ->
  Forall (task_event url) tr -> Forall (pool_event video_urls) tr.
Proof.
  intros Hin H. eapply Forall_impl; [exact H |].
  intros [m | u t | u o | u v]; simpl; try done.
  by intros [-> ->].
Qed.

(** X22. A run requests no page, and every download it starts is for a
    submitted URL, into the output directory. *)
Theorem pool_downloads_only_submitted video_urls schedule w :
  extends_with (pool_event video_urls) w
    (p_world (download_videos_in_parallel extractor video_urls schedule w)).
Proof.
  assert (H : let p := download_videos_in_parallel extractor video_urls schedule w in
              extends_with (pool_event video_urls) w (p_world p) /\
              forall i t, p_tasks p !! i = Some t -> t_url t ∈ video_urls);
    [| by destruct H].
  unfold download_videos_in_parallel.
  apply (run_invariant extractor (fun p =>
           extends_with (pool_event video_urls) w (p_world p) /\
           forall i t, p_tasks p !! i = Some t -> t_url t ∈ video_urls)).
  - intros p a p' [He Hu] Hk.
    assert (Hu' : forall i t, p_tasks p' !! i = Some t -> t_url t ∈ video_urls).
    { destruct Hk; simpl; try done; intros j t0 Hj;
        apply lookup_with_task in Hj as [[-> ->] | [_ Hj]]; simpl; by eauto. }
    split; [| done].
    destruct Hk as [a | i t Hl Hpc Hcan | i t Hl Hpc | i t Hl Hpc Hex
                   | i t Hl Hpc Hex | i t Hl Hpc
                   | i t r Hmain Hl Hpc Hy | Hmain Hall]; simpl; try done.
    + eapply extends_with_trans; [exact He |].
      destruct (pool_loop_keeps (t_url t) (p_world p))
        as (_ & _ & (tr & Ho & Hev) & _).
      exists tr. split; [done |].
      eapply task_events_in_pool; [| done]. by eapply Hu.
    + destruct r as [[]|e]; simpl; [done |].
      eapply extends_with_trans; [exact He |]. by apply extends_with_emit.
  - simpl. split; [exists []; by rewrite app_nil_r |].
    intros i t Hl. apply list_elem_of_lookup_2, list_elem_of_In, in_map_iff
      in Hl as (u & <- & Hin). by apply list_elem_of_In.
Qed.

End MorePool.

(** ** The entry point *)

Section MainFacts.

Variable urlparse_netloc : string -> result string.
Variable requests_get : string -> Z -> result response.
Variable soup : Type.
Variable BeautifulSoup : string -> string -> result soup.
Variable find_all : soup -> string -> result (list tag).
Variable extractor : string -> nat -> ydl_run.
Variable input : string -> result string.

Local Abbreviation raises :=
  (scan_raises requests_get soup BeautifulSoup find_all).

Lemma read_url_pure argv w : snd (read_url input argv w) = w.
Proof.
  unfold read_url. destruct argv as [|a [|url rest]]; try done.
Qed.

(** Discovery raises only through [urlparse], before it did anything. *)
Lemma discover_raises url w e w1 :
  extract_video_urls urlparse_netloc requests_get soup BeautifulSoup find_all
    url w = (Raise e, w1) ->
  urlparse_netloc url = Raise e /\ w1 = w.
Proof.
  unfold extract_video_urls, lift, bind at 1.
  destruct (urlparse_netloc url) as [domain|e'] eqn:Hn; [| by intros [= -> ->]].
  destruct (any_video_domain domain); [done |].
  unfold bind at 1, print, try_except.
  destruct (scan_page_cases requests_get soup BeautifulSoup find_all url
              (emit (EvPrint MsgScanning) w))
    as [(x & _ & ->) | (l & _ & [-> | ->])]; done.
Qed.

(** X23. When the page cannot be fetched or parsed, [main] reports that
    there is nothing to download and stops: no pool, no directory, no file. *)
Theorem main_without_links argv schedule url domain e w :
  read_url input argv w = (Ok url, w) ->
  urlparse_netloc url = Ok domain -> any_video_domain domain = false ->
  raises url e ->
  main urlparse_netloc requests_get soup BeautifulSoup find_all extractor
       input argv schedule w =
    MainNothing
      (mkWorld (dirs w) (files w) (progress_bars w)
         (out w ++ [EvPrint MsgScanning; EvHttpGet url TIMEOUT;
                    EvPrint (MsgExtractFailed e); EvPrint MsgNoValid])).
Proof.
  intros Hr Hn Hd He. unfold main, bind at 1. rewrite Hr.
  unfold extract_video_urls, lift, bind at 1. rewrite Hn, Hd.
  unfold bind at 1, print, try_except.
  rewrite (scan_page_raises requests_get soup BeautifulSoup find_all url e _ He).
  unfold bind, ret, emit. simpl. by rewrite <- !app_assoc.
Qed.

(** X24. With a video-domain URL on the command line [main] submits that one
    URL, and when [failed.txt] is not a directory its future never raises,
    whatever the schedule. *)
Theorem main_on_video_domain prog url rest domain schedule w :
  urlparse_netloc url = Ok domain -> any_video_domain domain = true ->
  exists p,
    main urlparse_netloc requests_get soup BeautifulSoup find_all extractor
         input (prog :: url :: rest) schedule w = MainPool p /\
    p = download_videos_in_parallel extractor [url] schedule
          (mkWorld (dirs w) (files w) (progress_bars w)
             (out w ++ [EvPrint (MsgDetected domain); EvPrint (MsgFound 1)])) /\
    p_total p = 1%Z /\
    ((FAILED_LOG ∉ dirs w) ->
     Forall (fun t => forall r, t_pc t = Finished r -> r = Ok tt) (p_tasks p)).
Proof.
  intros Hn Hd.
  set (w1 := mkWorld (dirs w) (files w) (progress_bars w)
               (out w ++ [EvPrint (MsgDetected domain); EvPrint (MsgFound 1)])).
  exists (download_videos_in_parallel extractor [url] schedule w1).
  split; [| split; [reflexivity |]].
  - unfold main, read_url, bind at 1, ret at 1.
    unfold extract_video_urls, lift, bind at 1. rewrite Hn, Hd.
    unfold bind, print, ret, emit. simpl. unfold w1. by rewrite <- app_assoc.
  - split.
    + pose proof (inv_total _ (run_inv extractor schedule _
                                 (init_pool_inv [url] w1))) as Ht.
      unfold download_videos_in_parallel. rewrite Ht, run_length. done.
    + intros Hlog. apply Forall_lookup. intros i t Hl r Hr.
      by eapply (single_url_results extractor url schedule w1 Hlog).
Qed.

(** X25. [main] raises only when [input] or [urlparse] raises, and then the
    world is as it was. *)
Theorem main_raises_before_anything_happens argv schedule w e w' :
  main urlparse_netloc requests_get soup BeautifulSoup find_all extractor
       input argv schedule w = MainRaised e w' ->
  w' = w /\
  (read_url input argv w = (Raise e, w) \/
   exists url, read_url input argv w = (Ok url, w) /\
               urlparse_netloc url = Raise e).
Proof.
  unfold main, bind at 1.
  pose proof (read_url_pure argv w) as Hp.
  destruct (read_url input argv w) as [[url|e0] w0]; simpl in Hp; subst w0.
  - destruct (extract_video_urls urlparse_netloc requests_get soup
                BeautifulSoup find_all url w)
      as [[[|u l]|e1] w1] eqn:Hdisc; try done.
    intros [= -> ->]. apply discover_raises in Hdisc as [Hn ->].
    split; [done |]. right. by exists url.
  - intros [= -> ->]. split; [done |]. by left.
Qed.

(** X26. The pool [main] starts is never empty and has one future per
    discovered URL. *)
Theorem main_pool_is_not_empty argv schedule w p :
  main urlparse_netloc requests_get soup BeautifulSoup find_all extractor
       input argv schedule w = MainPool p ->
  (1 <= p_total p)%Z /\ p_total p = Z.of_nat (length (p_tasks p)).
Proof.
  unfold main, bind at 1.
  destruct (read_url input argv w) as [[url|e0] w0]; [| done].
  destruct (extract_video_urls urlparse_netloc requests_get soup
              BeautifulSoup find_all url w0)
    as [[[|u l]|e1] w1]; try done.
  intros [= <-].
  match goal with
  | |- context [p_total ?q] =>
      assert (Hinv : pool_inv q) by apply run_inv, init_pool_inv;
      pose proof (inv_total q Hinv) as Ht
  end.
  split; [| done]. rewrite Ht. unfold download_videos_in_parallel.
  match goal with
  | |- context [fold_left _ schedule ?q0] =>
      rewrite (run_length extractor schedule q0)
  end.
  simpl. lia.
Qed.

End MainFacts.

(** ** Instances *)

Lemma discovery_empty_means_failure_witness :
  exists domain e,
    sample_netloc "https://example.com/watch" = Ok domain /\
    any_video_domain domain = false /\
    scan_raises refuse_connection (list tag) parse_plain_page sample_find_all
      "https://example.com/watch" e /\
    out (mkWorld ∅ ∅ None
           [EvPrint MsgScanning;
            EvHttpGet "https://example.com/watch" TIMEOUT;
            EvPrint (MsgExtractFailed (RequestException "connection refused"))])
    = out fresh_world ++
      [EvPrint MsgScanning; EvHttpGet "https://example.com/watch" TIMEOUT;
       EvPrint (MsgExtractFailed e)].
Proof.
  apply (discovery_empty_means_failure sample_netloc refuse_connection
           (list tag) parse_plain_page sample_find_all
           "https://example.com/watch" fresh_world).
  reflexivity.
Defined.

Lemma discovery_fetches_once_witness :
  http_fetches
    (out (snd (extract_video_urls sample_netloc serve_200 (list tag)
                 parse_plain_page sample_find_all
                 "https://example.com/watch" fresh_world)))
  = http_fetches (out fresh_world)
    + (if any_video_domain "example.com" then 0 else 1).
Proof.
  apply (discovery_fetches_once sample_netloc serve_200 (list tag)
           parse_plain_page sample_find_all).
  reflexivity.
Defined.

Lemma discovery_returns_the_candidates_witness :
  exists l,
    extract_video_urls sample_netloc serve_200 (list tag) parse_video_page
      sample_find_all "https://example.com/watch" fresh_world =
      (Ok l, emit (EvHttpGet "https://example.com/watch" TIMEOUT)
               (emit (EvPrint MsgScanning) fresh_world)) /\
    NoDup l /\
    forall x, x ∈ l <->
      (exists t, t ∈ video_page /\ tag_get t "src" = Some x /\ x <> "") \/
      (exists t, t ∈ [] /\ tag_get t "src" = Some x /\
                 any_video_domain x = true) \/
      (exists t, t ∈ [] /\ tag_get t "href" = Some x /\
                 any_video_domain x = true).
Proof.
  apply (discovery_returns_the_candidates sample_netloc serve_200 (list tag)
           parse_video_page sample_find_all
           "https://example.com/watch" "example.com"
           (mkResponse 200 "<html>...</html>") video_page
           video_page [] []); try reflexivity.
  vm_compute. discriminate.
Defined.

Lemma progress_hook_other_status_witness :
  progress_hook finished_event "v" sample_world = (Ok tt, sample_world).
Proof.
  apply (progress_hook_other_status finished_event "v" sample_world
           (VStr "finished")); reflexivity.
Defined.

Lemma progress_hook_missing_key_witness :
  progress_hook no_count_event "v" sample_world
  = (Raise (KeyError "downloaded_bytes"), sample_world).
Proof.
  apply (progress_hook_missing_key no_count_event "v" sample_world).
  right. split; [reflexivity |]. split; [reflexivity |].
  split; [by eexists | reflexivity].
Defined.

Lemma progress_hook_none_total_witness :
  progress_hook none_total_event "v" sample_world
  = (Ok tt, with_progress "v" (VNum 0) sample_bars sample_bar sample_world).
Proof.
  apply (progress_hook_none_total none_total_event "v" sample_world
           (VNum 500)); reflexivity.
Defined.

Lemma progress_hook_without_bar_witness :
  progress_hook quarter_event "v" fresh_world
  = (Raise (NameError "progress_bars"), fresh_world).
Proof.
  apply (progress_hook_without_bar quarter_event "v" fresh_world 200 50);
    reflexivity.
Defined.

Lemma task_raises_only_outside_the_try_witness :
  let rw := download_video_with_progress unreachable_site "v" OUTPUT_DIR 2
              log_is_directory in
  (path_exists OUTPUT_DIR log_is_directory = false /\ snd rw = log_is_directory /\
   ((OUTPUT_DIR = "" /\
     IsADirectoryError FAILED_LOG = FileNotFoundError OUTPUT_DIR) \/
    (OUTPUT_DIR <> "" /\
     (IsADirectoryError FAILED_LOG = FileExistsError OUTPUT_DIR \/
      IsADirectoryError FAILED_LOG = NotADirectoryError OUTPUT_DIR)))) \/
  (IsADirectoryError FAILED_LOG = IsADirectoryError FAILED_LOG /\ (1 <= 2)%Z /\
   FAILED_LOG ∈ dirs (snd rw)).
Proof.
  apply (task_raises_only_outside_the_try unreachable_site "v" OUTPUT_DIR 2
           log_is_directory (IsADirectoryError FAILED_LOG)).
  - reflexivity.
  - vm_compute. reflexivity.
Defined.

Lemma task_succeeds_or_fails_witness :
  exists r w' tr,
    download_video_with_progress flaky_site "v" OUTPUT_DIR 3 sample_world
      = (r, w') /\
    out w' = out sample_world ++ tr /\
    1 <= attempts_of "v" tr <= Z.to_nat 3 /\
    ((r = Ok tt /\ succeeded "v" tr /\ ¬ failed "v" tr /\
      files w' !! FAILED_LOG = files sample_world !! FAILED_LOG) \/
     (r = Ok tt /\ failed "v" tr /\ ¬ succeeded "v" tr /\
      attempts_of "v" tr = Z.to_nat 3 /\ (FAILED_LOG ∉ dirs sample_world) /\
      files w' !! FAILED_LOG =
        Some (file_text sample_world FAILED_LOG +:+ "v" +:+ newline)) \/
     (r = Raise (IsADirectoryError FAILED_LOG) /\
      ¬ succeeded "v" tr /\ ¬ failed "v" tr /\
      attempts_of "v" tr = Z.to_nat 3 /\ FAILED_LOG ∈ dirs sample_world /\
      files w' !! FAILED_LOG = files sample_world !! FAILED_LOG)).
Proof. apply task_succeeds_or_fails. lia. Defined.

Lemma task_error_lines_are_numbered_witness :
  exists tr n,
    out (snd (download_video_with_progress unreachable_site "v" OUTPUT_DIR 3
                fresh_world))
      = out fresh_world ++ tr /\
    error_lines "v" tr = numbered 3 n /\
    ((succeeded "v" tr /\ attempts_of "v" tr = S n) \/
     (¬ succeeded "v" tr /\ attempts_of "v" tr = n /\ n = Z.to_nat 3)).
Proof. apply task_error_lines_are_numbered. lia. Defined.

Lemma pool_with_directory_never_raises_witness :
  Forall (fun t => forall r, t_pc t = Finished r -> r = Ok tt)
    (p_tasks (download_videos_in_parallel unreachable_site ["a"; "b"]
                (race_schedule ++ sequential_schedule 2) prepared_world)).
Proof.
  apply (pool_with_directory_never_raises unreachable_site ["a"; "b"]
           (race_schedule ++ sequential_schedule 2) prepared_world).
  - reflexivity.
  - intros H. simpl in H. apply elem_of_singleton in H. discriminate.
Defined.

Lemma single_url_never_raises_witness :
  Forall (fun t => forall r, t_pc t = Finished r -> r = Ok tt)
    (p_tasks (download_videos_in_parallel unreachable_site ["a"]
                (sequential_schedule 1) fresh_world)).
Proof.
  apply (single_url_never_raises unreachable_site "a" (sequential_schedule 1)
           fresh_world).
  apply not_elem_of_empty.
Defined.

Lemma hook_works_inside_pool_witness :
  fst (progress_hook quarter_event "b"
         (p_world (download_videos_in_parallel always_ok ["a"; "b"]
                     race_schedule fresh_world))) = Ok tt.
Proof.
  apply (hook_works_inside_pool always_ok ["a"; "b"] race_schedule fresh_world
           "b" quarter_event 200 50).
  - set_solver.
  - reflexivity.
  - reflexivity.
  - unfold Qeq. simpl. lia.
  - reflexivity.
Defined.

Lemma task_needs_its_directory_witness :
  let rw := download_video_with_progress always_ok "v" "videos/new" 1
              fresh_world in
  ("videos/new" = "" -> rw = (Raise (FileNotFoundError "videos/new"), fresh_world)) /\
  ((out (snd rw) <> out fresh_world \/ fst rw = Ok tt) ->
   exists w1,
     ensure_output_dir "videos/new" fresh_world = (Ok tt, w1) /\
     path_exists "videos/new" w1 = true /\
     (dirs fresh_world ⊆ dirs w1) /\ files w1 = files fresh_world /\
     progress_bars w1 = progress_bars fresh_world /\ out w1 = out fresh_world /\
     rw = retry_loop always_ok (make_ydl_opts "v" "videos/new") "v" 1 w1).
Proof.
  apply (task_needs_its_directory always_ok "v" "videos/new" 1 fresh_world).
  reflexivity.
Defined.

Lemma regular_file_in_the_way_witness :
  exists r w' tr,
    download_video_with_progress streaming_site "v" OUTPUT_DIR 2
      downloads_is_file = (r, w') /\
    out w' = out downloads_is_file ++ tr /\
    dirs w' = dirs downloads_is_file /\
    (forall q, q <> FAILED_LOG ->
       files w' !! q = files downloads_is_file !! q) /\
    attempts_of "v" tr = Z.to_nat 2 /\
    ¬ succeeded "v" tr /\
    error_lines "v" tr = numbered 2 (Z.to_nat 2) /\
    ((r = Ok tt /\ failed "v" tr /\
      files w' !! FAILED_LOG =
        Some (file_text downloads_is_file FAILED_LOG +:+ "v" +:+ newline)) \/
     (r = Raise (IsADirectoryError FAILED_LOG) /\ ¬ failed "v" tr /\
      FAILED_LOG ∈ dirs downloads_is_file)).
Proof.
  apply (regular_file_in_the_way streaming_site "v" 2 downloads_is_file
           "not a directory").
  - reflexivity.
  - intros n. exists "clip.mp4", "...". simpl. right. left. reflexivity.
  - lia.
Defined.

Lemma pool_attempts_need_directory_witness :
  let p := download_videos_in_parallel always_ok ["a"; "b"] race_schedule
             fresh_world in
  (forall i t, p_tasks p !! i = Some t -> t_pc t = AtLoop ->
     OUTPUT_DIR ∈ dirs (p_world p)) /\
  (downloads (out (p_world p)) <> downloads (out fresh_world) ->
   OUTPUT_DIR ∈ dirs (p_world p)).
Proof.
  apply (pool_attempts_need_directory always_ok ["a"; "b"] race_schedule
           fresh_world).
  reflexivity.
Defined.

Lemma main_without_links_witness :
  main sample_netloc refuse_connection (list tag) parse_plain_page
       sample_find_all always_ok typed_line ["run.py"] [] fresh_world =
  MainNothing
    (mkWorld (dirs fresh_world) (files fresh_world) (progress_bars fresh_world)
       (out fresh_world ++
        [EvPrint MsgScanning;
         EvHttpGet "https://example.com/watch" TIMEOUT;
         EvPrint (MsgExtractFailed (RequestException "connection refused"));
         EvPrint MsgNoValid])).
Proof.
  apply (main_without_links sample_netloc refuse_connection (list tag)
           parse_plain_page sample_find_all always_ok typed_line
           ["run.py"] [] "https://example.com/watch" "example.com").
  - reflexivity.
  - reflexivity.
  - reflexivity.
  - by apply get_raises.
Defined.

Lemma main_on_video_domain_witness :
  exists p,
    main sample_netloc serve_200 (list tag) parse_plain_page sample_find_all
         always_ok typed_line ["run.py"; "https://youtu.be/abc"]
         (sequential_schedule 1) fresh_world = MainPool p /\
    p = download_videos_in_parallel always_ok ["https://youtu.be/abc"]
          (sequential_schedule 1)
          (mkWorld (dirs fresh_world) (files fresh_world)
             (progress_bars fresh_world)
             (out fresh_world ++
              [EvPrint (MsgDetected "youtu.be"); EvPrint (MsgFound 1)])) /\
    p_total p = 1%Z /\
    ((FAILED_LOG ∉ dirs fresh_world) ->
     Forall (fun t => forall r, t_pc t = Finished r -> r = Ok tt) (p_tasks p)).
Proof.
  apply (main_on_video_domain sample_netloc serve_200 (list tag)
           parse_plain_page sample_find_all always_ok typed_line
           "run.py" "https://youtu.be/abc" [] "youtu.be");
    reflexivity.
Defined.

Lemma main_raises_before_anything_happens_witness :
  fresh_world = fresh_world /\
  (read_url closed_stdin [] fresh_world
   = (Raise (ValueError "I/O operation on closed file"), fresh_world) \/
   exists url,
     read_url closed_stdin [] fresh_world = (Ok url, fresh_world) /\
     sample_netloc url = Raise (ValueError "I/O operation on closed file")).
Proof.
  apply (main_raises_before_anything_happens sample_netloc serve_200 (list tag)
           parse_plain_page sample_find_all always_ok
           closed_stdin [] [] fresh_world).
  reflexivity.
Defined.

Lemma main_pool_is_not_empty_witness :
  let p := download_videos_in_parallel always_ok ["https://youtu.be/abc"] []
             (mkWorld ∅ ∅ None
                [EvPrint (MsgDetected "youtu.be"); EvPrint (MsgFound 1)]) in
  (1 <= p_total p)%Z /\ p_total p = Z.of_nat (length (p_tasks p)).
Proof.
  apply (main_pool_is_not_empty sample_netloc serve_200 (list tag)
           parse_plain_page sample_find_all always_ok typed_line
           ["run.py"; "https://youtu.be/abc"] [] fresh_world).
  reflexivity.
Defined.
